(** * hlandau/acme: state reconciler and http-01 responder

    A shallow embedding of the parts of the [storage] and [responder]
    packages that decide certificate selection, renewal, target
    bookkeeping and the responder's start-up, with the properties proved
    about them.

    Conventions.
    - A Go [map] that is only ranged over is given as the list of its
      entries in the order the [range] statement yields them; Go leaves that
      order unspecified, so every statement quantifies over all lists.
    - A [*Target] is identified by the file name it was loaded from (the key
      of [Store.targets]); every target is allocated once, by
      [validateTargetInner].
    - [time.Time] is an instant counted in nanoseconds, [time.Duration] a
      signed 64-bit count of nanoseconds.
    - Functions of Go's library and of packages outside the files at hand
      ([x509.ParseCertificate], [strings.ToLower], [validHostname], ...) are
      section variables. *)

From stdpp Require Import gmap strings list fin_maps pretty.
From Stdlib Require Import ZArith Lia Ascii Sorted.

Local Open Scope Z_scope.
Set Warnings "-clear-no-such-hyp".

(** ** time *)

Module time.

Definition Time := Z.
Definition Duration := Z.

Definition minDuration : Duration := - 2 ^ 63.
Definition maxDuration : Duration := 2 ^ 63 - 1.

Definition Nanosecond : Duration := 1.
Definition Second : Duration := 1000000000.
Definition Hour : Duration := 3600 * Second.

(** Arithmetic on [int64]: the result wraps around. *)
Definition wrap64 (z : Z) : Z := (z + 2 ^ 63) mod 2 ^ 64 - 2 ^ 63.

(** [t.Sub(u)]: the duration [t - u], saturated at the ends of [Duration]. *)
Definition Sub (t u : Time) : Duration :=
  let d := t - u in
  if d <? minDuration then minDuration
  else if maxDuration <? d then maxDuration
  else d.

Definition Add (t : Time) (d : Duration) : Time := t + d.
Definition Before (t u : Time) : bool := t <? u.
Definition After (t u : Time) : bool := u <? t.

End time.

(** ** Stored data (package storage) *)

Record Authorization := mkAuthorization {
  Name : string;
  AuthorizationURL : string;
  Expires : time.Time
}.

(** A map is nil ([None]) or holds entries, here in range order; a range
    over the nil map yields nothing, a store into it panics. *)
Definition mapEntries {V : Type} (m : option (list (string * V)))
    : list (string * V) :=
  match m with
  | Some entries => entries
  | None => []
  end.

Record Account := mkAccount {
  PrivateKey : string;
  BaseURL : string;
  (** [map[string]*Authorization] *)
  Authorizations : option (list (string * Authorization))
}.

Module TargetSatisfy.
Record t := mk {
  Names : list string;
  ReducedNames : list string
}.
End TargetSatisfy.

Module TargetRequest.
Record t := mk {
  Names : list string;
  implicitNames : bool;
  Provider : string;
  (** [*Account]; [None] is the nil pointer *)
  Account : option Account
}.
End TargetRequest.

Record Target := mkTarget {
  Satisfy : TargetSatisfy.t;
  Request : TargetRequest.t;
  Priority : Z;
  LegacyNames : list string;
  LegacyProvider : string
}.

Record Key := mkKey { KeyID : string }.

Record Certificate := mkCertificate {
  URL : string;
  (** DER blobs, end-entity certificate first *)
  Certificates : list (list Byte.byte);
  Cached : bool;
  (** [Key *Key]; [None] is the nil pointer *)
  CertificateKey : option Key
}.

(** What the code reads of a parsed [x509.Certificate]. *)
Record x509Certificate := mkX509 {
  DNSNames : list string;
  NotBefore : time.Time;
  NotAfter : time.Time
}.

(** ** Renewal policy *)

(** [30 * 24 * time.Hour] *)
Definition thirtyDays : time.Duration := 30 * 24 * time.Hour.

(** A number of days of 24 hours. *)
Definition days (n : Z) : time.Duration := n * 24 * time.Hour.

Definition renewTime (notBefore notAfter : time.Time) : time.Time :=
  let validityPeriod := time.Sub notAfter notBefore in
  let renewSpan := Z.quot validityPeriod 3 in
  let renewSpan := if thirtyDays <? renewSpan then thirtyDays else renewSpan in
  time.Add notAfter (time.wrap64 (- renewSpan)).

(** ** Target solver / matcher *)

Section Matcher.

(** [x509.ParseCertificate]; [None] stands for a non-nil error. *)
Variable ParseCertificate : list Byte.byte -> option x509Certificate.

(** [time.Now()] *)
Variable now : time.Time.

Fixpoint coversNames (names : gset string) (wanted : list string) : bool :=
  match wanted with
  | [] => true
  | name :: rest =>
      if bool_decide (name ∈ names) then coversNames names rest else false
  end.

Definition doesCertSatisfy (c : Certificate) (t : Target) : bool :=
  match Certificates c with
  | [] => false
  | der :: _ =>
      match CertificateKey c with
      | None => false
      | Some _ =>
          match ParseCertificate der with
          | None => false
          | Some cc =>
              let names : gset string := list_to_set (DNSNames cc) in
              coversNames names (TargetSatisfy.Names (Satisfy t))
          end
      end
  end.

Definition certificateNeedsRenewing (c : Certificate) : bool :=
  match Certificates c with
  | [] => false
  | der :: _ =>
      match ParseCertificate der with
      | None => false
      | Some cc =>
          let renewSpan := renewTime (NotBefore cc) (NotAfter cc) in
          negb (time.Before now renewSpan)
      end
  end.

Definition certBetterThan (a b : Certificate) : bool :=
  if (length (Certificates a) <=? length (Certificates b))%nat
     || (length (Certificates b) =? 0)%nat
  then false
  else
    match Certificates a, Certificates b with
    | da :: _, db :: _ =>
        match ParseCertificate da, ParseCertificate db with
        | Some ac, Some bc => time.After (NotAfter ac) (NotAfter bc)
        | Some _, None => true
        | None, _ => false
        end
    | _, _ => false (* index out of range; excluded by the guard *)
    end.

(** The loop of [findBestCertificateSatisfying]: [bestCert] so far, then the
    certificates still to be visited. *)
Fixpoint findBestLoop (t : Target) (bestCert : option Certificate)
    (certs : list Certificate) : option Certificate :=
  match certs with
  | [] => bestCert
  | c :: rest =>
      let take :=
        doesCertSatisfy c t &&
        match bestCert with
        | None => true
        | Some b => certBetterThan c b
        end in
      findBestLoop t (if take then Some c else bestCert) rest
  end.

(** [None] is the error "no certificate satisifes this target". *)
Definition findBestCertificateSatisfying (certs : list Certificate)
    (t : Target) : option Certificate :=
  findBestLoop t None certs.

End Matcher.

(** ** Errors *)

(** Go's [error] values, by the implementations that occur: the string
    errors of [errors.New] and [fmt.Errorf], [*TargetSpecificError] and
    [MultiError]. An [option error] is a possibly-nil [error]. *)
#[warnings="-register-all"]
Inductive error :=
  | errorString (msg : string)
  | TargetSpecificError (target : Target) (err : error)
  | MultiError (errs : list error).

(** A Go result pair [(A, error)]: the error when it is not nil, else the
    value. *)
Definition result (A : Type) : Type := error + A.

(** ** Strings *)

(** The line feed. *)
Definition LF : string := String "010"%char EmptyString.

(** [strings.Join] *)
Fixpoint Join (ss : list string) (sep : string) : string :=
  match ss with
  | [] => EmptyString
  | [s] => s
  | s :: rest => s +:+ sep +:+ Join rest sep
  end.

(** The last byte of a string. *)
Fixpoint lastByte (s : string) : option ascii :=
  match s with
  | EmptyString => None
  | String a EmptyString => Some a
  | String _ rest => lastByte rest
  end.

(** A string without its last byte. *)
Fixpoint dropLast (s : string) : string :=
  match s with
  | EmptyString => EmptyString
  | String _ EmptyString => EmptyString
  | String a rest => String a (dropLast rest)
  end.

(** [strings.TrimSuffix(s, suffix)] for a suffix of one byte. *)
Definition TrimSuffix1 (s : string) (suffix : ascii) : string :=
  match lastByte s with
  | Some a => if bool_decide (a = suffix) then dropLast s else s
  | None => s
  end.

(** [strings.TrimRight(s, cutset)] for a cutset of one byte: every trailing
    occurrence goes. *)
Fixpoint TrimRight1 (s : string) (cut : ascii) : string :=
  match s with
  | EmptyString => EmptyString
  | String a rest =>
      match TrimRight1 rest cut with
      | EmptyString => if bool_decide (a = cut) then EmptyString
                       else String a EmptyString
      | rest' => String a rest'
      end
  end.

(** [%d] of an [int] *)
Definition formatInt (z : Z) : string := pretty z.

(** The [String] method of a target. *)
Definition TargetString (t : Target) : string :=
  "Target(" +:+ Join (TargetSatisfy.Names (Satisfy t)) "," +:+ ";"
  +:+ TargetRequest.Provider (Request t) +:+ ";"
  +:+ formatInt (Priority t) +:+ ")".

(** The loop of [MultiError.Error]: the separator goes before an entry only
    when the text so far is not empty. *)
Fixpoint joinErrors (Error : error -> string) (s : string) (es : list error)
    : string :=
  match es with
  | [] => s
  | e :: rest =>
      let s := match s with
               | EmptyString => s
               | _ => s +:+ "; " +:+ LF
               end in
      joinErrors Error (s +:+ Error e) rest
  end.

(** The [Error] methods. *)
Fixpoint Error (e : error) : string :=
  match e with
  | errorString msg => msg
  | TargetSpecificError t err =>
      "error satisfying target " +:+ TargetString t +:+ ": " +:+ Error err
  | MultiError errs =>
      "the following errors occurred:" +:+ LF +:+ joinErrors Error EmptyString errs
  end.

(** ** The store *)

(** The YAML document of a target file: the fields of [Target] that carry a
    [yaml] tag other than ["-"]. *)
Record TargetDoc := mkTargetDoc {
  doc_satisfy_names : list string;
  doc_request_names : list string;
  doc_request_provider : string;
  doc_priority : Z;
  doc_names : list string;
  doc_provider : string
}.

(** What [yaml.Marshal] sees of a target. *)
Definition toYAML (t : Target) : TargetDoc :=
  {| doc_satisfy_names := TargetSatisfy.Names (Satisfy t);
     doc_request_names := TargetRequest.Names (Request t);
     doc_request_provider := TargetRequest.Provider (Request t);
     doc_priority := Priority t;
     doc_names := LegacyNames t;
     doc_provider := LegacyProvider t |}.

(** What [yaml.Unmarshal] leaves in a fresh [&Target{}]. *)
Definition fromYAML (d : TargetDoc) : Target :=
  {| Satisfy := TargetSatisfy.mk (doc_satisfy_names d) [];
     Request := TargetRequest.mk (doc_request_names d) false
                  (doc_request_provider d) None;
     Priority := doc_priority d;
     LegacyNames := doc_names d;
     LegacyProvider := doc_provider d |}.

(** The store. Of the state directory it keeps the files of the collections
    [conf] and [desired]; the maps [certs], [accounts], [keys] and [targets]
    are in range order; [hostnameTargetMapping] maps a hostname to the key
    of its target. *)
Record Store := mkStore {
  confFiles : gmap string string;
  desiredFiles : gmap string string;
  certs : list (string * Certificate);
  accounts : list (string * Account);
  keys : list (string * Key);
  targets : list (string * Target);
  defaultTarget : option Target;
  hostnameTargetMapping : gmap string string
}.

Definition withDesiredFiles (s : Store) (files : gmap string string) : Store :=
  {| confFiles := confFiles s; desiredFiles := files; certs := certs s;
     accounts := accounts s; keys := keys s; targets := targets s;
     defaultTarget := defaultTarget s;
     hostnameTargetMapping := hostnameTargetMapping s |}.

Definition withTargets (s : Store) (ts : list (string * Target)) : Store :=
  {| confFiles := confFiles s; desiredFiles := desiredFiles s;
     certs := certs s; accounts := accounts s; keys := keys s; targets := ts;
     defaultTarget := defaultTarget s;
     hostnameTargetMapping := hostnameTargetMapping s |}.

Definition withDefaultTarget (s : Store) (d : option Target) : Store :=
  {| confFiles := confFiles s; desiredFiles := desiredFiles s;
     certs := certs s; accounts := accounts s; keys := keys s;
     targets := targets s; defaultTarget := d;
     hostnameTargetMapping := hostnameTargetMapping s |}.

Definition withHostnameTargetMapping (s : Store) (m : gmap string string)
    : Store :=
  {| confFiles := confFiles s; desiredFiles := desiredFiles s;
     certs := certs s; accounts := accounts s; keys := keys s;
     targets := targets s; defaultTarget := defaultTarget s;
     hostnameTargetMapping := m |}.

(** [m[k] = v] on a map kept in range order: the entry is replaced where it
    is, a new one goes last. *)
Fixpoint mapStore {V : Type} (k : string) (v : V) (m : list (string * V))
    : list (string * V) :=
  match m with
  | [] => [(k, v)]
  | (k', v') :: rest =>
      if bool_decide (k' = k) then (k, v) :: rest
      else (k', v') :: mapStore k v rest
  end.

(** Modelled from the spec: [containsName] is not in the files at hand; the
    spec's "strip h from ... in every target" and "superset match" make it
    membership by string equality. *)
Fixpoint containsName (names : list string) (name : string) : bool :=
  match names with
  | [] => false
  | n :: rest => if bool_decide (n = name) then true else containsName rest name
  end.

Fixpoint removeStringFromList (ss : list string) (s : string) : list string :=
  match ss with
  | [] => []
  | x :: rest =>
      if bool_decide (x ≠ s) then x :: removeStringFromList rest s
      else removeStringFromList rest s
  end.

(** The [MatchesURL] method of an account. *)
Definition MatchesURL (a : Account) (p : string) : bool :=
  bool_decide (p = BaseURL a).

(** The [IsValid] method of an authorization, at the instant [now]. *)
Definition IsValid (now : time.Time) (a : Authorization) : bool :=
  time.Before now (Expires a).

(** The loop of [determineNecessaryAuthorizations] over the account's
    authorizations: a valid one takes its name out of [needed]. *)
Fixpoint dropAuthorized (now : time.Time) (needed : gset string)
    (auths : list (string * Authorization)) : gset string :=
  match auths with
  | [] => needed
  | (_, auth) :: rest =>
      dropAuthorized now
        (if IsValid now auth then needed ∖ {[ Name auth ]} else needed) rest
  end.

(** The last loop of [determineNecessaryAuthorizations]. *)
Fixpoint keepNeeded (needed : gset string) (names : list string)
    : list string :=
  match names with
  | [] => []
  | name :: rest =>
      if bool_decide (name ∈ needed) then name :: keepNeeded needed rest
      else keepNeeded needed rest
  end.

(** [None] is the run-time panic of [a.Authorizations] on a nil account;
    otherwise the pair the function returns, whose error is always nil. *)
Definition determineNecessaryAuthorizations (now : time.Time) (t : Target)
    : option (list string * option error) :=
  let needed : gset string :=
    list_to_set (TargetRequest.Names (Request t)) in
  match TargetRequest.Account (Request t) with
  | None => None
  | Some a =>
      let needed :=
        dropAuthorized now needed (mapEntries (Authorizations a)) in
      Some (keepNeeded needed (TargetRequest.Names (Request t)), None)
  end.

Section Storage.

(** The environment of the store. *)

(** An I/O fault: the error with which an operation on the file at this path
    fails, if it does. *)
Variable ioFault : string -> option error.
(** [Collection.List] of package fdb, on the files of a collection. *)
Variable List : gmap string string -> result (list string).
(** [yaml.Unmarshal] into a fresh target, [yaml.Marshal] of a target. *)
Variable yamlUnmarshal : string -> result TargetDoc.
Variable yamlMarshal : TargetDoc -> result string.
(** [strings.ToLower], the [%q] verb of package fmt, and
    [base32.StdEncoding.EncodeToString]. *)
Variable ToLower : string -> string.
Variable Quote : string -> string.
Variable base32Encode : list Byte.byte -> string.
(** [validHostname] and [targetGt] of package storage, [ValidURL] and
    [DefaultDirectoryURL] of package acmeapi: none is in the files at hand. *)
Variable validHostname : string -> bool.
Variable targetGt : Target -> Target -> bool.
Variable ValidURL : string -> bool.
Variable DefaultDirectoryURL : string.
(** The parts of the store that generate keys, parse PEM or talk to the ACME
    server. *)
Variable createNewAccount : Store -> string -> Store * result Account.
Variable loadAccounts loadKeys loadCerts linkTargets
  : Store -> Store * option error.
Variable downloadUncachedCertificates : Store -> Store * option error.
(** [requestCertificateForTarget] returns the store as it has left it and
    its error, or panics ([None]): [obtainAuthorization] does at
    [a.Authorizations[...] = saz] for an account whose map is nil. *)
Variable requestCertificateForTarget
  : Store -> Target -> option (Store * option error).
Variable ParseCertificate : list Byte.byte -> option x509Certificate.
Variable now : time.Time.
(** The order of a range over the map [s.certs] is drawn anew at every
    range: [rangeCerts k] is the order in which the [k]-th search of a walk
    finds the entries. *)
Variable rangeCerts
  : nat -> list (string * Certificate) -> list (string * Certificate).

(** *** Package fdb *)

(** Modelled from the spec: package fdb is not in the files at hand. A
    collection is its files by name; "I/O errors propagate unchanged", a
    write replaces the file as a whole ("all-or-nothing file updates"). *)
Definition fdbBytes (dir : string) (files : gmap string string)
    (name : string) : result string :=
  match ioFault (dir +:+ "/" +:+ name) with
  | Some e => inl e
  | None =>
      match files !! name with
      | Some b => inr b
      | None => inl (errorString "file does not exist")
      end
  end.

(** Modelled from the spec: [fdb.WriteBytes]. *)
Definition fdbWriteBytes (dir : string) (files : gmap string string)
    (name : string) (b : string) : gmap string string * option error :=
  match ioFault (dir +:+ "/" +:+ name) with
  | Some e => (files, Some e)
  | None => (<[name := b]> files, None)
  end.

(** Modelled from the spec: [Collection.Delete]. *)
Definition fdbDelete (dir : string) (files : gmap string string)
    (name : string) : gmap string string * option error :=
  match ioFault (dir +:+ "/" +:+ name) with
  | Some e => (files, Some e)
  | None => (delete name files, None)
  end.

(** *** Loading targets *)

Fixpoint findAccount (p : string) (as_ : list (string * Account))
    : option Account :=
  match as_ with
  | [] => None
  | (_, a) :: rest => if MatchesURL a p then Some a else findAccount p rest
  end.

Definition getAccountByProviderString (s : Store) (p : string)
    : Store * result Account :=
  let p :=
    match defaultTarget s with
    | Some d =>
        if bool_decide (p = EmptyString)
        then TargetRequest.Provider (Request d) else p
    | None => p
    end in
  let p := if bool_decide (p = EmptyString) then DefaultDirectoryURL else p in
  if negb (ValidURL p)
  then (s, inl (errorString "provider URI is not a valid HTTPS URL"))
  else
    match findAccount p (accounts s) with
    | Some a => (s, inr a)
    | None => createNewAccount s p
    end.

(** [normalizeNames] writes into the slice it is given; the result is the
    slice's new contents, or the error (the caller then drops the target). *)
Fixpoint normalizeNames (names : list string) : result (list string) :=
  match names with
  | [] => inr []
  | x :: rest =>
      let n := TrimSuffix1 (ToLower x) "." in
      if negb (validHostname n)
      then inl (errorString ("invalid hostname: " +:+ Quote n))
      else
        match normalizeNames rest with
        | inl e => inl e
        | inr rest' => inr (n :: rest')
        end
  end.

Definition validateTargetInner (s : Store) (desiredKey : string)
    (dir : string) (c : gmap string string) : Store * result Target :=
  match fdbBytes dir c desiredKey with
  | inl e => (s, inl e)
  | inr b =>
      match yamlUnmarshal b with
      | inl e => (s, inl e)
      | inr doc =>
          let tgt := fromYAML doc in
          (* In the legacy case Satisfy.Names and LegacyNames are one slice. *)
          let useLegacy :=
            (length (TargetSatisfy.Names (Satisfy tgt)) =? 0)%nat
            && (0 <? length (LegacyNames tgt))%nat in
          let satisfyNames :=
            if (length (TargetSatisfy.Names (Satisfy tgt)) =? 0)%nat then
              if (0 <? length (LegacyNames tgt))%nat then LegacyNames tgt
              else [desiredKey]
            else TargetSatisfy.Names (Satisfy tgt) in
          let provider :=
            if bool_decide (TargetRequest.Provider (Request tgt) = EmptyString)
            then LegacyProvider tgt
            else TargetRequest.Provider (Request tgt) in
          match normalizeNames satisfyNames with
          | inl err =>
              (s, inl (errorString ("invalid target: " +:+ desiredKey
                                    +:+ ": " +:+ Error err)))
          | inr satisfyNames =>
              let legacyNames :=
                if useLegacy then satisfyNames else LegacyNames tgt in
              let implicit :=
                (length (TargetRequest.Names (Request tgt)) =? 0)%nat in
              let requestNames :=
                if implicit then satisfyNames
                else TargetRequest.Names (Request tgt) in
              match getAccountByProviderString s provider with
              | (s, inl e) => (s, inl e)
              | (s, inr a) =>
                  (s, inr {| Satisfy := TargetSatisfy.mk satisfyNames [];
                             Request := TargetRequest.mk requestNames implicit
                                          provider (Some a);
                             Priority := Priority tgt;
                             LegacyNames := legacyNames;
                             LegacyProvider := LegacyProvider tgt |})
              end
          end
      end
  end.

Definition validateTarget (s : Store) (desiredKey : string)
    (c : gmap string string) : Store * option error :=
  match validateTargetInner s desiredKey "desired" c with
  | (s, inl e) => (s, Some e)
  | (s, inr tgt) => (withTargets s (mapStore desiredKey tgt (targets s)), None)
  end.

(** The loop of [loadTargets] over the listed names. *)
Fixpoint validateTargets (s : Store) (desiredKeys : list string)
    (c : gmap string string) : Store * option error :=
  match desiredKeys with
  | [] => (s, None)
  | desiredKey :: rest =>
      match validateTarget s desiredKey c with
      | (s, Some e) => (s, Some e)
      | (s, None) => validateTargets s rest c
      end
  end.

(** The zero [Target], [&Target{}]. *)
Definition emptyTarget : Target :=
  {| Satisfy := TargetSatisfy.mk [] [];
     Request := TargetRequest.mk [] false EmptyString None;
     Priority := 0; LegacyNames := []; LegacyProvider := EmptyString |}.

(** The part of [loadTargets] that reads the default target from
    [conf/target]; its names are dropped, and a file that does not load
    leaves the zero target. *)
Definition loadDefaultTarget (s : Store) : Store :=
  match validateTargetInner s "target" "conf" (confFiles s) with
  | (s, inr dtgt) =>
      withDefaultTarget s
        (Some {| Satisfy := TargetSatisfy.mk [] [];
                 Request := TargetRequest.mk []
                   (TargetRequest.implicitNames (Request dtgt))
                   (TargetRequest.Provider (Request dtgt))
                   (TargetRequest.Account (Request dtgt));
                 Priority := Priority dtgt;
                 LegacyNames := LegacyNames dtgt;
                 LegacyProvider := LegacyProvider dtgt |})
  | (s, inl _) => withDefaultTarget s (Some emptyTarget)
  end.

Definition loadTargets (s : Store) : Store * option error :=
  let s := withTargets s [] in
  let s := loadDefaultTarget s in
  match List (desiredFiles s) with
  | inl e => (s, Some e)
  | inr desiredKeys => validateTargets s desiredKeys (desiredFiles s)
  end.

(** *** Disjoining targets *)

(** [sort.Stable] by insertion: [x], which came before every element of the
    sorted [l], goes behind those that are strictly less. *)
Fixpoint insertSorted (less : Target -> Target -> bool)
    (x : string * Target) (l : list (string * Target))
    : list (string * Target) :=
  match l with
  | [] => [x]
  | y :: rest =>
      if less y.2 x.2 then y :: insertSorted less x rest else x :: y :: rest
  end.

Definition sortStable (less : Target -> Target -> bool)
    (l : list (string * Target)) : list (string * Target) :=
  foldr (insertSorted less) [] l.

(** [sort.Reverse(targetSorter(targets)).Less(i, j)] is
    [targetGt(targets[i], targets[j])]. *)
Definition reverseTargetSorterLess (x y : Target) : bool := targetGt x y.

Definition setReducedNames (t : Target) (reduced : list string) : Target :=
  {| Satisfy := TargetSatisfy.mk (TargetSatisfy.Names (Satisfy t)) reduced;
     Request := Request t; Priority := Priority t;
     LegacyNames := LegacyNames t; LegacyProvider := LegacyProvider t |}.

(** The inner loop of [disjoinTargets] for the target with key [key]. *)
Fixpoint claimNames (key : string) (mapping : gmap string string)
    (reduced : list string) (names : list string)
    : gmap string string * list string :=
  match names with
  | [] => (mapping, reduced)
  | name :: rest =>
      match mapping !! name with
      | Some _ => claimNames key mapping reduced rest
      | None => claimNames key (<[name := key]> mapping) (reduced ++ [name]) rest
      end
  end.

(** The outer loop of [disjoinTargets]. *)
Fixpoint disjoinLoop (mapping : gmap string string)
    (ts : list (string * Target))
    : gmap string string * list (string * Target) :=
  match ts with
  | [] => (mapping, [])
  | (key, tgt) :: rest =>
      let '(mapping, reduced) :=
        claimNames key mapping [] (TargetSatisfy.Names (Satisfy tgt)) in
      let '(mapping, rest) := disjoinLoop mapping rest in
      (mapping, (key, setReducedNames tgt reduced) :: rest)
  end.

(** The targets are changed in place, so [s.targets] holds the same entries
    after the call; they are listed here in the order of the walk. *)
Definition disjoinTargets (s : Store) : Store * option error :=
  let targets := sortStable reverseTargetSorterLess (targets s) in
  let '(hostnameTargetMapping, targets) := disjoinLoop ∅ targets in
  (withHostnameTargetMapping (withTargets s targets) hostnameTargetMapping,
   None).

(** *** Adding and removing targets *)

Definition setRequestNames (t : Target) (names : list string) : Target :=
  {| Satisfy := Satisfy t;
     Request := TargetRequest.mk names
                  (TargetRequest.implicitNames (Request t))
                  (TargetRequest.Provider (Request t))
                  (TargetRequest.Account (Request t));
     Priority := Priority t;
     LegacyNames := LegacyNames t; LegacyProvider := LegacyProvider t |}.

Definition setSatisfyNames (t : Target) (names : list string) : Target :=
  {| Satisfy := TargetSatisfy.mk names (TargetSatisfy.ReducedNames (Satisfy t));
     Request := Request t; Priority := Priority t;
     LegacyNames := LegacyNames t; LegacyProvider := LegacyProvider t |}.

Definition serializeTarget (s : Store) (filename : string) (tgt : Target)
    : Store * option error :=
  let tcopy :=
    if TargetRequest.implicitNames (Request tgt)
    then setRequestNames tgt [] else tgt in
  match yamlMarshal (toYAML tcopy) with
  | inl e => (s, Some e)
  | inr b =>
      let '(files, err) := fdbWriteBytes "desired" (desiredFiles s) filename b in
      (withDesiredFiles s files, err)
  end.

Definition deleteTarget (s : Store) (filename : string)
    : Store * option error :=
  let '(files, err) := fdbDelete "desired" (desiredFiles s) filename in
  (withDesiredFiles s files, err).

(** The inner loop of [findTargetWithAllNames]. *)
Fixpoint containsAllNames (have : list string) (names : list string) : bool :=
  match names with
  | [] => true
  | n :: rest =>
      if negb (containsName have n) then false else containsAllNames have rest
  end.

Fixpoint findTargetWithAllNames (ts : list (string * Target))
    (names : list string) : option Target :=
  match ts with
  | [] => None
  | (_, t) :: rest =>
      if containsAllNames (TargetSatisfy.Names (Satisfy t)) names
      then Some t else findTargetWithAllNames rest names
  end.

(** [uuid] stands for the bytes of [uuid.NewV4()]. *)
Definition makeUniqueTargetName (tgt : Target) (uuid : list Byte.byte)
    : string :=
  let nprefix :=
    match TargetSatisfy.Names (Satisfy tgt) with
    | n :: _ => n +:+ "-"
    | [] => EmptyString
    end in
  let str := ToLower (TrimRight1 (base32Encode uuid) "=") in
  nprefix +:+ str.

(** The first name that [validHostname] refuses. *)
Fixpoint firstInvalidHostname (names : list string) : option string :=
  match names with
  | [] => None
  | n :: rest =>
      if negb (validHostname n) then Some n else firstInvalidHostname rest
  end.

Definition AddTarget (s : Store) (tgt : Target) (uuid : list Byte.byte)
    : Store * option error :=
  if (length (TargetSatisfy.Names (Satisfy tgt)) =? 0)%nat then (s, None)
  else
    match firstInvalidHostname (TargetSatisfy.Names (Satisfy tgt)) with
    | Some n => (s, Some (errorString ("invalid hostname: " +:+ n)))
    | None =>
        match findTargetWithAllNames (targets s)
                (TargetSatisfy.Names (Satisfy tgt)) with
        | Some _ => (s, None)
        | None => serializeTarget s (makeUniqueTargetName tgt uuid) tgt
        end
    end.

(** The loop of [RemoveTargetHostname]: [done] are the entries already
    visited (as the loop left them), [todo] those still to come. *)
Fixpoint removeTargetHostnameLoop (hostname : string) (s : Store)
    (done todo : list (string * Target)) : Store * option error :=
  match todo with
  | [] => (withTargets s done, None)
  | (fn, tgt) :: rest =>
      if negb (containsName (TargetSatisfy.Names (Satisfy tgt)) hostname)
      then removeTargetHostnameLoop hostname s (done ++ [(fn, tgt)]) rest
      else
        let tgt :=
          setSatisfyNames tgt
            (removeStringFromList (TargetSatisfy.Names (Satisfy tgt)) hostname) in
        let tgt :=
          setRequestNames tgt
            (removeStringFromList (TargetRequest.Names (Request tgt)) hostname) in
        let '(s, err) :=
          if (length (TargetSatisfy.Names (Satisfy tgt)) =? 0)%nat
          then deleteTarget s fn
          else serializeTarget s fn tgt in
        match err with
        | Some e => (withTargets s (done ++ (fn, tgt) :: rest), Some e)
        | None =>
            removeTargetHostnameLoop hostname s (done ++ [(fn, tgt)]) rest
        end
  end.

Definition RemoveTargetHostname (s : Store) (hostname : string)
    : Store * option error :=
  removeTargetHostnameLoop hostname s [] (targets s).

(** *** Reconciling *)

Definition load (s : Store) : Store * option error :=
  match loadAccounts s with
  | (s, Some e) => (s, Some e)
  | (s, None) =>
  match loadKeys s with
  | (s, Some e) => (s, Some e)
  | (s, None) =>
  match loadCerts s with
  | (s, Some e) => (s, Some e)
  | (s, None) =>
  match loadTargets s with
  | (s, Some e) => (s, Some e)
  | (s, None) =>
  match disjoinTargets s with
  | (s, Some e) => (s, Some e)
  | (s, None) =>
  match linkTargets s with
  | (s, Some e) => (s, Some e)
  | (s, None) => (s, None)
  end end end end end end.

Fixpoint haveUncached (cs : list (string * Certificate)) : bool :=
  match cs with
  | [] => false
  | (_, c) :: rest => if negb (Cached c) then true else haveUncached rest
  end.

Definition haveUncachedCertificates (s : Store) : bool :=
  haveUncached (certs s).

(** The loop of [reconcile] over the targets [ts]; [merr] are the errors
    collected so far, [k] counts the searches. [None] is a panic of a
    request, which nothing recovers. *)
Fixpoint targetPass (k : nat) (s : Store) (ts : list (string * Target))
    (merr : list error) : option (Store * list error) :=
  match ts with
  | [] => Some (s, merr)
  | (_, t) :: rest =>
      let upToDate :=
        match
          findBestCertificateSatisfying ParseCertificate
            (rangeCerts k (certs s)).*2 t
        with
        | Some c => negb (certificateNeedsRenewing ParseCertificate now c)
        | None => false
        end in
      if upToDate then targetPass (S k) s rest merr
      else
        match requestCertificateForTarget s t with
        | None => None
        | Some (s, Some e) =>
            targetPass (S k) s rest (merr ++ [TargetSpecificError t e])
        | Some (s, None) => targetPass (S k) s rest merr
        end
  end.

(** [reconcile] from "now processing targets" on. *)
Definition reconcileTargets (s : Store) : option (Store * option error) :=
  match targetPass 0 s (targets s) [] with
  | None => None
  | Some (s, merr) =>
      if negb (length merr =? 0)%nat then Some (s, Some (MultiError merr))
      else Some (s, None)
  end.

Definition reconcile (s : Store) : option (Store * option error) :=
  if haveUncachedCertificates s then
    match downloadUncachedCertificates s with
    | (s, Some e) => Some (s, Some e)
    | (s, None) =>
        match load s with
        | (s, Some e) => Some (s, Some e)
        | (s, None) =>
            if haveUncachedCertificates s
            then Some (s, Some (errorString
                   "cannot obtain one or more uncached certificates"))
            else reconcileTargets s
        end
    end
  else reconcileTargets s.

End Storage.

(** ** The http-01 responder (package responder) *)

Record HTTPChallengeInfo := mkHTTPChallengeInfo {
  Filename : string;
  Body : string
}.

(** A [HookFunc], applied to a [*HTTPChallengeInfo]. *)
Definition HookFunc := HTTPChallengeInfo -> option error.

Record ChallengeConfig := mkChallengeConfig {
  WebPaths : list string;
  (** [None] is the nil slice *)
  HTTPPorts : option (list string);
  StartHookFunc : option HookFunc;
  StopHookFunc : option HookFunc
}.

Record Config := mkConfig {
  Type_ : string;
  AccountKey : string;
  Token : string;
  Hostname : string;
  challengeConfig : ChallengeConfig
}.

(** The responder. [requestDetectedChan] is the number of values waiting in
    the channel, whose capacity is one; a stop function is named by the
    address its server listens on. A [[]byte] is a string. *)
Record httpResponder := mkHTTPResponder {
  rcfg : Config;
  requestDetectedChan : nat;
  stopFuncs : list string;
  ka : string;
  validation : string;
  notifySupported : bool
}.

(** What the responder does to the world, in order. *)
Inductive Event :=
  | EvListen (addr : string) (ok : bool)
  | EvWriteFile (path : string) (noSymlinks : bool) (ok : bool)
  | EvStartHook (info : HTTPChallengeInfo)
  | EvHTTPGet (url : string)
  | EvRequestDetected
  | EvStopListener (addr : string)
  | EvRemoveFile (path : string)
  | EvStopHook (info : HTTPChallengeInfo).

(** What [http.Get] and the reading of the body come to. While the request
    was under way the responder's own handler ran [detected] times (it runs
    on the listeners' goroutines); the self-test sees the channel after
    these runs. *)
Inductive getOutcome :=
  | GetFails (e : error)
  | GetResponds (StatusCode : Z) (body : result string) (detected : nat).

(** [notify]: a send that does not block. *)
Definition notify (chan : nat) : nat :=
  if (chan <? 1)%nat then S chan else chan.

(** The loop [L] of [selfTest]: receive until the channel is empty. *)
Fixpoint drain (chan : nat) : nat :=
  match chan with
  | O => O
  | S n => drain n
  end.

Definition setChan (s : httpResponder) (chan : nat) : httpResponder :=
  {| rcfg := rcfg s; requestDetectedChan := chan; stopFuncs := stopFuncs s;
     ka := ka s; validation := validation s;
     notifySupported := notifySupported s |}.

Definition setNotifySupported (s : httpResponder) (b : bool) : httpResponder :=
  {| rcfg := rcfg s; requestDetectedChan := requestDetectedChan s;
     stopFuncs := stopFuncs s; ka := ka s; validation := validation s;
     notifySupported := b |}.

Definition setStopFuncs (s : httpResponder) (fs : list string)
    : httpResponder :=
  {| rcfg := rcfg s; requestDetectedChan := requestDetectedChan s;
     stopFuncs := fs; ka := ka s; validation := validation s;
     notifySupported := notifySupported s |}.

(** The channel [RequestDetectedChan] hands out. *)
Inductive chanRef := theRequestDetectedChan.

Definition RequestDetectedChan (s : httpResponder) : option chanRef :=
  if negb (notifySupported s) then None else Some theRequestDetectedChan.

(** [init]: the variable [StandardWebrootPath] keeps the value the program
    gave it, and gets the default when that is empty. *)
Definition init (StandardWebrootPath : string) : string :=
  if bool_decide (StandardWebrootPath = EmptyString)
  then "/var/run/acme/acme-challenge" else StandardWebrootPath.

(** The variable [StandardWebrootPath] in a program that does not set it. *)
Definition StandardWebrootPath : string := init EmptyString.

(** The loop of [getWebroots] over the configured paths. *)
Fixpoint addWebroots (webroots : gset string) (paths : list string)
    : gset string :=
  match paths with
  | [] => webroots
  | p :: rest =>
      addWebroots
        (if bool_decide (p ≠ EmptyString)
         then {[ TrimRight1 p "/" ]} ∪ webroots else webroots) rest
  end.

(** [getWebroots] where the variable [StandardWebrootPath] holds
    [standard]. *)
Definition getWebrootsWith (standard : string) (s : httpResponder)
    : gset string :=
  let webroots := addWebroots ∅ (WebPaths (challengeConfig (rcfg s))) in
  {[ standard ]} ∪ webroots.

Definition getWebroots (s : httpResponder) : gset string :=
  getWebrootsWith StandardWebrootPath s.

Section Responder.

(** The environment of the responder: [bytes.TrimSpace], the string of a
    [url.URL] with this scheme, host and path, [filepath.Join],
    [strconv.ParseUint(s, 10, 16)], [net.ResolveTCPAddr("tcp", s)] followed
    by [String]; whether [net.Listen] and the opening of a file succeed;
    [http.Get]; the two functions of package acmeutils. *)
Variable TrimSpace : string -> string.
Variable URLString : string -> string -> string -> string.
Variable filepathJoin : string -> string -> string.
Variable ParseUint16 : string -> option N.
Variable ResolveTCPAddr : string -> option string.
Variable netListen : string -> bool.
Variable openFile : string -> bool.
Variable httpGet : string -> getOutcome.
Variable KeyAuthorization : string -> string -> result string.
Variable ChallengeResponseJSON : string -> string -> string -> result string.

Definition newHTTP (rcfg : Config) : result httpResponder :=
  match KeyAuthorization (AccountKey rcfg) (Token rcfg) with
  | inl e => inl e
  | inr ka =>
      match ChallengeResponseJSON (AccountKey rcfg) (Token rcfg) "http-01" with
      | inl e => inl e
      | inr validation =>
          inr {| rcfg := rcfg; requestDetectedChan := 0; stopFuncs := [];
                 ka := ka; validation := validation;
                 notifySupported := true |}
      end
  end.

Definition selfTest (s : httpResponder)
    : httpResponder * list Event * option error :=
  if bool_decide (Hostname (rcfg s) = EmptyString) then (s, [], None)
  else
    let u := URLString "http" (Hostname (rcfg s))
               ("/.well-known/acme-challenge/" +:+ Token (rcfg s)) in
    match httpGet u with
    | GetFails e => (s, [EvHTTPGet u], Some e)
    | GetResponds StatusCode body detected =>
        let s := setChan s (Nat.iter detected notify (requestDetectedChan s)) in
        if negb (StatusCode =? 200)
        then (s, [EvHTTPGet u],
              Some (errorString "non-200 status code when doing self-test"))
        else
          match body with
          | inl e => (s, [EvHTTPGet u], Some e)
          | inr b =>
              let b := TrimSpace b in
              if negb (bool_decide (b = ka s))
              then (s, [EvHTTPGet u],
                    Some (errorString
                      "got 200 response when doing self-test, but with the wrong data"))
              else
                match requestDetectedChan s with
                | S n =>
                    (setChan s (drain n), [EvHTTPGet u; EvRequestDetected],
                     None)
                | O =>
                    let s := setNotifySupported s false in
                    (setChan s (drain (requestDetectedChan s)),
                     [EvHTTPGet u], None)
                end
          end
    end.

(** The loop of [parseListenAddrs]. *)
Fixpoint addListenAddrs (m : gset string) (addrs : list string) : gset string :=
  match addrs with
  | [] => m
  | s :: rest =>
      match ParseUint16 s with
      | Some n =>
          addListenAddrs
            ({[ "127.0.0.1:" +:+ pretty n ]} ∪ ({[ "[::1]:" +:+ pretty n ]} ∪ m))
            rest
      | None =>
          match ResolveTCPAddr s with
          | None => addListenAddrs m rest
          | Some ta => addListenAddrs ({[ ta ]} ∪ m) rest
          end
      end
  end.

Definition parseListenAddrs (addrs : option (list string))
    : option (gset string) :=
  match addrs with
  | None => None
  | Some addrs => Some (addListenAddrs ∅ addrs)
  end.

Definition startListener (s : httpResponder) (addr : string)
    : httpResponder * list Event * option error :=
  if negb (netListen addr)
  then (s, [EvListen addr false], Some (errorString "listen"))
  else (setStopFuncs s (stopFuncs s ++ [addr]), [EvListen addr true], None).

(** The loop of [startActual] over the addresses; the error of
    [startListener] is dropped. *)
Fixpoint startListeners (s : httpResponder) (addrs : list string)
    : httpResponder * list Event :=
  match addrs with
  | [] => (s, [])
  | k :: rest =>
      let '(s, evs, _) := startListener s k in
      let '(s, evs') := startListeners s rest in
      (s, evs ++ evs')
  end.

Definition webrootWriteChallenge (webroots : gset string) (token : string)
    (ka : string) : list Event :=
  (fun wr =>
     let fn := filepathJoin wr token in
     EvWriteFile fn (String.prefix "/var/run/" wr) (openFile fn))
  <$> elements webroots.

Definition webrootRemoveChallenge (webroots : gset string) (token : string)
    : list Event :=
  (fun wr => EvRemoveFile (filepathJoin wr token)) <$> elements webroots.

Definition startActual (s : httpResponder)
    : httpResponder * list Event * option error :=
  let addrs :=
    match parseListenAddrs (HTTPPorts (challengeConfig (rcfg s))) with
    | Some addrs => addrs
    | None =>
        {[ "[::1]:80"; "127.0.0.1:80"; "[::1]:402"; "127.0.0.1:402";
           "[::1]:4402"; "127.0.0.1:4402" ]}
    end in
  let '(s, evs) := startListeners s (elements addrs) in
  let evs := evs ++ webrootWriteChallenge (getWebroots s) (Token (rcfg s)) (ka s) in
  let info := {| Filename := Token (rcfg s); Body := ka s |} in
  let evs :=
    match StartHookFunc (challengeConfig (rcfg s)) with
    | Some _ => evs ++ [EvStartHook info]
    | None => evs
    end in
  (s, evs, None).

Definition Stop (s : httpResponder)
    : httpResponder * list Event * option error :=
  let evs := EvStopListener <$> stopFuncs s in
  let s := setStopFuncs s [] in
  let evs := evs ++ webrootRemoveChallenge (getWebroots s) (Token (rcfg s)) in
  let info := {| Filename := Token (rcfg s); Body := ka s |} in
  let evs :=
    match StopHookFunc (challengeConfig (rcfg s)) with
    | Some _ => evs ++ [EvStopHook info]
    | None => evs
    end in
  (s, evs, None).

Definition Start (s : httpResponder)
    : httpResponder * list Event * option error :=
  match startActual s with
  | (s, evs, Some err) => (s, evs, Some err)
  | (s, evs, None) =>
      match selfTest s with
      | (s, evs', Some err) =>
          let '(s, evs'', _) := Stop s in
          (s, evs ++ evs' ++ evs'', Some err)
      | (s, evs', None) => (s, evs ++ evs', None)
      end
  end.

End Responder.

(** ** Sample environment and data

    Concrete stand-ins for the environment, used where a statement is
    evaluated on an input. *)

(** A stand-in for [x509.ParseCertificate]: the blob [01 nb na name...] is a
    certificate valid from [nb] to [na] for the one DNS name [name]; any
    other blob does not parse. *)
Definition sampleParse (der : list Byte.byte) : option x509Certificate :=
  match der with
  | Byte.x01 :: nb :: na :: name =>
      Some {| DNSNames := [String.string_of_list_byte name];
              NotBefore := Z.of_N (Byte.to_N nb);
              NotAfter := Z.of_N (Byte.to_N na) |}
  | _ => None
  end.

Definition sampleDER (nb na : Byte.byte) (name : string) : list Byte.byte :=
  Byte.x01 :: nb :: na :: String.list_byte_of_string name.

(** [strings.ToLower] on ASCII text. *)
Definition lowerAscii (a : ascii) : ascii :=
  let n := nat_of_ascii a in
  if ((65 <=? n) && (n <=? 90))%nat then ascii_of_nat (n + 32) else a.

Fixpoint sampleToLower (s : string) : string :=
  match s with
  | EmptyString => EmptyString
  | String a rest => String (lowerAscii a) (sampleToLower rest)
  end.

(** A stand-in for [validHostname]: a non-empty string of lower-case
    letters, digits, hyphens and dots. *)
Definition hostnameChar (a : ascii) : bool :=
  let n := nat_of_ascii a in
  (((97 <=? n) && (n <=? 122)) || ((48 <=? n) && (n <=? 57))
   || (n =? 45) || (n =? 46))%nat.

Fixpoint allHostnameChars (s : string) : bool :=
  match s with
  | EmptyString => true
  | String a rest => hostnameChar a && allHostnameChars rest
  end.

Definition sampleValidHostname (s : string) : bool :=
  negb (bool_decide (s = EmptyString)) && allHostnameChars s.

Definition sampleKey : Key := {| KeyID := "k1" |}.

Definition sampleAccount : Account :=
  {| PrivateKey := "account key"; BaseURL := "https://acme.test/directory";
     Authorizations := Some [] |}.

(** A target as [validateTargetInner] leaves it, with explicit or implied
    request names. *)
Definition sampleTarget (satisfy request : list string) (implicit : bool)
    : Target :=
  {| Satisfy := TargetSatisfy.mk satisfy [];
     Request := TargetRequest.mk request implicit EmptyString
                  (Some sampleAccount);
     Priority := 0; LegacyNames := []; LegacyProvider := EmptyString |}.

(** A cached certificate with key, for one name, with a chain of
    [1 + intermediates] blobs. *)
Definition sampleCertificate (url : string) (nb na : Byte.byte)
    (name : string) (intermediates : nat) : Certificate :=
  {| URL := url;
     Certificates := sampleDER nb na name :: replicate intermediates [Byte.x00];
     Cached := true;
     CertificateKey := Some sampleKey |}.

Definition emptyStore : Store :=
  {| confFiles := ∅; desiredFiles := ∅; certs := []; accounts := [];
     keys := []; targets := []; defaultTarget := None;
     hostnameTargetMapping := ∅ |}.

(** The stand-ins for the rest of the store's environment: no I/O fault, the
    files listed by name, a YAML that is one line per field. *)
Definition sampleIoFault (path : string) : option error := None.

Definition sampleList (files : gmap string string) : result (list string) :=
  inr (map_to_list files).*1.

Definition sampleMarshal (d : TargetDoc) : result string :=
  inr ("satisfy.names=" +:+ Join (doc_satisfy_names d) ","
       +:+ ";request.names=" +:+ Join (doc_request_names d) ","
       +:+ ";request.provider=" +:+ doc_request_provider d
       +:+ ";priority=" +:+ formatInt (doc_priority d)
       +:+ ";names=" +:+ Join (doc_names d) ","
       +:+ ";provider=" +:+ doc_provider d).

(** Every file reads as the document without any field. *)
Definition sampleUnmarshal (b : string) : result TargetDoc :=
  inr {| doc_satisfy_names := []; doc_request_names := [];
         doc_request_provider := EmptyString; doc_priority := 0;
         doc_names := []; doc_provider := EmptyString |}.

Definition sampleCreateNewAccount (s : Store) (baseURL : string)
    : Store * result Account :=
  let a := {| PrivateKey := "new key"; BaseURL := baseURL;
              Authorizations := None |} in
  ({| confFiles := confFiles s; desiredFiles := desiredFiles s;
      certs := certs s; accounts := mapStore baseURL a (accounts s);
      keys := keys s; targets := targets s;
      defaultTarget := defaultTarget s;
      hostnameTargetMapping := hostnameTargetMapping s |}, inr a).

(** Targets ranked by priority alone. *)
Definition sampleTargetGt (a b : Target) : bool := Priority b <? Priority a.

Definition sampleBase32 (b : list Byte.byte) : string :=
  "MFRGGZDFMZTWQ2LKNNWG23TPOA======".

(** Three certificates for [a.test], all with key: two with one
    intermediate, expiring at 200 and at 100, and one with two
    intermediates, expiring at 50. *)
Definition laterCert : Certificate :=
  sampleCertificate "https://acme.test/cert/later" Byte.x00 Byte.xc8 "a.test" 1.
Definition earlierCert : Certificate :=
  sampleCertificate "https://acme.test/cert/earlier" Byte.x00 Byte.x64 "a.test" 1.
Definition longerCert : Certificate :=
  sampleCertificate "https://acme.test/cert/longer" Byte.x00 Byte.x32 "a.test" 2.
Definition renewedCert : Certificate :=
  sampleCertificate "https://acme.test/cert/renewed" Byte.x00 Byte.xc8 "a.test" 2.

Definition aTestTarget : Target := sampleTarget ["a.test"] ["a.test"] true.

(** A store with these certificates whose one target is for [a.test]. *)
Definition aTestStore (cs : list (string * Certificate)) : Store :=
  {| confFiles := ∅; desiredFiles := ∅; certs := cs; accounts := [];
     keys := []; targets := [("a", aTestTarget)]; defaultTarget := None;
     hostnameTargetMapping := {[ "a.test" := "a" ]} |}.

(** A certificate whose one DNS name is written in upper case. *)
Definition upperCaseCert : Certificate :=
  sampleCertificate "https://acme.test/cert/upper" Byte.x00 Byte.x64 "A.TEST" 1.

(** The reading of "cover" that folds case and a trailing dot on both sides
    before comparing. *)
Definition foldName (toLower : string -> string) (n : string) : string :=
  TrimSuffix1 (toLower n) ".".

Definition coversFolded (toLower : string -> string)
    (dnsNames wanted : list string) : Prop :=
  forall n, n ∈ wanted ->
    exists d, d ∈ dnsNames /\ foldName toLower d = foldName toLower n.

(** Two overlapping targets: [t1] wants [a] and [b] with priority 1, [t2]
    wants [b] and [c] with priority 0. *)
Definition overlapT1 : Target :=
  {| Satisfy := TargetSatisfy.mk ["a"; "b"] [];
     Request := TargetRequest.mk ["a"; "b"] true EmptyString
                  (Some sampleAccount);
     Priority := 1; LegacyNames := []; LegacyProvider := EmptyString |}.

Definition overlapT2 : Target :=
  {| Satisfy := TargetSatisfy.mk ["b"; "c"] [];
     Request := TargetRequest.mk ["b"; "c"] true EmptyString
                  (Some sampleAccount);
     Priority := 0; LegacyNames := []; LegacyProvider := EmptyString |}.

Definition overlapStore : Store :=
  withTargets emptyStore [("t2", overlapT2); ("t1", overlapT1)].

(** A target whose explicit request names repeat a name; its account holds
    no authorization. *)
Definition repeatedNameTarget : Target :=
  sampleTarget ["a.test"] ["a.test"; "a.test"] false.

(** The account holds an authorization for [n] that is valid at [now]. *)
Definition holdsValidAuthorization (now : time.Time) (a : Account)
    (n : string) : Prop :=
  Exists (fun ka => Name ka.2 = n /\ now < Expires ka.2)
    (mapEntries (Authorizations a)).

(** What [RemoveTargetHostname] makes of a target that it does not skip. *)
Definition stripHostname (h : string) (t : Target) : Target :=
  setRequestNames
    (setSatisfyNames t (removeStringFromList (TargetSatisfy.Names (Satisfy t)) h))
    (removeStringFromList (TargetRequest.Names (Request t)) h).

(** What [RemoveTargetHostname] makes of a target: one whose satisfy.names
    does not hold [h] is skipped. *)
Definition visitTarget (h : string) (t : Target) : Target :=
  if containsName (TargetSatisfy.Names (Satisfy t)) h
  then stripHostname h t else t.

(** The document [serializeTarget] marshals for a target. *)
Definition serializedDoc (t : Target) : TargetDoc :=
  toYAML (if TargetRequest.implicitNames (Request t)
          then setRequestNames t [] else t).

(** The files of [desired] after the loop of [RemoveTargetHostname] has
    dealt with one entry without error. *)
Definition fileAfter (yamlMarshal : TargetDoc -> result string) (h : string)
    (files : gmap string string) (kt : string * Target) : gmap string string :=
  if containsName (TargetSatisfy.Names (Satisfy kt.2)) h then
    if (length (TargetSatisfy.Names (Satisfy (stripHostname h kt.2))) =? 0)%nat
    then delete kt.1 files
    else
      match yamlMarshal (serializedDoc (stripHostname h kt.2)) with
      | inr b => <[kt.1 := b]> files
      | inl _ => files
      end
  else files.

(** A store with one target that must satisfy [a.test] and requests a
    certificate for [a.test] and [b.test]. *)
Definition requestOnlyStore : Store :=
  withTargets emptyStore
    [("t1", sampleTarget ["a.test"] ["a.test"; "b.test"] false)].

(** A store with three targets, for [a.test] and [b.test], for [b.test]
    alone, and for [c.test]. *)
Definition threeTargetStore : Store :=
  withTargets emptyStore
    [("ab", sampleTarget ["a.test"; "b.test"] ["a.test"; "b.test"] true);
     ("b", sampleTarget ["b.test"] ["b.test"] true);
     ("c", sampleTarget ["c.test"] ["c.test"] true)].

(** Whether the walk of [reconcile] skips target [t] when its search ranges
    over the certificates in the order [cs]: a best certificate exists and
    does not need renewing. *)
Definition upToDate (ParseCertificate : list Byte.byte -> option x509Certificate)
    (now : time.Time) (cs : list (string * Certificate)) (t : Target) : bool :=
  match findBestCertificateSatisfying ParseCertificate cs.*2 t with
  | Some c => negb (certificateNeedsRenewing ParseCertificate now c)
  | None => false
  end.

(** The calls of [requestCertificateForTarget] that a walk over [ts] makes
    from store [s], each with the target and with what it returned; [None]
    is a call that panicked, which is the last. *)
Fixpoint requestsMade
    (requestCertificateForTarget
       : Store -> Target -> option (Store * option error))
    (ParseCertificate : list Byte.byte -> option x509Certificate)
    (now : time.Time)
    (rangeCerts
       : nat -> list (string * Certificate) -> list (string * Certificate))
    (k : nat) (s : Store) (ts : list (string * Target))
    : list (Target * option (option error)) :=
  match ts with
  | [] => []
  | (_, t) :: rest =>
      if upToDate ParseCertificate now (rangeCerts k (certs s)) t
      then requestsMade requestCertificateForTarget ParseCertificate now
             rangeCerts (S k) s rest
      else
        match requestCertificateForTarget s t with
        | None => [(t, None)]
        | Some (s', r) =>
            (t, Some r)
            :: requestsMade requestCertificateForTarget ParseCertificate now
                 rangeCerts (S k) s' rest
        end
  end.

(** The calls that returned an error, each wrapped with its target. *)
Definition failures (run : list (Target * option (option error)))
    : list error :=
  omap (fun tr => match tr.2 with
                  | Some (Some e) => Some (TargetSpecificError tr.1 e)
                  | _ => None
                  end) run.

(** The events of the self-test: its request and its receiving from the
    channel. *)
Definition isSelfTestEvent (e : Event) : bool :=
  match e with
  | EvHTTPGet _ | EvRequestDetected => true
  | _ => false
  end.

(** The double quote, and the [%q] verb on plain text. *)
Definition dquote : string := String (ascii_of_nat 34) EmptyString.
Definition sampleQuote (s : string) : string := dquote +:+ s +:+ dquote.

Definition sampleValidURL (p : string) : bool := String.prefix "https://" p.

(** A stage of [load] that changes nothing and does not fail. *)
Definition sampleStage (s : Store) : Store * option error := (s, None).

(** A responder's environment in which no listener can bind, every file
    opens, and nothing answers HTTP requests. *)
Definition sampleTrimSpace (b : string) : string := b.
Definition sampleURLString (scheme host path : string) : string :=
  scheme +:+ "://" +:+ host +:+ path.
Definition sampleJoin (dir name : string) : string := dir +:+ "/" +:+ name.
Definition sampleParseUint16 (s : string) : option N := None.
Definition sampleResolveTCPAddr (s : string) : option string := None.
Definition sampleListen (addr : string) : bool := false.
Definition sampleOpenFile (path : string) : bool := true.
Definition sampleGet (url : string) : getOutcome :=
  GetFails (errorString "connection refused").
Definition sampleKeyAuthorization (key token : string) : result string :=
  inr (token +:+ "." +:+ key).
Definition sampleChallengeResponseJSON (key token type : string)
    : result string :=
  inr ("{" +:+ type +:+ ":" +:+ token +:+ "}").

(** The configuration of a responder without hostname. *)
Definition noHostnameConfig : Config :=
  {| Type_ := "http-01"; AccountKey := "thumbprint"; Token := "token";
     Hostname := EmptyString;
     challengeConfig :=
       {| WebPaths := []; HTTPPorts := None; StartHookFunc := None;
          StopHookFunc := None |} |}.

(** The text that follows the first entry: a separator and the entry's
    text, for every further entry. *)
Fixpoint separated (sep : string) (ss : list string) : string :=
  match ss with
  | [] => EmptyString
  | s :: rest => sep +:+ s +:+ separated sep rest
  end.

(** Two responders that differ at most in their stop functions. *)
Definition sameButStopFuncs (s s' : httpResponder) : Prop :=
  rcfg s' = rcfg s /\ ka s' = ka s
  /\ notifySupported s' = notifySupported s
  /\ requestDetectedChan s' = requestDetectedChan s.

(** A request that fails for the targets of priority 1 and succeeds, without
    storing anything, for the others. *)
Definition sampleRequest (s : Store) (t : Target)
    : option (Store * option error) :=
  if Priority t =? 1 then Some (s, Some (errorString "authorization failed"))
  else Some (s, None).

(** Ranges that find the entries of a map in the order of the list at the
    even turns and in the opposite order at the odd ones. *)
Definition sampleRange {A : Type} (k : nat) (l : list A) : list A :=
  if Nat.even k then l else reverse l.

(** The configuration of a responder for the hostname [a.test], and an HTTP
    client that gets status [status] and the key authorization as body
    while the responder's own handler ran [detected] times. *)
Definition hostnameConfig : Config :=
  {| Type_ := "http-01"; AccountKey := "thumbprint"; Token := "token";
     Hostname := "a.test";
     challengeConfig :=
       {| WebPaths := []; HTTPPorts := None; StartHookFunc := None;
          StopHookFunc := None |} |}.

Definition sampleGetResponds (status : Z) (detected : nat) (url : string)
    : getOutcome :=
  GetResponds status (inr "token.thumbprint") detected.

(** ** Further parts of the store *)

Definition withAccounts (s : Store) (as_ : list (string * Account)) : Store :=
  {| confFiles := confFiles s; desiredFiles := desiredFiles s;
     certs := certs s; accounts := as_; keys := keys s; targets := targets s;
     defaultTarget := defaultTarget s;
     hostnameTargetMapping := hostnameTargetMapping s |}.


(** [m[k]] on a map kept in range order. *)
Fixpoint mapLoad {V : Type} (k : string) (m : list (string * V)) : option V :=
  match m with
  | [] => None
  | (k', v) :: rest => if bool_decide (k' = k) then Some v else mapLoad k rest
  end.

Section Accounts.

(** [accountURLPart] is not in the files at hand. [createKey] stands for
    [rsa.GenerateKey] followed by [saveKeyUnderID] in the collection of the
    given path: the key and its ID, or the error of either; the key drawn
    may differ from one state of the store to the next. *)
Variable accountURLPart : string -> result string.
Variable createKey : Store -> string -> result (string * string).

(** The new account has the nil map of authorizations, where
    [validateAccount] gives a loaded account an empty one. *)
Definition createNewAccount (s : Store) (baseURL : string)
    : Store * result Account :=
  match accountURLPart baseURL with
  | inl e => (s, inl e)
  | inr u =>
      match createKey s ("accounts/" +:+ u) with
      | inl e => (s, inl e)
      | inr (pk, keyID) =>
          let a := {| PrivateKey := pk; BaseURL := baseURL;
                      Authorizations := None |} in
          (withAccounts s (mapStore (u +:+ "/" +:+ keyID) a (accounts s)),
           inr a)
      end
  end.

End Accounts.


Section DefaultProvider.

(** [yamlMarshalNil] is [yaml.Marshal] of the nil pointer. *)
Variable ioFault : string -> option error.
Variable yamlMarshal : TargetDoc -> result string.
Variable yamlMarshalNil : result string.
Variable ValidURL : string -> bool.



End DefaultProvider.

Section Links.

(** [determineCertificateID] is not in the files at hand. The order of a
    range over the map [s.certs] is drawn anew at every range:
    [rangeCerts k] is the order in which the search for the [k]-th hostname
    finds the entries. *)
Variable ioFault : string -> option error.
Variable determineCertificateID : string -> string.
Variable ParseCertificate : list Byte.byte -> option x509Certificate.
Variable rangeCerts
  : nat -> list (string * Certificate) -> list (string * Certificate).

(** Modelled from the spec: package fdb is not in the files at hand. "A link
    is a record {target: relative-path} stored as a small text file": the
    collection [live] is its links' targets by name, and "I/O errors
    propagate unchanged". *)
Definition fdbReadLink (dir : string) (links : gmap string string)
    (name : string) : result string :=
  match ioFault (dir +:+ "/" +:+ name) with
  | Some e => inl e
  | None =>
      match links !! name with
      | Some lnk => inr lnk
      | None => inl (errorString "file does not exist")
      end
  end.

(** Modelled from the spec: [Collection.WriteLink]. *)
Definition fdbWriteLink (dir : string) (links : gmap string string)
    (name : string) (lnk : string) : gmap string string * option error :=
  match ioFault (dir +:+ "/" +:+ name) with
  | Some e => (links, Some e)
  | None => (<[name := lnk]> links, None)
  end.

(** The [ID] method of a certificate. *)
Definition ID (c : Certificate) : string := determineCertificateID (URL c).

(** The loop of [linkTargets] over the entries of [s.hostnameTargetMapping]
    in range order; [live] are the links of the collection [live], [k]
    counts the searches. *)
Fixpoint linkTargetsLoop (k : nat) (s : Store) (live : gmap string string)
    (updatedHostnames : list string) (entries : list (string * Target))
    : gmap string string * result (list string) :=
  match entries with
  | [] => (live, inr updatedHostnames)
  | (name, tgt) :: rest =>
      match
        findBestCertificateSatisfying ParseCertificate
          (rangeCerts k (certs s)).*2 tgt
      with
      | None => linkTargetsLoop (S k) s live updatedHostnames rest
      | Some c =>
          let lt := "certs/" +:+ ID c in
          let relink :=
            match fdbReadLink "live" live name with
            | inl _ => true
            | inr lnk => negb (bool_decide (lnk = lt))
            end in
          if relink then
            match fdbWriteLink "live" live name lt with
            | (live, Some err) => (live, inl err)
            | (live, None) =>
                linkTargetsLoop (S k) s live (updatedHostnames ++ [name]) rest
            end
          else linkTargetsLoop (S k) s live updatedHostnames rest
      end
  end.

(** The entry of [s.hostnameTargetMapping] for a hostname: the map holds the
    target that [s.targets] holds under the key. *)
Definition mappingEntry (s : Store) (name : string) : option (string * Target) :=
  match hostnameTargetMapping s !! name with
  | Some key =>
      match mapLoad key (targets s) with
      | Some tgt => Some (name, tgt)
      | None => None
      end
  | None => None
  end.

(** [order] is the order in which the range over [s.hostnameTargetMapping]
    yields the hostnames. The result is the links of [live] afterwards and
    the error, or else the hostnames handed to [notify.Notify]. *)
Definition linkTargets (s : Store) (order : list string)
    (live : gmap string string) : gmap string string * result (list string) :=
  linkTargetsLoop 0 s live [] (omap (mappingEntry s) order).

End Links.

(** ** Requesting a certificate *)

Definition withCerts (s : Store) (cs : list (string * Certificate)) : Store :=
  {| confFiles := confFiles s; desiredFiles := desiredFiles s; certs := cs;
     accounts := accounts s; keys := keys s; targets := targets s;
     defaultTarget := defaultTarget s;
     hostnameTargetMapping := hostnameTargetMapping s |}.

Definition withAccount (t : Target) (a : option Account) : Target :=
  {| Satisfy := Satisfy t;
     Request := TargetRequest.mk (TargetRequest.Names (Request t))
                  (TargetRequest.implicitNames (Request t))
                  (TargetRequest.Provider (Request t)) a;
     Priority := Priority t;
     LegacyNames := LegacyNames t; LegacyProvider := LegacyProvider t |}.

(** The store and its targets hold accounts by pointer. Two values are the
    same account when key and URL agree, which is what the account's ID is
    made of; [currentAccount] is what the pointer points to, and
    [putAccount] is a store through the pointer, seen wherever the account
    is held. *)
Definition sameAccount (a b : Account) : bool :=
  bool_decide (PrivateKey a = PrivateKey b)
  && bool_decide (BaseURL a = BaseURL b).

Fixpoint lookupAccount (a : Account) (as_ : list (string * Account))
    : option Account :=
  match as_ with
  | [] => None
  | (_, b) :: rest => if sameAccount a b then Some b else lookupAccount a rest
  end.

Definition currentAccount (s : Store) (a : Account) : Account :=
  match lookupAccount a (accounts s) with
  | Some b => b
  | None => a
  end.

Definition refreshTarget (a : Account) (t : Target) : Target :=
  match TargetRequest.Account (Request t) with
  | Some b => if sameAccount a b then withAccount t (Some a) else t
  | None => t
  end.

Definition putAccount (a : Account) (s : Store) : Store :=
  {| confFiles := confFiles s; desiredFiles := desiredFiles s;
     certs := certs s;
     accounts :=
       (fun kb => if sameAccount a kb.2 then (kb.1, a) else kb)
       <$> accounts s;
     keys := keys s;
     targets := (fun kt => (kt.1, refreshTarget a kt.2)) <$> targets s;
     defaultTarget := refreshTarget a <$> defaultTarget s;
     hostnameTargetMapping := hostnameTargetMapping s |}.

(** What the store reads of an [acmeapi.Authorization]. *)
Module acmeapi.
Record Authorization := mk {
  URI : string;
  (** [Identifier.Value] *)
  Identifier : string;
  Expires : time.Time
}.
End acmeapi.

Section Request.

(** The environment of a request. [determineAccountID] is not in the files
    at hand. [AssistedUpsertRegistration], [Authorize], [LoadAuthorization]
    and [RequestCertificate] are the calls to the ACME server with the
    client of an account; [LoadAuthorization] fills the authorization it is
    given. [createCSR] makes a key, which it stores, and the request;
    [downloadCertificate] fetches and stores the chain of the certificate
    that the store holds under an ID. *)
Variable ioFault : string -> option error.
Variable now : time.Time.
Variable determineAccountID : string -> string -> result string.
Variable determineCertificateID : string -> string.
Variable AssistedUpsertRegistration : Account -> option error.
Variable Authorize : Store -> Account -> string -> result acmeapi.Authorization.
Variable LoadAuthorization
  : Account -> acmeapi.Authorization -> result acmeapi.Authorization.
Variable createCSR : Store -> Target -> Store * result string.
Variable RequestCertificate : Account -> string -> result string.
Variable downloadCertificate : Store -> string -> Store * option error.

(** The [ID] method of an account; [None] is the panic of [log.Panice]. *)
Definition accountID (a : Account) : option string :=
  match determineAccountID (BaseURL a) (PrivateKey a) with
  | inl _ => None
  | inr accountID => Some accountID
  end.

(** [None] is a panic: of [a.ID()], or of the store of the authorization
    into a nil map. The files written are not kept, only whether writing
    them fails. *)
Definition obtainAuthorization (s : Store) (name : string) (a : Account)
    : option (Store * Account * option error) :=
  match Authorize s a name with
  | inl err => Some (s, a, Some err)
  | inr az =>
      match LoadAuthorization a az with
      | inl _ => Some (s, a, None)
      | inr az =>
          match accountID a with
          | None => None
          | Some id =>
              let c := "accounts/" +:+ id +:+ "/authorizations/" +:+ name in
              match ioFault (c +:+ "/" +:+ "expiry") with
              | Some err => Some (s, a, Some err)
              | None =>
                  match ioFault (c +:+ "/" +:+ "url") with
                  | Some err => Some (s, a, Some err)
                  | None =>
                      let saz :=
                        {| Name := acmeapi.Identifier az;
                           AuthorizationURL := acmeapi.URI az;
                           Expires := acmeapi.Expires az |} in
                      match Authorizations a with
                      | None => None
                      | Some m =>
                          let a :=
                            {| PrivateKey := PrivateKey a;
                               BaseURL := BaseURL a;
                               Authorizations :=
                                 Some (mapStore (acmeapi.Identifier az) saz m)
                            |} in
                          Some (putAccount a s, a, None)
                      end
                  end
              end
          end
      end
  end.

(** The loop of [requestCertificateForTarget] over the names that need an
    authorization. *)
Fixpoint obtainAuthorizations (s : Store) (a : Account) (names : list string)
    : option (Store * Account * option error) :=
  match names with
  | [] => Some (s, a, None)
  | name :: rest =>
      match obtainAuthorization s name a with
      | None => None
      | Some (s, a, Some err) => Some (s, a, Some err)
      | Some (s, a, None) => obtainAuthorizations s a rest
      end
  end.

(** [None] is a panic: on the nil account of a target, or of
    [obtainAuthorization]. *)
Definition requestCertificateForTarget (s : Store) (t : Target)
    : option (Store * option error) :=
  match TargetRequest.Account (Request t) with
  | None => None
  | Some a =>
      let a := currentAccount s a in
      match AssistedUpsertRegistration a with
      | Some err => Some (s, Some err)
      | None =>
          match determineNecessaryAuthorizations now (withAccount t (Some a)) with
          | None => None
          | Some (_, Some err) => Some (s, Some err)
          | Some (authsNeeded, None) =>
              match obtainAuthorizations s a authsNeeded with
              | None => None
              | Some (s, _, Some err) => Some (s, Some err)
              | Some (s, a, None) =>
                  match createCSR s t with
                  | (s, inl err) => Some (s, Some err)
                  | (s, inr csr) =>
                      match RequestCertificate a csr with
                      | inl err => Some (s, Some err)
                      | inr uri =>
                          let crt :=
                            {| URL := uri; Certificates := [];
                               Cached := false; CertificateKey := None |} in
                          let certID := determineCertificateID (URL crt) in
                          match
                            ioFault (("certs/" +:+ certID) +:+ "/" +:+ "url")
                          with
                          | Some err => Some (s, Some err)
                          | None =>
                              let s :=
                                withCerts s (mapStore certID crt (certs s)) in
                              Some (downloadCertificate s certID)
                          end
                      end
                  end
              end
          end
      end
  end.

End Request.

(** ** The registry of responders (package responder) *)

Section Registry.

(** The interface [Responder]. *)
Variable Responder : Type.

(** The variable [responderTypes]. *)
Definition responderTypes := gmap string (Config -> result Responder).

Definition New (types : responderTypes) (rcfg : Config) : result Responder :=
  match types !! Type_ rcfg with
  | None => inl (errorString "challenge type not supported")
  | Some f => f rcfg
  end.

Definition RegisterResponder (types : responderTypes) (typeName : string)
    (createFunc : Config -> result Responder) : responderTypes :=
  <[typeName := createFunc]> types.

End Registry.

(** A fresh state directory with the target files [a.test] and [b.test]
    and no account, and an ACME server that grants everything: every
    authorization is given and loads, and every certificate is issued. *)
Definition freshStore : Store :=
  withDesiredFiles emptyStore
    {[ "a.test" := EmptyString; "b.test" := EmptyString ]}.

Definition sampleAccountURLPart (url : string) : result string :=
  inr "acme.test%2fdirectory".

Definition sampleCreateKey (s : Store) (collection : string)
    : result (string * string) :=
  inr ("new key", "k2").

Definition sampleDetermineAccountID (url key : string) : result string :=
  inr "acme.test%2fdirectory/k2".

Definition grantingAuthorize (s : Store) (a : Account) (name : string)
    : result acmeapi.Authorization :=
  inr {| acmeapi.URI := "https://acme.test/az/" +:+ name;
         acmeapi.Identifier := name; acmeapi.Expires := 1000 |}.

Definition grantingLoad (a : Account) (az : acmeapi.Authorization)
    : result acmeapi.Authorization := inr az.

Definition sampleCreateCSR (s : Store) (t : Target) : Store * result string :=
  (s, inr "csr").

Definition grantingRequestCertificate (a : Account) (csr : string)
    : result string :=
  inr ("https://acme.test/cert/" +:+ csr).

Definition sampleDownloadCertificate (s : Store) (certID : string)
    : Store * option error := (s, None).

(** ** Further notions used in the statements *)

(** The key of the first target of a walk whose satisfy.names hold [h]. *)
Fixpoint firstOwner (h : string) (ts : list (string * Target))
    : option string :=
  match ts with
  | [] => None
  | (k, t) :: rest =>
      if bool_decide (h ∈ TargetSatisfy.Names (Satisfy t)) then Some k
      else firstOwner h rest
  end.

(** No element of a list is strictly less than an element before it. *)
Definition sortedBy (less : Target -> Target -> bool)
    (l : list (string * Target)) : Prop :=
  StronglySorted (fun x y => less y.2 x.2 = false) l.

(** The provider that [getAccountByProviderString] looks up for the
    provider string [p]. *)
Definition effectiveProvider (DefaultDirectoryURL : string) (s : Store)
    (p : string) : string :=
  let p :=
    match defaultTarget s with
    | Some d =>
        if bool_decide (p = EmptyString)
        then TargetRequest.Provider (Request d) else p
    | None => p
    end in
  if bool_decide (p = EmptyString) then DefaultDirectoryURL else p.

(** The name as [normalizeNames] leaves it. *)
Definition normalized (ToLower : string -> string) (n : string) : string :=
  TrimSuffix1 (ToLower n) ".".

(** The link that [linkTargets] wants for a target whose search ranges over
    the certificates in the order [cs]: to the best one, if there is one. *)
Definition bestLink (determineCertificateID : string -> string)
    (ParseCertificate : list Byte.byte -> option x509Certificate)
    (cs : list (string * Certificate)) (tgt : Target) : option string :=
  match findBestCertificateSatisfying ParseCertificate cs.*2 tgt with
  | Some c => Some ("certs/" +:+ ID determineCertificateID c)
  | None => None
  end.


(** The addresses on which a listener was started, those whose listener was
    stopped, the files written and the files removed, in order. *)
Definition listenersStarted (evs : list Event) : list string :=
  omap (fun e => match e with EvListen a true => Some a | _ => None end) evs.

Definition listenersStopped (evs : list Event) : list string :=
  omap (fun e => match e with EvStopListener a => Some a | _ => None end) evs.

Definition filesWritten (evs : list Event) : list string :=
  omap (fun e => match e with EvWriteFile p _ _ => Some p | _ => None end) evs.

Definition filesRemoved (evs : list Event) : list string :=
  omap (fun e => match e with EvRemoveFile p => Some p | _ => None end) evs.

(** The registrations of a list, made in order. *)
Definition registerAll {Responder : Type}
    (types : responderTypes Responder)
    (regs : list (string * (Config -> result Responder)))
    : responderTypes Responder :=
  foldl (fun types r => RegisterResponder Responder types r.1 r.2) types regs.

(** What a loaded target has: names to satisfy, every one a valid hostname,
    names to request, and the account of its provider, a valid URL. *)
Definition wellFormedTarget (validHostname : string -> bool)
    (ValidURL : string -> bool) (DefaultDirectoryURL : string) (s : Store)
    (t : Target) : Prop :=
  TargetSatisfy.Names (Satisfy t) <> []
  /\ Forall (fun n => validHostname n = true) (TargetSatisfy.Names (Satisfy t))
  /\ TargetRequest.Names (Request t) <> []
  /\ exists a, TargetRequest.Account (Request t) = Some a
       /\ BaseURL a
          = effectiveProvider DefaultDirectoryURL s
              (TargetRequest.Provider (Request t))
       /\ ValidURL (BaseURL a) = true.

(** * Properties *)

(** ** Renewal policy *)

Lemma thirtyDays_value : thirtyDays = 2592000000000000.
Proof. reflexivity. Qed.

Lemma wrap64_small (z : Z) :
  - 9223372036854775808 <= z < 9223372036854775808 -> time.wrap64 z = z.
Proof.
  intros Hz. unfold time.wrap64.
  change (2 ^ 63) with 9223372036854775808.
  change (2 ^ 64) with 18446744073709551616.
  rewrite Z.mod_small; lia.
Qed.

(** For a validity period that is not negative, the renew span is the
    smaller of thirty days and a third of the period (rounded down), also
    when the period does not fit a [Duration]. *)
Lemma renewTime_span (notBefore notAfter : time.Time) :
  notBefore <= notAfter ->
  renewTime notBefore notAfter
  = notAfter - Z.min thirtyDays ((notAfter - notBefore) / 3).
Proof.
  intros Hle. unfold renewTime, time.Sub, time.Add.
  rewrite thirtyDays_value.
  unfold time.minDuration, time.maxDuration.
  change (2 ^ 63) with 9223372036854775808.
  assert (H0 : 0 <= notAfter - notBefore) by lia.
  set (d := notAfter - notBefore) in *.
  assert (Hdiv : 0 <= d / 3) by (apply Z.div_pos; lia).
  destruct (Z.ltb_spec d (- (9223372036854775808))) as [Hlo | Hlo]; [lia |].
  destruct (Z.ltb_spec (9223372036854775808 - 1) d) as [Hhi | Hhi].
  - assert (Hq : Z.quot (9223372036854775808 - 1) 3 = 3074457345618258602)
      by reflexivity.
    rewrite Hq.
    change (2592000000000000 <? 3074457345618258602) with true. cbv iota.
    assert (3074457345618258602 <= d / 3).
    { apply Z.div_le_lower_bound; lia. }
    rewrite Z.min_l by lia.
    rewrite wrap64_small; lia.
  - rewrite Z.quot_div_nonneg by lia.
    destruct (Z.ltb_spec 2592000000000000 (d / 3)) as [Hbig | Hsmall].
    + rewrite Z.min_l by lia. rewrite wrap64_small; lia.
    + rewrite Z.min_r by lia.
      rewrite wrap64_small; lia.
Qed.

Section RenewalFacts.

Variable ParseCertificate : list Byte.byte -> option x509Certificate.
Variable now : time.Time.

(** C3. For notBefore <= notAfter, [renewTime] is notAfter minus the smaller
    of thirty days and a third of the validity period; a certificate whose
    end-entity certificate parses with these times needs renewing exactly
    when now is at or after that moment; a 90-day certificate is renewed
    after 60 days, a ten-year one 30 days before it expires. *)
Theorem renewTime_and_certificateNeedsRenewing
    (notBefore notAfter : time.Time) :
  notBefore <= notAfter ->
  renewTime notBefore notAfter
    = notAfter - Z.min thirtyDays ((notAfter - notBefore) / 3)
  /\ (forall c der rest cc,
        Certificates c = der :: rest ->
        ParseCertificate der = Some cc ->
        NotBefore cc = notBefore -> NotAfter cc = notAfter ->
        (certificateNeedsRenewing ParseCertificate now c = true
         <-> notAfter - Z.min thirtyDays ((notAfter - notBefore) / 3) <= now))
  /\ renewTime notBefore (notBefore + days 90) = notBefore + days 60
  /\ renewTime notBefore (notBefore + days 3650)
     = notBefore + days 3650 - days 30.
Proof.
  intros Hle. split; [by apply renewTime_span |]. split; [| split].
  - intros c der rest cc Hc Hp Hnb Hna.
    unfold certificateNeedsRenewing. rewrite Hc, Hp, Hnb, Hna.
    rewrite renewTime_span by done.
    unfold time.Before. rewrite negb_true_iff, Z.ltb_ge. done.
  - rewrite renewTime_span by (unfold days, time.Hour, time.Second; lia).
    rewrite thirtyDays_value. unfold days, time.Hour, time.Second.
    replace (notBefore + 90 * 24 * (3600 * 1000000000) - notBefore)
      with (7776000000000000) by lia.
    change (7776000000000000 / 3) with 2592000000000000.
    rewrite Z.min_id. lia.
  - rewrite renewTime_span by (unfold days, time.Hour, time.Second; lia).
    rewrite thirtyDays_value. unfold days, time.Hour, time.Second.
    replace (notBefore + 3650 * 24 * (3600 * 1000000000) - notBefore)
      with (315360000000000000) by lia.
    change (315360000000000000 / 3) with 105120000000000000.
    rewrite Z.min_l by lia. lia.
Qed.

End RenewalFacts.

(** The statement at a certificate valid from instant 0 to instant 90, read
    at instant 61. *)
Lemma renewTime_and_certificateNeedsRenewing_witness :
  0 <= 90
  /\ renewTime 0 90 = 90 - Z.min thirtyDays ((90 - 0) / 3)
  /\ certificateNeedsRenewing sampleParse 61
       (sampleCertificate "https://acme.test/cert/1" Byte.x00 Byte.x5a
          "a.test" 1) = true.
Proof.
  assert (Hle : 0 <= 90) by lia.
  destruct (renewTime_and_certificateNeedsRenewing sampleParse 61 0 90 Hle)
    as (H1 & H2 & _).
  split; [exact Hle |]. split; [exact H1 |].
  eapply H2; [reflexivity | reflexivity | reflexivity | reflexivity |].
  vm_compute. discriminate.
Defined.

(** ** Target solver / matcher *)

Section MatcherFacts.

Variable ParseCertificate : list Byte.byte -> option x509Certificate.

Lemma coversNames_spec (names : gset string) (wanted : list string) :
  coversNames names wanted = true <-> forall n, n ∈ wanted -> n ∈ names.
Proof.
  induction wanted as [| w wanted IH]; simpl.
  - split; [intros _ n Hn; inversion Hn | done].
  - case_bool_decide as Hw.
    + rewrite IH. split.
      * intros H n Hn. apply elem_of_cons in Hn as [-> | Hn]; auto.
      * intros H n Hn. apply H. by right.
    + split; [discriminate |]. intros H. exfalso. apply Hw, H. by left.
Qed.

(** Chains of one length are never ranked: the guard answers first. *)
Lemma certBetterThan_equal_length (a b : Certificate) :
  length (Certificates a) = length (Certificates b) ->
  certBetterThan ParseCertificate a b = false.
Proof.
  intros Hlen. unfold certBetterThan.
  rewrite Hlen, Nat.leb_refl. reflexivity.
Qed.

(** A certificate is never better than one with a longer chain. *)
Lemma certBetterThan_shorter (a b : Certificate) :
  (length (Certificates a) < length (Certificates b))%nat ->
  certBetterThan ParseCertificate a b = false.
Proof.
  intros Hlen. unfold certBetterThan.
  destruct (Nat.leb_spec (length (Certificates a)) (length (Certificates b)));
    [reflexivity | lia].
Qed.

(** With a longer chain than a non-empty [b], and both end-entity
    certificates parsing, the later NotAfter decides. *)
Lemma certBetterThan_longer (a b : Certificate) da ra db rb ac bc :
  Certificates a = da :: ra -> Certificates b = db :: rb ->
  (length rb < length ra)%nat ->
  ParseCertificate da = Some ac -> ParseCertificate db = Some bc ->
  certBetterThan ParseCertificate a b = bool_decide (NotAfter bc < NotAfter ac).
Proof.
  intros Ha Hb Hlen Hpa Hpb. unfold certBetterThan.
  rewrite Ha, Hb. simpl length.
  destruct (Nat.leb_spec (S (length ra)) (S (length rb))); [lia |].
  simpl. rewrite Hpa, Hpb. unfold time.After.
  destruct (Z.ltb_spec (NotAfter bc) (NotAfter ac));
    [by rewrite bool_decide_eq_true_2 | by rewrite bool_decide_eq_false_2; [| lia]].
Qed.

(** C1, as amended. For two certificates with non-empty chains of different
    length whose end-entity certificates both parse, [certBetterThan a b]
    holds exactly when [a] has more intermediates than [b] and expires
    later: the one with fewer intermediates is never the better one, and
    more intermediates alone do not make a certificate better. *)
Theorem certBetterThan_unequal_chains (a b : Certificate) da ra db rb ac bc :
  Certificates a = da :: ra -> Certificates b = db :: rb ->
  ParseCertificate da = Some ac -> ParseCertificate db = Some bc ->
  length ra <> length rb ->
  (certBetterThan ParseCertificate a b = true
   <-> (length rb < length ra)%nat /\ NotAfter bc < NotAfter ac).
Proof.
  intros Ha Hb Hpa Hpb Hne.
  destruct (Nat.lt_ge_cases (length rb) (length ra)) as [Hlt | Hge].
  - rewrite (certBetterThan_longer a b da ra db rb ac bc) by done.
    rewrite bool_decide_eq_true. tauto.
  - rewrite certBetterThan_shorter by (rewrite Ha, Hb; simpl; lia).
    split; [discriminate | lia].
Qed.

(** C2, as amended. [doesCertSatisfy] holds exactly when the certificate has
    a key, its end-entity certificate parses, and every name of the target's
    satisfy.names is, as the same string, one of the DNS names. *)
Theorem doesCertSatisfy_exact_names (c : Certificate) (t : Target) :
  doesCertSatisfy ParseCertificate c t = true
  <-> is_Some (CertificateKey c)
      /\ exists der rest cc,
           Certificates c = der :: rest
           /\ ParseCertificate der = Some cc
           /\ forall n, n ∈ TargetSatisfy.Names (Satisfy t) -> n ∈ DNSNames cc.
Proof.
  unfold doesCertSatisfy.
  destruct (Certificates c) as [| der rest] eqn:Hc.
  { split; [discriminate |]. intros (_ & ? & ? & ? & ? & _). discriminate. }
  destruct (CertificateKey c) as [k |] eqn:Hk.
  2: { split; [discriminate |]. intros ([? ?] & _). discriminate. }
  destruct (ParseCertificate der) as [cc |] eqn:Hp.
  2: { split; [discriminate |].
       intros (_ & ? & ? & ? & [= <- <-] & Hp' & _). congruence. }
  rewrite coversNames_spec. split.
  - intros H. split; [by eexists |]. exists der, rest, cc.
    repeat split; try done. intros n Hn. specialize (H n Hn). set_solver.
  - intros (_ & der' & rest' & cc' & [= <- <-] & Hp' & H) n Hn.
    assert (cc' = cc) as -> by congruence.
    specialize (H n Hn). set_solver.
Qed.

End MatcherFacts.

(** The statement at the certificate with two intermediates that expires at
    50 and the one with one intermediate that expires at 100. *)
Lemma certBetterThan_unequal_chains_witness :
  (2 <> 1)%nat
  /\ (certBetterThan sampleParse longerCert earlierCert = true
      <-> (1 < 2)%nat /\ 100 < 50).
Proof.
  assert (Hne : (2 <> 1)%nat) by lia.
  split; [exact Hne |].
  exact (certBetterThan_unequal_chains sampleParse longerCert earlierCert
           _ _ _ _ _ _ eq_refl eq_refl eq_refl eq_refl Hne).
Defined.

(** C1, the counterexample. Both certificates satisfy the target and the
    first has more intermediates than the second, but it expires earlier and
    is not the better one. *)
Lemma certBetterThan_more_intermediates_not_better :
  doesCertSatisfy sampleParse longerCert aTestTarget = true
  /\ doesCertSatisfy sampleParse earlierCert aTestTarget = true
  /\ (NotAfter <$> (head (Certificates longerCert) ≫= sampleParse)) = Some 50
  /\ (NotAfter <$> (head (Certificates earlierCert) ≫= sampleParse)) = Some 100
  /\ length (Certificates longerCert) = 3%nat
  /\ length (Certificates earlierCert) = 2%nat
  /\ certBetterThan sampleParse longerCert earlierCert = false
  /\ certBetterThan sampleParse earlierCert longerCert = false.
Proof. repeat split; vm_compute; reflexivity. Qed.

(** Two certificates that satisfy the same target with chains of one length:
    the guard of [certBetterThan] answers before NotAfter is read, so neither
    is better than the other and the search keeps whichever it meets
    first. *)
Example certBetterThan_equal_chains_unranked :
  doesCertSatisfy sampleParse laterCert aTestTarget = true
  /\ doesCertSatisfy sampleParse earlierCert aTestTarget = true
  /\ length (Certificates laterCert) = length (Certificates earlierCert)
  /\ (NotAfter <$> (head (Certificates laterCert) ≫= sampleParse)) = Some 200
  /\ (NotAfter <$> (head (Certificates earlierCert) ≫= sampleParse)) = Some 100
  /\ certBetterThan sampleParse laterCert earlierCert = false
  /\ certBetterThan sampleParse earlierCert laterCert = false
  /\ findBestCertificateSatisfying sampleParse [earlierCert; laterCert]
       aTestTarget = Some earlierCert
  /\ findBestCertificateSatisfying sampleParse [laterCert; earlierCert]
       aTestTarget = Some laterCert.
Proof.
  repeat split; try rewrite certBetterThan_equal_length by reflexivity;
    vm_compute; reflexivity.
Qed.

(** C2, the counterexample. The certificate has a key, parses, and its DNS
    name [A.TEST] covers [a.test] once case is folded; [doesCertSatisfy]
    answers no. *)
Lemma doesCertSatisfy_is_case_sensitive :
  doesCertSatisfy sampleParse upperCaseCert aTestTarget = false
  /\ is_Some (CertificateKey upperCaseCert)
  /\ exists der rest cc,
       Certificates upperCaseCert = der :: rest
       /\ sampleParse der = Some cc
       /\ coversFolded sampleToLower (DNSNames cc)
            (TargetSatisfy.Names (Satisfy aTestTarget)).
Proof.
  split; [vm_compute; reflexivity |]. split; [by eexists |].
  eexists _, _, _. split; [reflexivity |]. split; [reflexivity |].
  intros n Hn. apply list_elem_of_singleton in Hn as ->.
  exists "A.TEST". split; [by left | vm_compute; reflexivity].
Qed.

(** ** Disjoining targets *)

Section DisjoinFacts.

Variable targetGt : Target -> Target -> bool.

Lemma insertSorted_perm less x l : insertSorted less x l ≡ₚ x :: l.
Proof.
  induction l as [| y l IH]; simpl; [done |].
  destruct (less y.2 x.2); [| done].
  rewrite IH. apply Permutation_swap.
Qed.

Lemma sortStable_perm less l : sortStable less l ≡ₚ l.
Proof.
  induction l as [| x l IH]; simpl; [done |].
  unfold sortStable in *. simpl. rewrite insertSorted_perm. by rewrite IH.
Qed.

(** The inner loop: what it does to the mapping. *)
Lemma claimNames_mapping key names : forall m red m' red' h,
  claimNames key m red names = (m', red') ->
  m' !! h = match m !! h with
            | Some v => Some v
            | None => if bool_decide (h ∈ names) then Some key else None
            end.
Proof.
  induction names as [| n names IH]; intros m red m' red' h Hrun; simpl in Hrun.
  - injection Hrun as <- <-. destruct (m !! h); [done |].
    rewrite bool_decide_eq_false_2; [done | set_solver].
  - destruct (m !! n) as [v |] eqn:Hn.
    + rewrite (IH _ _ _ _ h Hrun).
      destruct (m !! h) eqn:Hh; [done |].
      assert (h ≠ n) by congruence.
      repeat case_bool_decide; try done; set_solver.
    + rewrite (IH _ _ _ _ h Hrun).
      destruct (decide (h = n)) as [-> | Hne].
      * rewrite lookup_insert_eq, Hn.
        rewrite bool_decide_eq_true_2; [done | set_solver].
      * rewrite lookup_insert_ne by done.
        destruct (m !! h); [done |].
        repeat case_bool_decide; try done; set_solver.
Qed.

(** The inner loop: which names it appends to the reduced names. *)
Lemma claimNames_reduced key names : forall m red m' red' h,
  claimNames key m red names = (m', red') ->
  h ∈ red' <-> h ∈ red \/ (m !! h = None /\ h ∈ names).
Proof.
  induction names as [| n names IH]; intros m red m' red' h Hrun; simpl in Hrun.
  - injection Hrun as <- <-. set_solver.
  - destruct (m !! n) as [v |] eqn:Hn.
    + rewrite (IH _ _ _ _ h Hrun). split; [set_solver |].
      intros [? | [Hm Hin]]; [by left |].
      apply elem_of_cons in Hin as [-> | Hin]; [congruence | by right].
    + rewrite (IH _ _ _ _ h Hrun). rewrite elem_of_app, list_elem_of_singleton.
      destruct (decide (h = n)) as [-> | Hne].
      * rewrite lookup_insert_eq. split; [| by intros; left; right].
        intros _. right. split; [done | by left].
      * rewrite lookup_insert_ne by done. set_solver.
Qed.

(** The walk neither drops nor reorders the targets; only their reduced
    names change. *)
Lemma disjoinLoop_entries ts : forall m m' ts',
  disjoinLoop m ts = (m', ts') ->
  ts'.*1 = ts.*1
  /\ (fun kt => TargetSatisfy.Names (Satisfy kt.2)) <$> ts'
     = (fun kt => TargetSatisfy.Names (Satisfy kt.2)) <$> ts.
Proof.
  induction ts as [| [k t] ts IH]; intros m m' ts' Hrun; simpl in Hrun.
  - by injection Hrun as <- <-.
  - destruct (claimNames k m [] _) as [m1 red] eqn:Hc.
    destruct (disjoinLoop m1 ts) as [m2 rest'] eqn:Hl.
    injection Hrun as <- <-. destruct (IH _ _ _ Hl) as [IH1 IH2].
    rewrite !fmap_cons, IH1, IH2. done.
Qed.

(** A hostname that has an owner before the walk keeps it, and no target
    visited by the walk takes it among its reduced names. *)
Lemma disjoinLoop_taken ts : forall m m' ts' h v,
  disjoinLoop m ts = (m', ts') ->
  m !! h = Some v ->
  m' !! h = Some v
  /\ forall j k t, ts' !! j = Some (k, t) ->
       h ∉ TargetSatisfy.ReducedNames (Satisfy t).
Proof.
  induction ts as [| [k0 t0] ts IH]; intros m m' ts' h v Hrun Hm;
    simpl in Hrun.
  - injection Hrun as <- <-. split; [done |]. intros j k t Hj. done.
  - destruct (claimNames k0 m [] _) as [m1 red] eqn:Hc.
    destruct (disjoinLoop m1 ts) as [m2 rest'] eqn:Hl.
    injection Hrun as <- <-.
    assert (Hm1 : m1 !! h = Some v)
      by (rewrite (claimNames_mapping _ _ _ _ _ _ h Hc), Hm; done).
    destruct (IH _ _ _ _ _ Hl Hm1) as [IHm IHr].
    split; [done |]. intros [| j] k t Hj; simpl in Hj.
    + injection Hj as <- <-. simpl.
      rewrite (claimNames_reduced _ _ _ _ _ _ h Hc), Hm. set_solver.
    + by eapply IHr.
Qed.

(** A free hostname wanted by some target of the walk ends with exactly one
    target holding it among its reduced names, and the mapping names that
    target. *)
Lemma disjoinLoop_claims ts : forall m m' ts' h,
  disjoinLoop m ts = (m', ts') ->
  m !! h = None ->
  (exists k t, (k, t) ∈ ts /\ h ∈ TargetSatisfy.Names (Satisfy t)) ->
  exists i fn t',
    ts' !! i = Some (fn, t')
    /\ h ∈ TargetSatisfy.ReducedNames (Satisfy t')
    /\ m' !! h = Some fn
    /\ forall j fn2 t2, ts' !! j = Some (fn2, t2) ->
         h ∈ TargetSatisfy.ReducedNames (Satisfy t2) -> j = i.
Proof.
  induction ts as [| [k0 t0] ts IH]; intros m m' ts' h Hrun Hm (k & t & Hin & Hh).
  - inversion Hin.
  - simpl in Hrun.
    destruct (claimNames k0 m [] _) as [m1 red] eqn:Hc.
    destruct (disjoinLoop m1 ts) as [m2 rest'] eqn:Hl.
    injection Hrun as <- <-.
    pose proof (claimNames_mapping _ _ _ _ _ _ h Hc) as Hmap.
    pose proof (claimNames_reduced _ _ _ _ _ _ h Hc) as Hred.
    rewrite Hm in Hmap.
    destruct (decide (h ∈ TargetSatisfy.Names (Satisfy t0))) as [Hown | Hnot].
    + rewrite bool_decide_eq_true_2 in Hmap by done.
      destruct (disjoinLoop_taken _ _ _ _ _ _ Hl Hmap) as [Hm2 Hnone].
      exists 0%nat, k0, (setReducedNames t0 red). simpl.
      repeat split; try done.
      * apply Hred. by right.
      * intros [| j] fn2 t2 Hj Hin2; [done |]. simpl in Hj.
        by destruct (Hnone _ _ _ Hj).
    + rewrite bool_decide_eq_false_2 in Hmap by done.
      assert (Hrest : exists k t, (k, t) ∈ ts
                        /\ h ∈ TargetSatisfy.Names (Satisfy t)).
      { apply elem_of_cons in Hin as [[= -> ->] | Hin]; [done |].
        by exists k, t. }
      destruct (IH _ _ _ _ Hl Hmap Hrest) as (i & fn & t' & Hi & Hr & Hm2 & Huniq).
      exists (S i), fn, t'. simpl. repeat split; try done.
      intros [| j] fn2 t2 Hj Hin2; simpl in Hj.
      * injection Hj as <- <-. simpl in Hin2. apply Hred in Hin2. set_solver.
      * f_equal. by eapply Huniq.
Qed.

(** C4. After [disjoinTargets], a hostname that occurs in the satisfy.names
    of some loaded target is among the reduced names of exactly one target,
    and [hostnameTargetMapping] maps the hostname to that target; the
    targets themselves are the loaded ones. *)
Theorem disjoinTargets_one_owner (s : Store) (h : string) :
  (exists fn t, (fn, t) ∈ targets s /\ h ∈ TargetSatisfy.Names (Satisfy t)) ->
  let s' := (disjoinTargets targetGt s).1 in
  (targets s').*1 ≡ₚ (targets s).*1
  /\ exists i fn t',
       targets s' !! i = Some (fn, t')
       /\ h ∈ TargetSatisfy.ReducedNames (Satisfy t')
       /\ hostnameTargetMapping s' !! h = Some fn
       /\ forall j fn2 t2, targets s' !! j = Some (fn2, t2) ->
            h ∈ TargetSatisfy.ReducedNames (Satisfy t2) -> j = i.
Proof.
  intros (fn & t & Hin & Hh). unfold disjoinTargets.
  destruct (disjoinLoop ∅
              (sortStable (reverseTargetSorterLess targetGt) (targets s)))
    as [m' ts'] eqn:Hl.
  simpl. split.
  - destruct (disjoinLoop_entries _ _ _ _ Hl) as [-> _].
    by rewrite sortStable_perm.
  - eapply disjoinLoop_claims; [exact Hl | apply lookup_empty |].
    exists fn, t. split; [| done]. by rewrite sortStable_perm.
Qed.

End DisjoinFacts.

(** The statement at the two overlapping targets and the hostname [b], which
    both want. *)
Lemma disjoinTargets_one_owner_witness :
  let s' := (disjoinTargets sampleTargetGt overlapStore).1 in
  (targets s').*1 ≡ₚ (targets overlapStore).*1
  /\ exists i fn t',
       targets s' !! i = Some (fn, t')
       /\ "b" ∈ TargetSatisfy.ReducedNames (Satisfy t')
       /\ hostnameTargetMapping s' !! "b" = Some fn
       /\ forall j fn2 t2, targets s' !! j = Some (fn2, t2) ->
            "b" ∈ TargetSatisfy.ReducedNames (Satisfy t2) -> j = i.
Proof.
  apply (disjoinTargets_one_owner sampleTargetGt overlapStore "b").
  eexists "t2", _. split; [left |]. simpl. left.
Defined.

(** The two overlapping targets after the walk: [t1], of higher priority,
    keeps [a] and [b]; [t2] keeps [c]. *)
Example disjoinTargets_overlap :
  (fun kt => (kt.1, TargetSatisfy.ReducedNames (Satisfy kt.2)))
    <$> targets (disjoinTargets sampleTargetGt overlapStore).1
  = [("t1", ["a"; "b"]); ("t2", ["c"])].
Proof. vm_compute. reflexivity. Qed.

(** ** Authorizations needed *)

Lemma dropAuthorized_spec now auths : forall (needed : gset string) n,
  n ∈ dropAuthorized now needed auths
  <-> n ∈ needed
      /\ ~ Exists (fun ka => Name ka.2 = n /\ now < Expires ka.2) auths.
Proof.
  induction auths as [| [k auth] auths IH]; intros needed n; simpl.
  - rewrite Exists_nil. tauto.
  - rewrite IH, Exists_cons. unfold IsValid, time.Before. simpl.
    destruct (Z.ltb_spec now (Expires auth)) as [Hv | Hv].
    + rewrite elem_of_difference, elem_of_singleton.
      split.
      * intros [[Hn Hne] Hrest]. split; [done |].
        intros [[Heq _] | Hex]; [congruence | done].
      * intros [Hn Hno]. split; [split; [done |] |].
        -- intros ->. apply Hno. by left.
        -- intros Hex. apply Hno. by right.
    + split.
      * intros [Hn Hrest]. split; [done |]. intros [[_ Hlt] | Hex]; [lia | done].
      * intros [Hn Hno]. split; [done |]. intros Hex. apply Hno. by right.
Qed.

Lemma keepNeeded_filter (needed : gset string) names :
  keepNeeded needed names = filter (fun n => n ∈ needed) names.
Proof.
  induction names as [| n names IH]; simpl; [done |].
  rewrite filter_cons. case_bool_decide; case_decide; try done.
  by rewrite IH.
Qed.

Lemma filter_dropAuthorized now (a : Account) (needed : gset string)
    (names : list string) :
  (forall n, n ∈ names -> n ∈ needed) ->
  filter (fun n => n ∈ dropAuthorized now needed
                        (mapEntries (Authorizations a))) names
  = filter (fun n => ~ holdsValidAuthorization now a n) names.
Proof.
  induction names as [| n names IH]; intros Hsub; [done |].
  rewrite !filter_cons, IH by (intros; apply Hsub; by right).
  assert (Hn : n ∈ needed) by (apply Hsub; by left).
  pose proof (dropAuthorized_spec now (mapEntries (Authorizations a)) needed n)
    as Hspec.
  unfold holdsValidAuthorization.
  repeat case_decide; try done; exfalso; tauto.
Qed.

(** C8, as amended. For a target with an account,
    [determineNecessaryAuthorizations] returns request.names without the
    names for which the account holds an authorization that has not expired
    (now < expiry): the names left keep their order and are listed as often
    as request.names lists them. *)
Theorem determineNecessaryAuthorizations_filter (now : time.Time)
    (t : Target) (a : Account) :
  TargetRequest.Account (Request t) = Some a ->
  determineNecessaryAuthorizations now t
  = Some (filter (fun n => ~ holdsValidAuthorization now a n)
            (TargetRequest.Names (Request t)), None).
Proof.
  intros Ha. unfold determineNecessaryAuthorizations. rewrite Ha.
  do 2 f_equal. rewrite keepNeeded_filter.
  apply filter_dropAuthorized. intros n Hn. by apply elem_of_list_to_set.
Qed.

(** The statement at a target that asks for [a.test] and [b.test], at
    instant 10, when the account holds an authorization for [a.test] until
    20 and one for [b.test] that ran out at 5. *)
Lemma determineNecessaryAuthorizations_filter_witness :
  let a := {| PrivateKey := "account key";
              BaseURL := "https://acme.test/directory";
              Authorizations :=
                Some
                  [("a.test",
                    mkAuthorization "a.test" "https://acme.test/az/1" 20);
                   ("b.test",
                    mkAuthorization "b.test" "https://acme.test/az/2" 5)] |} in
  let t := {| Satisfy := TargetSatisfy.mk ["a.test"; "b.test"] [];
              Request := TargetRequest.mk ["a.test"; "b.test"] true
                           EmptyString (Some a);
              Priority := 0; LegacyNames := [];
              LegacyProvider := EmptyString |} in
  determineNecessaryAuthorizations 10 t = Some (["b.test"], None).
Proof.
  intros a t.
  rewrite (determineNecessaryAuthorizations_filter 10 t a eq_refl).
  vm_compute. reflexivity.
Defined.

(** C8, the counterexample. The request names list [a.test] twice and
    nothing is authorized: the result lists it twice. *)
Lemma determineNecessaryAuthorizations_repeats :
  TargetRequest.Names (Request repeatedNameTarget) = ["a.test"; "a.test"]
  /\ determineNecessaryAuthorizations 0 repeatedNameTarget
     = Some (["a.test"; "a.test"], None).
Proof. split; vm_compute; reflexivity. Qed.

(** ** Adding and removing targets *)

Lemma containsName_spec names n : containsName names n = true <-> n ∈ names.
Proof.
  induction names as [| x names IH]; simpl.
  - split; [discriminate | intros H; inversion H].
  - case_bool_decide as Hx.
    + subst. split; [intros _; by left | done].
    + rewrite IH. split; [by right |].
      intros H. apply elem_of_cons in H as [-> | H]; done.
Qed.

Lemma containsAllNames_spec have names :
  containsAllNames have names = true <-> forall n, n ∈ names -> n ∈ have.
Proof.
  induction names as [| x names IH]; simpl.
  - split; [intros _ n Hn; inversion Hn | done].
  - destruct (containsName have x) eqn:Hx; simpl.
    + apply containsName_spec in Hx. rewrite IH. split.
      * intros H n Hn. apply elem_of_cons in Hn as [-> | Hn]; auto.
      * intros H n Hn. apply H. by right.
    + split; [discriminate |]. intros H.
      assert (Hin : x ∈ have) by (apply H; by left).
      apply containsName_spec in Hin. congruence.
Qed.

Lemma findTargetWithAllNames_None ts names :
  findTargetWithAllNames ts names = None
  <-> forall fn t, (fn, t) ∈ ts ->
        ~ forall n, n ∈ names -> n ∈ TargetSatisfy.Names (Satisfy t).
Proof.
  induction ts as [| [k t0] ts IH]; simpl.
  - split; [intros _ fn t Hin; inversion Hin | done].
  - destruct (containsAllNames _ names) eqn:Hall.
    + rewrite containsAllNames_spec in Hall. split; [discriminate |].
      intros H. exfalso. apply (H k t0); [by left | done].
    + rewrite IH. split.
      * intros H fn t Hin. apply elem_of_cons in Hin as [[= -> ->] | Hin].
        -- intros Hcov. rewrite <- containsAllNames_spec in Hcov. congruence.
        -- by apply (H fn t).
      * intros H fn t Hin. apply (H fn t). by right.
Qed.

Lemma findTargetWithAllNames_Some ts names t :
  findTargetWithAllNames ts names = Some t ->
  exists fn, (fn, t) ∈ ts
    /\ forall n, n ∈ names -> n ∈ TargetSatisfy.Names (Satisfy t).
Proof.
  induction ts as [| [k t0] ts IH]; simpl; [discriminate |].
  destruct (containsAllNames _ names) eqn:Hall.
  - intros [= <-]. rewrite containsAllNames_spec in Hall.
    exists k. split; [by left | done].
  - intros H. destruct (IH H) as (fn & Hin & Hcov).
    exists fn. split; [by right | done].
Qed.

Lemma withDesiredFiles_same s : withDesiredFiles s (desiredFiles s) = s.
Proof. by destruct s. Qed.

Section AddTargetFacts.

Variable ioFault : string -> option error.
Variable yamlMarshal : TargetDoc -> result string.
Variable ToLower : string -> string.
Variable base32Encode : list Byte.byte -> string.
Variable validHostname : string -> bool.

Lemma firstInvalidHostname_None names :
  firstInvalidHostname validHostname names = None
  <-> forall n, n ∈ names -> validHostname n = true.
Proof.
  induction names as [| x names IH]; simpl.
  - split; [intros _ n Hn; inversion Hn | done].
  - destruct (validHostname x) eqn:Hx; simpl.
    + rewrite IH. split.
      * intros H n Hn. apply elem_of_cons in Hn as [-> | Hn]; auto.
      * intros H n Hn. apply H. by right.
    + split; [discriminate |]. intros H.
      assert (validHostname x = true) by (apply H; by left). congruence.
Qed.

(** C5, as amended. [AddTarget] returns nil and leaves the store alone when
    satisfy.names is empty; it returns an error, and leaves the store alone,
    when a name is not a valid hostname; it returns nil and leaves the store
    alone when some loaded target's satisfy.names holds every name; otherwise
    it marshals the target, without request.names when these are marked
    implicit, and writes that to the file named by the first name, a hyphen
    and the lower-cased base32 text of the UUID without its padding,
    returning what marshalling or writing returns. Whether a file of that
    name exists is not looked at. *)
Theorem AddTarget_cases (s : Store) (tgt : Target) (uuid : list Byte.byte) :
  let names := TargetSatisfy.Names (Satisfy tgt) in
  let run := AddTarget ioFault yamlMarshal ToLower base32Encode validHostname
               s tgt uuid in
  (names = [] -> run = (s, None))
  /\ (names <> [] -> (exists n, n ∈ names /\ validHostname n = false) ->
      exists msg, run = (s, Some (errorString msg)))
  /\ (names <> [] -> (forall n, n ∈ names -> validHostname n = true) ->
      (exists fn t, (fn, t) ∈ targets s
         /\ forall n, n ∈ names -> n ∈ TargetSatisfy.Names (Satisfy t)) ->
      run = (s, None))
  /\ (forall first rest, names = first :: rest ->
      (forall n, n ∈ names -> validHostname n = true) ->
      ~ (exists fn t, (fn, t) ∈ targets s
           /\ forall n, n ∈ names -> n ∈ TargetSatisfy.Names (Satisfy t)) ->
      let filename :=
        (first +:+ "-") +:+ ToLower (TrimRight1 (base32Encode uuid) "=") in
      let tcopy :=
        if TargetRequest.implicitNames (Request tgt)
        then setRequestNames tgt [] else tgt in
      (TargetRequest.implicitNames (Request tgt) = true ->
       doc_request_names (toYAML tcopy) = [])
      /\ match yamlMarshal (toYAML tcopy) with
         | inl e => run = (s, Some e)
         | inr b =>
             match ioFault ("desired/" +:+ filename) with
             | Some e => run = (s, Some e)
             | None =>
                 run = (withDesiredFiles s
                          (<[filename := b]> (desiredFiles s)), None)
             end
         end).
Proof.
  intros names run. subst run. unfold AddTarget. fold names.
  split; [| split; [| split]].
  - intros ->. reflexivity.
  - intros Hne (n & Hn & Hbad).
    destruct names as [| x xs] eqn:Hnames; [done |]. simpl length.
    change (S (length xs) =? 0)%nat with false. cbv iota.
    destruct (firstInvalidHostname validHostname (x :: xs)) as [bad |] eqn:Hf.
    + by eexists.
    + exfalso. rewrite firstInvalidHostname_None in Hf.
      specialize (Hf n Hn). congruence.
  - intros Hne Hvalid (fn & t & Hin & Hcov).
    destruct names as [| x xs] eqn:Hnames; [done |]. simpl length.
    change (S (length xs) =? 0)%nat with false. cbv iota.
    rewrite <- firstInvalidHostname_None in Hvalid. rewrite Hvalid.
    destruct (findTargetWithAllNames (targets s) (x :: xs)) eqn:Hfind; [done |].
    exfalso. rewrite findTargetWithAllNames_None in Hfind.
    by apply (Hfind fn t Hin).
  - intros first rest Hnames Hvalid Hnone.
    set (filename :=
           (first +:+ "-") +:+ ToLower (TrimRight1 (base32Encode uuid) "=")).
    set (tcopy := if TargetRequest.implicitNames (Request tgt)
                  then setRequestNames tgt [] else tgt).
    split.
    { intros Himp. subst tcopy. by rewrite Himp. }
    rewrite Hnames. simpl length.
    change (S (length rest) =? 0)%nat with false. cbv iota.
    rewrite Hnames in Hvalid, Hnone.
    rewrite <- firstInvalidHostname_None in Hvalid. rewrite Hvalid.
    destruct (findTargetWithAllNames (targets s) (first :: rest)) eqn:Hfind.
    { exfalso. apply Hnone.
      destruct (findTargetWithAllNames_Some _ _ _ Hfind) as (fn & Hin & Hcov).
      by exists fn, t. }
    unfold serializeTarget, makeUniqueTargetName. fold names. rewrite Hnames.
    fold filename. fold tcopy.
    destruct (yamlMarshal (toYAML tcopy)) as [e | b]; [done |].
    unfold fdbWriteBytes.
    destruct (ioFault ("desired" +:+ "/" +:+ filename)) as [e |] eqn:Hio.
    + change ("desired/" +:+ filename) with ("desired" +:+ "/" +:+ filename).
      rewrite Hio. by rewrite withDesiredFiles_same.
    + change ("desired/" +:+ filename) with ("desired" +:+ "/" +:+ filename).
      by rewrite Hio.
Qed.

End AddTargetFacts.

(** C5, the counterexample. With no name to satisfy, [AddTarget] returns nil,
    not an error. *)
Lemma AddTarget_without_names_returns_nil :
  TargetSatisfy.Names (Satisfy emptyTarget) = []
  /\ AddTarget sampleIoFault sampleMarshal sampleToLower sampleBase32
       sampleValidHostname emptyStore emptyTarget []
     = (emptyStore, None).
Proof. split; reflexivity. Qed.

(** A target for [a.test] with implied request names, added to the empty
    store: one file, named after the first name, without request names. *)
Example AddTarget_first_target :
  let run := AddTarget sampleIoFault sampleMarshal sampleToLower sampleBase32
               sampleValidHostname emptyStore aTestTarget [] in
  run.2 = None
  /\ map_to_list (desiredFiles run.1)
     = [("a.test-mfrggzdfmztwq2lknnwg23tpoa",
         "satisfy.names=a.test;request.names=;request.provider=;priority=0;names=;provider=")].
Proof. split; vm_compute; reflexivity. Qed.

Lemma removeStringFromList_filter ss h :
  removeStringFromList ss h = filter (fun x => x ≠ h) ss.
Proof.
  induction ss as [| x ss IH]; simpl; [done |].
  rewrite filter_cons, IH. case_bool_decide; case_decide; done.
Qed.

Section RemoveTargetHostnameFacts.

Variable ioFault : string -> option error.
Variable yamlMarshal : TargetDoc -> result string.

Lemma fileAfter_eq h files fn tgt :
  fileAfter yamlMarshal h files (fn, tgt)
  = if containsName (TargetSatisfy.Names (Satisfy tgt)) h then
      if (length (TargetSatisfy.Names (Satisfy (stripHostname h tgt)))
          =? 0)%nat
      then delete fn files
      else match yamlMarshal (serializedDoc (stripHostname h tgt)) with
           | inr b => <[fn := b]> files
           | inl _ => files
           end
    else files.
Proof. reflexivity. Qed.

(** One turn of the loop. *)
Lemma removeTargetHostnameLoop_cons h s done fn tgt todo :
  removeTargetHostnameLoop ioFault yamlMarshal h s done ((fn, tgt) :: todo)
  = if negb (containsName (TargetSatisfy.Names (Satisfy tgt)) h)
    then removeTargetHostnameLoop ioFault yamlMarshal h s
           (done ++ [(fn, tgt)]) todo
    else
      match
        (if (length (TargetSatisfy.Names (Satisfy (stripHostname h tgt)))
             =? 0)%nat
         then deleteTarget ioFault s fn
         else serializeTarget ioFault yamlMarshal s fn (stripHostname h tgt))
      with
      | (s, Some e) =>
          (withTargets s (done ++ (fn, stripHostname h tgt) :: todo), Some e)
      | (s, None) =>
          removeTargetHostnameLoop ioFault yamlMarshal h s
            (done ++ [(fn, stripHostname h tgt)]) todo
      end.
Proof. reflexivity. Qed.

(** A run of the loop that ends without error has visited every entry, has
    left the files as [fileAfter] says, and has marshalled every target it
    rewrote. *)
Lemma removeTargetHostnameLoop_ok h : forall todo s done s',
  removeTargetHostnameLoop ioFault yamlMarshal h s done todo = (s', None) ->
  targets s' = done ++ ((fun kt => (kt.1, visitTarget h kt.2)) <$> todo)
  /\ desiredFiles s' = foldl (fileAfter yamlMarshal h) (desiredFiles s) todo
  /\ Forall (fun kt =>
       containsName (TargetSatisfy.Names (Satisfy kt.2)) h = true ->
       TargetSatisfy.Names (Satisfy (stripHostname h kt.2)) <> [] ->
       exists b, yamlMarshal (serializedDoc (stripHostname h kt.2)) = inr b)
     todo.
Proof.
  induction todo as [| [fn tgt] todo IH]; intros s done s' Hrun.
  - simpl in Hrun. injection Hrun as <-. simpl. by rewrite app_nil_r.
  - rewrite removeTargetHostnameLoop_cons in Hrun.
    rewrite fmap_cons. cbn [foldl fst snd].
    rewrite fileAfter_eq. unfold visitTarget.
    destruct (containsName (TargetSatisfy.Names (Satisfy tgt)) h) eqn:Hc;
      cbn [negb] in Hrun.
    + destruct (length (TargetSatisfy.Names (Satisfy (stripHostname h tgt)))
                =? 0)%nat eqn:Hlen.
      * unfold deleteTarget, fdbDelete in Hrun.
        destruct (ioFault _) as [e |]; [discriminate |].
        destruct (IH _ _ _ Hrun) as (Ht & Hf & Hm).
        split; [| split].
        -- by rewrite Ht, <- app_assoc.
        -- by rewrite Hf.
        -- constructor; [| done]. cbn [snd]. intros _ Hne.
           apply Nat.eqb_eq in Hlen.
           by destruct (TargetSatisfy.Names (Satisfy (stripHostname h tgt))).
      * unfold serializeTarget, fdbWriteBytes in Hrun.
        fold (serializedDoc (stripHostname h tgt)) in Hrun.
        destruct (yamlMarshal (serializedDoc (stripHostname h tgt)))
          as [e | b] eqn:Hy; [discriminate |].
        destruct (ioFault _) as [e |]; [discriminate |].
        destruct (IH _ _ _ Hrun) as (Ht & Hf & Hm).
        split; [| split].
        -- by rewrite Ht, <- app_assoc.
        -- by rewrite Hf.
        -- constructor; [| done]. cbn [snd]. intros _ _. by exists b.
    + destruct (IH _ _ _ Hrun) as (Ht & Hf & Hm).
      split; [| split].
      * by rewrite Ht, <- app_assoc.
      * by rewrite Hf.
      * constructor; [| done]. cbn [snd]. intros Hc'. congruence.
Qed.

(** Without I/O fault, and when every document marshals, the loop ends
    without error. *)
Lemma removeTargetHostnameLoop_returns h :
  (forall path, ioFault path = None) ->
  (forall d, exists b, yamlMarshal d = inr b) ->
  forall todo s done, exists s',
    removeTargetHostnameLoop ioFault yamlMarshal h s done todo = (s', None).
Proof.
  intros Hio Hyaml. induction todo as [| [fn tgt] todo IH]; intros s done.
  - by eexists.
  - rewrite removeTargetHostnameLoop_cons.
    destruct (containsName (TargetSatisfy.Names (Satisfy tgt)) h);
      cbn [negb]; [| done].
    destruct (length _ =? 0)%nat.
    + unfold deleteTarget, fdbDelete. rewrite Hio. apply IH.
    + unfold serializeTarget, fdbWriteBytes.
      match goal with |- context [yamlMarshal ?d] =>
        destruct (Hyaml d) as [b ->] end.
      rewrite Hio. apply IH.
Qed.

(** A run of the loop that ends with an error has ended at the first entry
    whose file could not be deleted or written: the entries before it were
    dealt with, the entry itself is stripped in memory only, and the entries
    after it were not visited. *)
Lemma removeTargetHostnameLoop_fails h : forall todo s done s' e,
  removeTargetHostnameLoop ioFault yamlMarshal h s done todo = (s', Some e) ->
  exists pre fn t rest,
    todo = pre ++ (fn, t) :: rest
    /\ containsName (TargetSatisfy.Names (Satisfy t)) h = true
    /\ targets s'
       = done ++ ((fun kt => (kt.1, visitTarget h kt.2)) <$> pre)
              ++ (fn, stripHostname h t) :: rest
    /\ desiredFiles s' = foldl (fileAfter yamlMarshal h) (desiredFiles s) pre
    /\ (if (length (TargetSatisfy.Names (Satisfy (stripHostname h t))) =? 0)%nat
        then ioFault ("desired" +:+ "/" +:+ fn) = Some e
        else yamlMarshal (serializedDoc (stripHostname h t)) = inl e
             \/ ((exists b, yamlMarshal (serializedDoc (stripHostname h t))
                            = inr b)
                 /\ ioFault ("desired" +:+ "/" +:+ fn) = Some e)).
Proof.
  induction todo as [| [fn0 tgt0] todo IH]; intros s done s' e Hrun;
    [discriminate |].
  rewrite removeTargetHostnameLoop_cons in Hrun.
  destruct (containsName (TargetSatisfy.Names (Satisfy tgt0)) h) eqn:Hc;
    cbn [negb] in Hrun.
  - destruct (length (TargetSatisfy.Names (Satisfy (stripHostname h tgt0)))
              =? 0)%nat eqn:Hlen.
    + unfold deleteTarget, fdbDelete in Hrun.
      destruct (ioFault ("desired" +:+ "/" +:+ fn0)) as [e0 |] eqn:Hio.
      * injection Hrun as <- <-. exists [], fn0, tgt0, todo.
        rewrite Hlen. by repeat split.
      * destruct (IH _ _ _ _ Hrun) as (pre & fn & t & rest & -> & Hct & Ht
                                       & Hf & Hfail).
        exists ((fn0, tgt0) :: pre), fn, t, rest.
        split; [done |]. split; [done |]. split; [| split; [| done]].
        -- rewrite Ht, fmap_cons. cbn [fst snd]. unfold visitTarget at 2.
           rewrite Hc. by rewrite <- !app_assoc.
        -- rewrite Hf. cbn [foldl]. rewrite fileAfter_eq, Hc, Hlen. done.
    + unfold serializeTarget, fdbWriteBytes in Hrun.
      fold (serializedDoc (stripHostname h tgt0)) in Hrun.
      destruct (yamlMarshal (serializedDoc (stripHostname h tgt0)))
        as [e0 | b] eqn:Hy.
      * injection Hrun as <- <-. exists [], fn0, tgt0, todo.
        rewrite Hlen. repeat split; try done. by left.
      * destruct (ioFault ("desired" +:+ "/" +:+ fn0)) as [e0 |] eqn:Hio.
        -- injection Hrun as <- <-. exists [], fn0, tgt0, todo.
           rewrite Hlen. repeat split; try done. right. split; [| done].
           by exists b.
        -- destruct (IH _ _ _ _ Hrun) as (pre & fn & t & rest & -> & Hct & Ht
                                          & Hf & Hfail).
           exists ((fn0, tgt0) :: pre), fn, t, rest.
           split; [done |]. split; [done |]. split; [| split; [| done]].
           ++ rewrite Ht, fmap_cons. cbn [fst snd]. unfold visitTarget at 2.
              rewrite Hc. by rewrite <- !app_assoc.
           ++ rewrite Hf. cbn [foldl]. rewrite fileAfter_eq, Hc, Hlen, Hy.
              done.
  - destruct (IH _ _ _ _ Hrun) as (pre & fn & t & rest & -> & Hct & Ht
                                   & Hf & Hfail).
    exists ((fn0, tgt0) :: pre), fn, t, rest.
    split; [done |]. split; [done |]. split; [| split; [| done]].
    + rewrite Ht, fmap_cons. cbn [fst snd]. unfold visitTarget at 2.
      rewrite Hc. by rewrite <- !app_assoc.
    + rewrite Hf. cbn [foldl]. by rewrite fileAfter_eq, Hc.
Qed.

Lemma foldl_fileAfter_other h todo : forall files fn,
  fn ∉ todo.*1 ->
  foldl (fileAfter yamlMarshal h) files todo !! fn = files !! fn.
Proof.
  induction todo as [| [k t] todo IH]; intros files fn Hfn; simpl; [done |].
  rewrite fmap_cons, not_elem_of_cons in Hfn. destruct Hfn as [Hne Hfn].
  simpl in Hne. rewrite IH by done. unfold fileAfter. simpl.
  destruct (containsName _ h); [| done].
  destruct (length _ =? 0)%nat; [by rewrite lookup_delete_ne |].
  destruct (yamlMarshal _); [done | by rewrite lookup_insert_ne].
Qed.

Lemma foldl_fileAfter_at h todo : forall files fn t,
  NoDup todo.*1 -> (fn, t) ∈ todo ->
  foldl (fileAfter yamlMarshal h) files todo !! fn
  = fileAfter yamlMarshal h files (fn, t) !! fn.
Proof.
  induction todo as [| [k t0] todo IH]; intros files fn t Hnd Hin; simpl.
  - inversion Hin.
  - rewrite fmap_cons in Hnd. apply NoDup_cons in Hnd as [Hk Hnd]. simpl in Hk.
    apply elem_of_cons in Hin as [[= -> ->] | Hin].
    + by rewrite foldl_fileAfter_other.
    + assert (Hne : k ≠ fn).
      { intros ->. apply Hk. apply list_elem_of_fmap. by exists (fn, t). }
      rewrite (IH _ _ _ Hnd Hin). unfold fileAfter. simpl.
      destruct (containsName (TargetSatisfy.Names (Satisfy t)) h).
      * destruct (length _ =? 0)%nat; [by rewrite !lookup_delete_eq |].
        destruct (yamlMarshal (serializedDoc (stripHostname h t)));
          [| by rewrite !lookup_insert_eq].
        destruct (containsName _ h); [| done].
        destruct (length _ =? 0)%nat; [by rewrite lookup_delete_ne |].
        destruct (yamlMarshal _); [done | by rewrite lookup_insert_ne].
      * destruct (containsName _ h); [| done].
        destruct (length _ =? 0)%nat; [by rewrite lookup_delete_ne |].
        destruct (yamlMarshal _); [done | by rewrite lookup_insert_ne].
Qed.

(** C6, as amended. [RemoveTargetHostname] skips every target whose
    satisfy.names does not hold the hostname, whatever its request.names;
    from every other target it removes the hostname from satisfy.names and
    from request.names, and then deletes the target's file when satisfy.names
    has become empty and rewrites the file otherwise. This is what a call
    that returns nil has done to every loaded target; the call returns nil
    when no file operation fails and every document marshals. A call that
    returns an error has ended at the first target whose file could not be
    deleted or written (or whose document did not marshal), with the error
    of that operation: the targets before it are as after a call that
    returns nil, the target itself has lost the hostname in memory while
    its file is as it was, and the targets after it and their files are
    untouched. *)
Theorem RemoveTargetHostname_effect (s : Store) (h : string) :
  NoDup (targets s).*1 ->
  ((forall path, ioFault path = None) ->
   (forall d, exists b, yamlMarshal d = inr b) ->
   exists s', RemoveTargetHostname ioFault yamlMarshal s h = (s', None))
  /\ (forall s', RemoveTargetHostname ioFault yamlMarshal s h = (s', None) ->
     length (targets s') = length (targets s)
     /\ forall i fn t, targets s !! i = Some (fn, t) ->
        if containsName (TargetSatisfy.Names (Satisfy t)) h then
          exists t', targets s' !! i = Some (fn, t')
            /\ TargetSatisfy.Names (Satisfy t')
               = filter (fun x => x ≠ h) (TargetSatisfy.Names (Satisfy t))
            /\ TargetRequest.Names (Request t')
               = filter (fun x => x ≠ h) (TargetRequest.Names (Request t))
            /\ match TargetSatisfy.Names (Satisfy t') with
               | [] => desiredFiles s' !! fn = None
               | _ :: _ =>
                   exists b, yamlMarshal (serializedDoc t') = inr b
                     /\ desiredFiles s' !! fn = Some b
               end
        else
          targets s' !! i = Some (fn, t)
          /\ desiredFiles s' !! fn = desiredFiles s !! fn)
  /\ forall s' e, RemoveTargetHostname ioFault yamlMarshal s h = (s', Some e) ->
     exists i fn t,
       targets s !! i = Some (fn, t)
       /\ containsName (TargetSatisfy.Names (Satisfy t)) h = true
       /\ (if (length (TargetSatisfy.Names (Satisfy (stripHostname h t)))
               =? 0)%nat
           then ioFault ("desired" +:+ "/" +:+ fn) = Some e
           else yamlMarshal (serializedDoc (stripHostname h t)) = inl e
                \/ ((exists b, yamlMarshal (serializedDoc (stripHostname h t))
                               = inr b)
                    /\ ioFault ("desired" +:+ "/" +:+ fn) = Some e))
       /\ targets s' !! i = Some (fn, stripHostname h t)
       /\ desiredFiles s' !! fn = desiredFiles s !! fn
       /\ (forall j fn' t', (j < i)%nat -> targets s !! j = Some (fn', t') ->
           targets s' !! j = Some (fn', visitTarget h t')
           /\ desiredFiles s' !! fn'
              = fileAfter yamlMarshal h (desiredFiles s) (fn', t') !! fn')
       /\ (forall j fn' t', (i < j)%nat -> targets s !! j = Some (fn', t') ->
           targets s' !! j = Some (fn', t')
           /\ desiredFiles s' !! fn' = desiredFiles s !! fn').
Proof.
  intros Hnd. split.
  { intros Hio Hyaml. apply removeTargetHostnameLoop_returns; done. }
  split; cycle 1.
  { intros s' e Hrun. unfold RemoveTargetHostname in Hrun.
    destruct (removeTargetHostnameLoop_fails _ _ _ _ _ _ Hrun)
      as (pre & fn & t & rest & Hsplit & Hc & Ht & Hf & Hfail).
    cbn [app] in Ht.
    rewrite Hsplit, fmap_app, fmap_cons in Hnd. cbn [fst] in Hnd.
    apply NoDup_app in Hnd as (Hnd1 & Hnd2 & Hnd3).
    apply NoDup_cons in Hnd3 as [Hfn Hnd3].
    exists (length pre), fn, t.
    split; [by rewrite Hsplit, list_lookup_middle |].
    split; [done |]. split; [done |].
    split.
    { rewrite Ht.
      rewrite (list_lookup_middle _ _ _ (length pre)); [done |].
      by rewrite length_fmap. }
    split.
    { rewrite Hf. apply foldl_fileAfter_other. intros Hin.
      apply (Hnd2 _ Hin). by left. }
    split.
    - intros j fn' t' Hj Hlook.
      rewrite Hsplit, lookup_app_l in Hlook by done.
      assert (Hin : (fn', t') ∈ pre) by (eapply list_elem_of_lookup_2; done).
      split.
      + rewrite Ht, lookup_app_l by (by rewrite length_fmap).
        by rewrite list_lookup_fmap, Hlook.
      + rewrite Hf. by apply foldl_fileAfter_at.
    - intros j fn' t' Hj Hlook.
      rewrite Hsplit, lookup_app_r in Hlook by lia.
      destruct (j - length pre)%nat as [| m] eqn:Hm; [lia |].
      cbn in Hlook.
      assert (Hin : fn' ∈ rest.*1).
      { apply list_elem_of_fmap. exists (fn', t'). split; [done |].
        eapply list_elem_of_lookup_2; done. }
      split.
      + rewrite Ht, lookup_app_r by (rewrite length_fmap; lia).
        rewrite length_fmap, Hm. done.
      + rewrite Hf. apply foldl_fileAfter_other. intros Hin'.
        apply (Hnd2 _ Hin'). by right. }
  intros s' Hrun. unfold RemoveTargetHostname in Hrun.
  destruct (removeTargetHostnameLoop_ok _ _ _ _ _ Hrun) as (Ht & Hf & Hm).
  simpl in Ht. split; [by rewrite Ht, length_fmap |].
  intros i fn t Hi.
  assert (Hin : (fn, t) ∈ targets s) by (eapply list_elem_of_lookup_2; done).
  assert (Hi' : targets s' !! i = Some (fn, visitTarget h t))
    by (rewrite Ht, list_lookup_fmap, Hi; done).
  rewrite Hf, (foldl_fileAfter_at _ _ _ _ _ Hnd Hin), fileAfter_eq.
  unfold visitTarget in Hi'.
  destruct (containsName (TargetSatisfy.Names (Satisfy t)) h) eqn:Hc; [| done].
  exists (stripHostname h t). split; [done |].
  split; [apply removeStringFromList_filter |].
  split; [apply removeStringFromList_filter |].
  rewrite Forall_forall in Hm. specialize (Hm _ Hin Hc). cbn [snd] in Hm.
  destruct (TargetSatisfy.Names (Satisfy (stripHostname h t))) as [| x xs] eqn:Hn.
  - cbn [length Nat.eqb]. apply lookup_delete_eq.
  - cbn [length Nat.eqb]. destruct Hm as [b Hb]; [done |].
    exists b. split; [done |]. rewrite Hb. apply lookup_insert_eq.
Qed.

End RemoveTargetHostnameFacts.

(** C6, the counterexample. The target requests a certificate for [b.test]
    without having to satisfy it: [RemoveTargetHostname] of [b.test] returns
    nil and the store is as before, [b.test] still among request.names. *)
Lemma RemoveTargetHostname_keeps_request_only_name :
  (exists t, targets requestOnlyStore = [("t1", t)]
     /\ "b.test" ∈ TargetRequest.Names (Request t))
  /\ RemoveTargetHostname sampleIoFault sampleMarshal requestOnlyStore "b.test"
     = (requestOnlyStore, None).
Proof.
  split; [| reflexivity].
  eexists. split; [reflexivity |]. simpl. right. left.
Qed.

(** The statement at the store with three targets and the hostname
    [b.test]: the call returns nil and the store still has three targets. *)
Lemma RemoveTargetHostname_effect_witness :
  NoDup (targets threeTargetStore).*1
  /\ exists s',
       RemoveTargetHostname sampleIoFault sampleMarshal threeTargetStore "b.test"
       = (s', None)
       /\ length (targets s') = length (targets threeTargetStore).
Proof.
  assert (Hnd : NoDup (targets threeTargetStore).*1).
  { simpl. repeat (apply NoDup_cons; split; [set_solver |]). apply NoDup_nil_2. }
  split; [exact Hnd |].
  destruct (RemoveTargetHostname_effect sampleIoFault sampleMarshal
              threeTargetStore "b.test" Hnd) as (Hret & Heff & _).
  destruct Hret as [s' Hs']; [done | intros d; by eexists |].
  exists s'. split; [exact Hs' |]. by destruct (Heff s' Hs') as [Hlen _].
Defined.

(** The three targets after [b.test] is removed: the first keeps [a.test]
    and its file is rewritten, the second has no name left and its file is
    gone, the third is as before. *)
Example RemoveTargetHostname_three_targets :
  let run := RemoveTargetHostname sampleIoFault sampleMarshal
               threeTargetStore "b.test" in
  run.2 = None
  /\ (fun kt => (kt.1, TargetSatisfy.Names (Satisfy kt.2))) <$> targets run.1
     = [("ab", ["a.test"]); ("b", []); ("c", ["c.test"])]
  /\ map_to_list (desiredFiles run.1)
     = [("ab", "satisfy.names=a.test;request.names=;request.provider=;priority=0;names=;provider=")].
Proof. repeat split; vm_compute; reflexivity. Qed.

(** On a disk where the file of the second target cannot be deleted, the
    call ends there: the first target is rewritten, the second has lost its
    name in memory only, the third still has to satisfy [b.test]. *)
Example RemoveTargetHostname_stops_at_failure :
  let fault := fun path : string =>
    if bool_decide (path = "desired/b")
    then Some (errorString "permission denied") else None in
  let s := withTargets emptyStore
             [("ab", sampleTarget ["a.test"; "b.test"] ["a.test"; "b.test"] true);
              ("b", sampleTarget ["b.test"] ["b.test"] true);
              ("c", sampleTarget ["c.test"; "b.test"] ["c.test"; "b.test"] true)] in
  let run := RemoveTargetHostname fault sampleMarshal s "b.test" in
  run.2 = Some (errorString "permission denied")
  /\ (fun kt => (kt.1, TargetSatisfy.Names (Satisfy kt.2))) <$> targets run.1
     = [("ab", ["a.test"]); ("b", []); ("c", ["c.test"; "b.test"])]
  /\ (map_to_list (desiredFiles run.1)).*1 = ["ab"].
Proof. repeat split; vm_compute; reflexivity. Qed.

(** ** Errors of the target pass *)

Lemma append_nil_r (s : string) : s +:+ EmptyString = s.
Proof.
  induction s as [| a s IH]; [done |].
  change (String a (s +:+ EmptyString) = String a s). by rewrite IH.
Qed.

Lemma append_assoc (s1 s2 s3 : string) :
  (s1 +:+ s2) +:+ s3 = s1 +:+ s2 +:+ s3.
Proof.
  induction s1 as [| a s1 IH]; [done |].
  change (String a ((s1 +:+ s2) +:+ s3) = String a (s1 +:+ s2 +:+ s3)).
  by rewrite IH.
Qed.

Lemma append_nonempty_l (s1 s2 : string) :
  s1 <> EmptyString -> s1 +:+ s2 <> EmptyString.
Proof. by destruct s1. Qed.

Lemma Join_cons s ss sep : Join (s :: ss) sep = s +:+ separated sep ss.
Proof.
  revert s. induction ss as [| s' ss IH]; intros s.
  - simpl. by rewrite append_nil_r.
  - change (Join (s :: s' :: ss) sep) with (s +:+ sep +:+ Join (s' :: ss) sep).
    by rewrite IH.
Qed.

Lemma joinErrors_nonempty (f : error -> string) es : forall s,
  s <> EmptyString ->
  joinErrors f s es = s +:+ separated ("; " +:+ LF) (f <$> es).
Proof.
  induction es as [| e es IH]; intros s Hs.
  - simpl. by rewrite append_nil_r.
  - simpl joinErrors. destruct s as [| a s]; [done |].
    rewrite IH by done. rewrite fmap_cons. simpl separated.
    by rewrite !append_assoc.
Qed.

(** When no entry's text is empty, [MultiError.Error] joins the texts with
    the separator. *)
Lemma joinErrors_Join (f : error -> string) es :
  Forall (fun e => f e <> EmptyString) es ->
  joinErrors f EmptyString es = Join (f <$> es) ("; " +:+ LF).
Proof.
  destruct es as [| e es]; [done |]. intros Hne.
  apply Forall_cons in Hne as [He _].
  rewrite fmap_cons, Join_cons. simpl joinErrors.
  by rewrite joinErrors_nonempty.
Qed.

Lemma failures_nonempty_text run :
  Forall (fun e => Error e <> EmptyString) (failures run).
Proof.
  apply Forall_forall. intros e He. unfold failures in He.
  apply list_elem_of_omap in He as ([t r] & _ & Hr). simpl in Hr.
  destruct r as [[e' |] |]; [| done | done]. injection Hr as <-. done.
Qed.

Lemma failures_elem run t e :
  TargetSpecificError t e ∈ failures run <-> (t, Some (Some e)) ∈ run.
Proof.
  unfold failures. rewrite list_elem_of_omap. split.
  - intros ([t' r] & Hin & Hr). simpl in Hr.
    destruct r as [[e' |] |]; [| done | done]. by injection Hr as -> ->.
  - intros Hin. by exists (t, Some (Some e)).
Qed.

Section ReconcileFacts.

Variable ioFault : string -> option error.
Variable List : gmap string string -> result (list string).
Variable yamlUnmarshal : string -> result TargetDoc.
Variable ToLower : string -> string.
Variable Quote : string -> string.
Variable validHostname : string -> bool.
Variable targetGt : Target -> Target -> bool.
Variable ValidURL : string -> bool.
Variable DefaultDirectoryURL : string.
Variable createNewAccount : Store -> string -> Store * result Account.
Variable loadAccounts loadKeys loadCerts linkTargets
  : Store -> Store * option error.
Variable downloadUncachedCertificates : Store -> Store * option error.
Variable requestCertificateForTarget
  : Store -> Target -> option (Store * option error).
Variable ParseCertificate : list Byte.byte -> option x509Certificate.
Variable now : time.Time.
Variable rangeCerts
  : nat -> list (string * Certificate) -> list (string * Certificate).

(** One turn of the walk. *)
Lemma targetPass_cons k s key t rest merr :
  targetPass requestCertificateForTarget ParseCertificate now rangeCerts
    k s ((key, t) :: rest) merr
  = if upToDate ParseCertificate now (rangeCerts k (certs s)) t
    then targetPass requestCertificateForTarget ParseCertificate now
           rangeCerts (S k) s rest merr
    else
      match requestCertificateForTarget s t with
      | None => None
      | Some (s1, Some e) =>
          targetPass requestCertificateForTarget ParseCertificate now
            rangeCerts (S k) s1 rest (merr ++ [TargetSpecificError t e])
      | Some (s1, None) =>
          targetPass requestCertificateForTarget ParseCertificate now
            rangeCerts (S k) s1 rest merr
      end.
Proof. reflexivity. Qed.

(** The walk goes on after any beginning of the list that no panic ended,
    whatever was collected there. *)
Lemma targetPass_app ts1 : forall ts2 k s merr,
  targetPass requestCertificateForTarget ParseCertificate now rangeCerts
    k s (ts1 ++ ts2) merr
  = match
      targetPass requestCertificateForTarget ParseCertificate now rangeCerts
        k s ts1 merr
    with
    | None => None
    | Some (s1, merr1) =>
        targetPass requestCertificateForTarget ParseCertificate now
          rangeCerts (k + length ts1)%nat s1 ts2 merr1
    end.
Proof.
  induction ts1 as [| [key t] ts1 IH]; intros ts2 k s merr.
  - cbn [app length targetPass]. by rewrite Nat.add_0_r.
  - cbn [app length]. rewrite !targetPass_cons, Nat.add_succ_r.
    destruct (upToDate _ _ _ t); [apply (IH ts2 (S k)) |].
    destruct (requestCertificateForTarget s t) as [[s1 [e |]] |];
      [apply (IH ts2 (S k)) | apply (IH ts2 (S k)) | done].
Qed.

(** The walk ends in a panic exactly when a call made panics; otherwise the
    errors collected are those of the calls made, in order. *)
Lemma targetPass_failures ts : forall k s merr,
  match
    targetPass requestCertificateForTarget ParseCertificate now rangeCerts
      k s ts merr
  with
  | None =>
      exists t,
        (t, None) ∈ requestsMade requestCertificateForTarget ParseCertificate
                      now rangeCerts k s ts
  | Some (_, m) =>
      (forall t,
         (t, None) ∉ requestsMade requestCertificateForTarget
                       ParseCertificate now rangeCerts k s ts)
      /\ m = merr ++ failures
                       (requestsMade requestCertificateForTarget
                          ParseCertificate now rangeCerts k s ts)
  end.
Proof.
  induction ts as [| [key t] ts IH]; intros k s merr.
  - cbn. split; [intros t Hin; inversion Hin | by rewrite app_nil_r].
  - rewrite targetPass_cons. cbn [requestsMade].
    destruct (upToDate _ _ _ t); [apply IH |].
    destruct (requestCertificateForTarget s t) as [[s1 [e |]] |].
    + specialize (IH (S k) s1 (merr ++ [TargetSpecificError t e])).
      destruct (targetPass _ _ _ _ (S k) s1 ts _) as [[s2 m] |].
      * destruct IH as [Hno ->]. split.
        -- intros t0 Hin. apply elem_of_cons in Hin as [[=] | Hin].
           by apply (Hno t0).
        -- unfold failures. cbn. by rewrite <- app_assoc.
      * destruct IH as [t0 Hin]. exists t0. by right.
    + specialize (IH (S k) s1 merr).
      destruct (targetPass _ _ _ _ (S k) s1 ts _) as [[s2 m] |].
      * destruct IH as [Hno ->]. split; [| done].
        intros t0 Hin. apply elem_of_cons in Hin as [[=] | Hin].
        by apply (Hno t0).
      * destruct IH as [t0 Hin]. exists t0. by right.
    + exists t. by left.
Qed.

(** The target pass of [reconcile]. A request that returns an error
    does not end the walk: the walk goes on through the rest of the targets
    from wherever it stands. A request that panics ends the walk, and
    [reconcile] with it. When no request panics, what the pass returns is
    nil when no request returned an error and otherwise the [MultiError] of
    the errors returned, in order, each wrapped as a [TargetSpecificError]
    with its target. [reconcile] is this pass on the store it is given when
    that has no uncached certificate; otherwise it is the error of the
    download or of the loading that follows it, the error "cannot obtain one
    or more uncached certificates" when the store loaded still has one, and
    else the pass on the store loaded. The text of a [MultiError] is "the
    following errors occurred:", a line feed, and the texts of the entries
    separated by "; " and a line feed, each entry reading "error satisfying
    target T: e". *)
Theorem reconcile_collects_target_errors (s : Store) :
  let pass := targetPass requestCertificateForTarget ParseCertificate now
                rangeCerts in
  let run := requestsMade requestCertificateForTarget ParseCertificate now
               rangeCerts 0 s (targets s) in
  let merr := failures run in
  (forall ts1 ts2 k s0 merr0,
     pass k s0 (ts1 ++ ts2) merr0
     = match pass k s0 ts1 merr0 with
       | None => None
       | Some (s1, merr1) => pass (k + length ts1)%nat s1 ts2 merr1
       end)
  /\ (forall k s0 key t rest merr0,
      upToDate ParseCertificate now (rangeCerts k (certs s0)) t = false ->
      match requestCertificateForTarget s0 t with
      | Some (s1, Some e) =>
          pass k s0 ((key, t) :: rest) merr0
          = pass (S k) s1 rest (merr0 ++ [TargetSpecificError t e])
      | Some (s1, None) =>
          pass k s0 ((key, t) :: rest) merr0 = pass (S k) s1 rest merr0
      | None => pass k s0 ((key, t) :: rest) merr0 = None
      end)
  /\ match
       reconcileTargets requestCertificateForTarget ParseCertificate now
         rangeCerts s
     with
     | None => exists t, (t, None) ∈ run
     | Some (_, err) =>
         (forall t, (t, None) ∉ run)
         /\ err = match merr with
                  | [] => None
                  | _ :: _ => Some (MultiError merr)
                  end
     end
  /\ reconcile ioFault List yamlUnmarshal ToLower Quote validHostname
       targetGt ValidURL DefaultDirectoryURL createNewAccount loadAccounts
       loadKeys loadCerts linkTargets downloadUncachedCertificates
       requestCertificateForTarget ParseCertificate now rangeCerts s
     = (if haveUncachedCertificates s then
          match downloadUncachedCertificates s with
          | (s1, Some e) => Some (s1, Some e)
          | (s1, None) =>
              match
                load ioFault List yamlUnmarshal ToLower Quote validHostname
                  targetGt ValidURL DefaultDirectoryURL createNewAccount
                  loadAccounts loadKeys loadCerts linkTargets s1
              with
              | (s2, Some e) => Some (s2, Some e)
              | (s2, None) =>
                  if haveUncachedCertificates s2
                  then Some (s2, Some (errorString
                         "cannot obtain one or more uncached certificates"))
                  else reconcileTargets requestCertificateForTarget
                         ParseCertificate now rangeCerts s2
              end
          end
        else reconcileTargets requestCertificateForTarget ParseCertificate
               now rangeCerts s)
  /\ (forall t e, TargetSpecificError t e ∈ merr <-> (t, Some (Some e)) ∈ run)
  /\ Error (MultiError merr)
     = "the following errors occurred:" +:+ LF
       +:+ Join (Error <$> merr) ("; " +:+ LF)
  /\ forall t e,
       Error (TargetSpecificError t e)
       = "error satisfying target " +:+ TargetString t +:+ ": " +:+ Error e.
Proof.
  intros pass run merr.
  split; [| split; [| split; [| split; [| split; [| split]]]]].
  - intros ts1 ts2 k s0 merr0. apply targetPass_app.
  - intros k s0 key t rest merr0 Hup. unfold pass.
    rewrite targetPass_cons, Hup.
    by destruct (requestCertificateForTarget s0 t) as [[s1 [e |]] |].
  - unfold reconcileTargets.
    pose proof (targetPass_failures (targets s) 0 s []) as Hf.
    fold run in Hf.
    destruct (targetPass _ _ _ _ 0 s (targets s) []) as [[s1 m] |];
      [| exact Hf].
    destruct Hf as [Hno Hm]. cbn [app] in Hm. fold merr in Hm. subst m.
    destruct merr; cbn [length Nat.eqb negb]; by split.
  - reflexivity.
  - intros t e. apply failures_elem.
  - change (Error (MultiError merr))
      with ("the following errors occurred:" +:+ LF
            +:+ joinErrors Error EmptyString merr).
    rewrite joinErrors_Join; [done | apply failures_nonempty_text].
  - reflexivity.
Qed.

End ReconcileFacts.

(** C7, the failing input. A fresh state directory holds the target files
    [a.test] and [b.test] and no account. Loading the targets makes the
    account, with the nil map of authorizations that [createNewAccount]
    leaves, and both targets hold it. The ACME server grants and loads the
    authorization for [a.test]: the request for the first target panics
    where it stores the authorization, the second target is never
    requested, and [reconcile] returns nothing. With the empty map that
    [validateAccount] gives an account it loads, the same run requests both
    targets and returns nil. *)
Lemma reconcile_panics_on_new_account :
  let loaded :=
    loadTargets sampleIoFault sampleList sampleUnmarshal sampleToLower
      sampleQuote sampleValidHostname sampleValidURL
      "https://acme.test/directory"
      (createNewAccount sampleAccountURLPart sampleCreateKey) freshStore in
  let request :=
    requestCertificateForTarget sampleIoFault 0 sampleDetermineAccountID
      (fun url => url) (fun _ => None) grantingAuthorize grantingLoad
      sampleCreateCSR grantingRequestCertificate sampleDownloadCertificate in
  let run := fun s =>
    reconcile sampleIoFault sampleList sampleUnmarshal sampleToLower
      sampleQuote sampleValidHostname sampleTargetGt sampleValidURL
      "https://acme.test/directory"
      (createNewAccount sampleAccountURLPart sampleCreateKey)
      sampleStage sampleStage sampleStage sampleStage sampleStage
      request sampleParse 0 sampleRange s in
  let loadedAccount :=
    {| PrivateKey := "new key"; BaseURL := "https://acme.test/directory";
       Authorizations := Some [] |} in
  loaded.2 = None
  /\ (fun kt => (kt.1, Authorizations
                         <$> TargetRequest.Account (Request kt.2)))
     <$> targets loaded.1
     = [("a.test", Some None); ("b.test", Some None)]
  /\ (fun tr => (TargetSatisfy.Names (Satisfy tr.1), tr.2))
     <$> requestsMade request sampleParse 0 sampleRange 0 loaded.1
           (targets loaded.1)
     = [(["a.test"], None)]
  /\ run loaded.1 = None
  /\ (fun tr => (TargetSatisfy.Names (Satisfy tr.1), tr.2))
     <$> requestsMade request sampleParse 0 sampleRange 0
           (putAccount loadedAccount loaded.1)
           (targets (putAccount loadedAccount loaded.1))
     = [(["a.test"], Some None); (["b.test"], Some None)]
  /\ option_map snd (run (putAccount loadedAccount loaded.1)) = Some None.
Proof. repeat split; vm_compute; reflexivity. Qed.

(** Two targets without certificate, of which the one of priority 1 cannot be
    authorized: both are requested, and the one failure comes back. *)
Example reconcileTargets_one_failure :
  let merr := [TargetSpecificError overlapT1
                 (errorString "authorization failed")] in
  requestsMade sampleRequest sampleParse 0 sampleRange 0 overlapStore
    (targets overlapStore)
    = [(overlapT2, Some None);
       (overlapT1, Some (Some (errorString "authorization failed")))]
  /\ reconcileTargets sampleRequest sampleParse 0 sampleRange overlapStore
     = Some (overlapStore, Some (MultiError merr))
  /\ Error (MultiError merr)
     = "the following errors occurred:" +:+ LF +:+
       "error satisfying target Target(a,b;;1): authorization failed".
Proof. repeat split; vm_compute; reflexivity. Qed.

(** ** Loading a target file without names *)

Section LoadFacts.

Variable ioFault : string -> option error.
Variable List : gmap string string -> result (list string).
Variable yamlUnmarshal : string -> result TargetDoc.
Variable ToLower : string -> string.
Variable Quote : string -> string.
Variable validHostname : string -> bool.
Variable targetGt : Target -> Target -> bool.
Variable ValidURL : string -> bool.
Variable DefaultDirectoryURL : string.
Variable createNewAccount : Store -> string -> Store * result Account.
Variable loadAccounts loadKeys loadCerts linkTargets
  : Store -> Store * option error.

(** A file that does not validate ends the loop over the listed names with
    an error, wherever it stands in the list. *)
Lemma validateTargets_fails key files keys : forall s,
  (forall s0, exists e,
     validateTargetInner ioFault yamlUnmarshal ToLower Quote validHostname
       ValidURL DefaultDirectoryURL createNewAccount s0 key "desired" files
     = (s0, inl e)) ->
  key ∈ keys ->
  exists e,
    (validateTargets ioFault yamlUnmarshal ToLower Quote validHostname
       ValidURL DefaultDirectoryURL createNewAccount s keys files).2 = Some e.
Proof.
  induction keys as [| k keys IH]; intros s Hbad Hin; [inversion Hin |].
  simpl. unfold validateTarget.
  destruct (decide (k = key)) as [-> | Hne].
  - destruct (Hbad s) as [e ->]. by exists e.
  - destruct (validateTargetInner _ _ _ _ _ _ _ _ s k "desired" files)
      as [s1 [e | tgt]]; [by exists e |].
    apply IH; [done |]. apply elem_of_cons in Hin as [-> | Hin]; done.
Qed.

(** C10. A file of [desired] whose document has neither satisfy.names nor
    the legacy names loads with its own name, lower-cased and without a
    trailing dot, as the only satisfy name (and as the implied request name
    when the document has no request names), provided that name is a valid
    hostname and the account resolves; when the name is not a valid
    hostname, [validateTargetInner], the loop over the listed files,
    [loadTargets] and [load] all end with an error. *)
Theorem validateTargetInner_names_default_to_file_name
    (files : gmap string string) (key b : string) (doc : TargetDoc) :
  files !! key = Some b ->
  yamlUnmarshal b = inr doc ->
  doc_satisfy_names doc = [] ->
  doc_names doc = [] ->
  let n := TrimSuffix1 (ToLower key) "." in
  let provider :=
    if bool_decide (doc_request_provider doc = EmptyString)
    then doc_provider doc else doc_request_provider doc in
  (validHostname n = true -> ioFault ("desired/" +:+ key) = None ->
   forall s s' a,
     getAccountByProviderString ValidURL DefaultDirectoryURL createNewAccount
       s provider = (s', inr a) ->
     exists tgt,
       validateTargetInner ioFault yamlUnmarshal ToLower Quote validHostname
         ValidURL DefaultDirectoryURL createNewAccount s key "desired" files
       = (s', inr tgt)
       /\ TargetSatisfy.Names (Satisfy tgt) = [n]
       /\ (doc_request_names doc = [] ->
           TargetRequest.Names (Request tgt) = [n]
           /\ TargetRequest.implicitNames (Request tgt) = true))
  /\ (validHostname n = false ->
      (forall s, exists e,
         validateTargetInner ioFault yamlUnmarshal ToLower Quote validHostname
           ValidURL DefaultDirectoryURL createNewAccount s key "desired" files
         = (s, inl e))
      /\ (forall s keys, key ∈ keys ->
          exists e,
            (validateTargets ioFault yamlUnmarshal ToLower Quote validHostname
               ValidURL DefaultDirectoryURL createNewAccount s keys files).2
            = Some e)
      /\ (forall s,
          desiredFiles
            (loadDefaultTarget ioFault yamlUnmarshal ToLower Quote
               validHostname ValidURL DefaultDirectoryURL createNewAccount
               (withTargets s [])) = files ->
          (forall keys, List files = inr keys -> key ∈ keys) ->
          exists e,
            (loadTargets ioFault List yamlUnmarshal ToLower Quote validHostname
               ValidURL DefaultDirectoryURL createNewAccount s).2 = Some e)
      /\ (forall s,
          (forall sa sb sc,
             loadAccounts s = (sa, None) -> loadKeys sa = (sb, None) ->
             loadCerts sb = (sc, None) ->
             desiredFiles
               (loadDefaultTarget ioFault yamlUnmarshal ToLower Quote
                  validHostname ValidURL DefaultDirectoryURL createNewAccount
                  (withTargets sc [])) = files
             /\ forall keys, List files = inr keys -> key ∈ keys) ->
          exists e,
            (load ioFault List yamlUnmarshal ToLower Quote validHostname
               targetGt ValidURL DefaultDirectoryURL createNewAccount
               loadAccounts loadKeys loadCerts linkTargets s).2 = Some e)).
Proof.
  intros Hfile Hyaml Hsat Hleg n provider.
  assert (Hinner : forall s,
    validateTargetInner ioFault yamlUnmarshal ToLower Quote validHostname
      ValidURL DefaultDirectoryURL createNewAccount s key "desired" files
    = match ioFault ("desired/" +:+ key) with
      | Some e => (s, inl e)
      | None =>
          if negb (validHostname n)
          then (s, inl (errorString
                 ("invalid target: " +:+ key +:+ ": "
                  +:+ "invalid hostname: " +:+ Quote n)))
          else
            match getAccountByProviderString ValidURL DefaultDirectoryURL
                    createNewAccount s provider with
            | (s', inl e) => (s', inl e)
            | (s', inr a) =>
                (s', inr
                   {| Satisfy := TargetSatisfy.mk [n] [];
                      Request :=
                        TargetRequest.mk
                          (if (length (doc_request_names doc) =? 0)%nat
                           then [n] else doc_request_names doc)
                          (length (doc_request_names doc) =? 0)%nat
                          provider (Some a);
                      Priority := doc_priority doc;
                      LegacyNames := [];
                      LegacyProvider := doc_provider doc |})
            end
      end).
  { intros s. unfold validateTargetInner, fdbBytes.
    change ("desired" +:+ "/" +:+ key) with ("desired/" +:+ key).
    destruct (ioFault ("desired/" +:+ key)) as [e |]; [done |].
    rewrite Hfile, Hyaml. simpl. rewrite Hsat, Hleg. simpl.
    fold n. destruct (validHostname n); simpl; [| done].
    fold provider.
    by destruct (getAccountByProviderString _ _ _ s provider) as [s' [e | a]]. }
  split.
  - intros Hvalid Hio s s' a Hacc. rewrite Hinner, Hio, Hvalid, Hacc. simpl.
    eexists. split; [reflexivity |]. simpl. split; [done |].
    intros ->. done.
  - intros Hinvalid.
    assert (Hfail : forall s, exists e,
      validateTargetInner ioFault yamlUnmarshal ToLower Quote validHostname
        ValidURL DefaultDirectoryURL createNewAccount s key "desired" files
      = (s, inl e)).
    { intros s. rewrite Hinner, Hinvalid. simpl.
      destruct (ioFault _); by eexists. }
    assert (Hload : forall s,
      desiredFiles
        (loadDefaultTarget ioFault yamlUnmarshal ToLower Quote
           validHostname ValidURL DefaultDirectoryURL createNewAccount
           (withTargets s [])) = files ->
      (forall keys, List files = inr keys -> key ∈ keys) ->
      exists e,
        (loadTargets ioFault List yamlUnmarshal ToLower Quote validHostname
           ValidURL DefaultDirectoryURL createNewAccount s).2 = Some e).
    { intros s Hfiles Hlisted. unfold loadTargets. cbv zeta.
      rewrite Hfiles. destruct (List files) as [e | keys] eqn:Hl;
        [by exists e |].
      apply (validateTargets_fails key); [done | by apply Hlisted]. }
    split; [done |]. split; [| split; [done |]].
    + intros s keys Hin. by apply (validateTargets_fails key).
    + intros s Hreach. unfold load.
      destruct (loadAccounts s) as [sa [e |]] eqn:Ha; [by exists e |].
      destruct (loadKeys sa) as [sb [e |]] eqn:Hb; [by exists e |].
      destruct (loadCerts sb) as [sc [e |]] eqn:Hc; [by exists e |].
      destruct (Hreach sa sb sc eq_refl Hb Hc) as [Hfiles Hlisted].
      destruct (Hload sc Hfiles Hlisted) as [e He].
      destruct (loadTargets _ _ _ _ _ _ _ _ _ sc) as [sd [e' |]];
        simpl in He; [| done].
      by exists e'.
Qed.

End LoadFacts.

(** The statement at the file [A.Test.] without names: it loads as a target
    for [a.test]. *)
Lemma validateTargetInner_names_default_to_file_name_witness :
  let files : gmap string string := {[ "A.Test." := "{}" ]} in
  files !! "A.Test." = Some "{}"
  /\ exists s' tgt,
       validateTargetInner sampleIoFault sampleUnmarshal sampleToLower
         sampleQuote sampleValidHostname sampleValidURL
         "https://acme.test/directory" sampleCreateNewAccount
         emptyStore "A.Test." "desired" files
       = (s', inr tgt)
       /\ TargetSatisfy.Names (Satisfy tgt) = ["a.test"].
Proof.
  intros files.
  assert (Hfile : files !! "A.Test." = Some "{}") by reflexivity.
  split; [exact Hfile |].
  destruct (validateTargetInner_names_default_to_file_name
              sampleIoFault sampleList sampleUnmarshal sampleToLower
              sampleQuote sampleValidHostname sampleTargetGt sampleValidURL
              "https://acme.test/directory" sampleCreateNewAccount
              sampleStage sampleStage sampleStage sampleStage
              files "A.Test." "{}" _ Hfile eq_refl eq_refl eq_refl)
    as [Hok _].
  destruct (Hok eq_refl eq_refl emptyStore _ _ eq_refl) as (tgt & Hrun & Hn & _).
  eexists _, tgt. split; [exact Hrun | exact Hn].
Defined.

(** A file without names whose name is not a hostname: loading it fails. *)
Example validateTargetInner_bad_file_name :
  let files : gmap string string := {[ "bad_name" := "{}" ]} in
  validateTargetInner sampleIoFault sampleUnmarshal sampleToLower
    sampleQuote sampleValidHostname sampleValidURL
    "https://acme.test/directory" sampleCreateNewAccount
    emptyStore "bad_name" "desired" files
  = (emptyStore,
     inl (errorString
            ("invalid target: bad_name: invalid hostname: "
             +:+ dquote +:+ "bad_name" +:+ dquote))).
Proof. vm_compute. reflexivity. Qed.

(** ** The responder's start *)

Section ResponderFacts.

Variable TrimSpace : string -> string.
Variable URLString : string -> string -> string -> string.
Variable filepathJoin : string -> string -> string.
Variable ParseUint16 : string -> option N.
Variable ResolveTCPAddr : string -> option string.
Variable netListen : string -> bool.
Variable openFile : string -> bool.
Variable httpGet : string -> getOutcome.

Lemma startListeners_frame addrs : forall s s1 evs,
  startListeners netListen s addrs = (s1, evs) ->
  sameButStopFuncs s s1 /\ Forall (fun e => isSelfTestEvent e = false) evs.
Proof.
  induction addrs as [| k addrs IH]; intros s s1 evs Hrun; simpl in Hrun.
  - injection Hrun as <- <-. by repeat split.
  - unfold startListener in Hrun. destruct (netListen k); simpl in Hrun.
    + destruct (startListeners netListen _ addrs) as [s2 evs2] eqn:Hl.
      injection Hrun as <- <-. destruct (IH _ _ _ Hl) as [Hsame Hevs].
      split; [exact Hsame | by constructor].
    + destruct (startListeners netListen s addrs) as [s2 evs2] eqn:Hl.
      injection Hrun as <- <-. destruct (IH _ _ _ Hl) as [Hsame Hevs].
      split; [exact Hsame | by constructor].
Qed.

(** [startActual] never fails and makes no event of the self-test. *)
Lemma startActual_frame s :
  exists s1 evs1,
    startActual filepathJoin ParseUint16 ResolveTCPAddr netListen openFile s
    = (s1, evs1, None)
    /\ sameButStopFuncs s s1
    /\ Forall (fun e => isSelfTestEvent e = false) evs1.
Proof.
  unfold startActual.
  destruct (startListeners netListen s _) as [s1 evs] eqn:Hl.
  destruct (startListeners_frame _ _ _ _ Hl) as [Hsame Hevs].
  eexists _, _. split; [reflexivity |]. split; [exact Hsame |].
  assert (Hw : Forall (fun e => isSelfTestEvent e = false)
                 (evs ++ webrootWriteChallenge filepathJoin openFile
                           (getWebroots s1) (Token (rcfg s1)) (ka s1))).
  { apply Forall_app. split; [done |]. unfold webrootWriteChallenge.
    apply Forall_fmap, Forall_forall. done. }
  destruct (StartHookFunc _); [| done].
  apply Forall_app. split; [done | by repeat constructor].
Qed.

(** [Stop] forgets the stop functions and makes no event of the self-test. *)
Lemma Stop_frame s :
  stopFuncs (Stop filepathJoin s).1.1 = []
  /\ sameButStopFuncs s (Stop filepathJoin s).1.1
  /\ (Stop filepathJoin s).2 = None
  /\ Forall (fun e => isSelfTestEvent e = false) (Stop filepathJoin s).1.2.
Proof.
  unfold Stop. simpl. repeat split.
  assert (Hw : Forall (fun e => isSelfTestEvent e = false)
                 ((EvStopListener <$> stopFuncs s)
                  ++ webrootRemoveChallenge filepathJoin
                       (getWebroots (setStopFuncs s [])) (Token (rcfg s)))).
  { apply Forall_app. split; apply Forall_fmap, Forall_forall; done. }
  destruct (StopHookFunc _); [| done].
  apply Forall_app. split; [done | by repeat constructor].
Qed.

(** The self-test, case by case. *)
Lemma selfTest_cases s :
  let u := URLString "http" (Hostname (rcfg s))
             ("/.well-known/acme-challenge/" +:+ Token (rcfg s)) in
  let run := selfTest TrimSpace URLString httpGet s in
  rcfg run.1.1 = rcfg s /\ ka run.1.1 = ka s
  /\ stopFuncs run.1.1 = stopFuncs s
  /\ (Hostname (rcfg s) = EmptyString -> run = (s, [], None))
  /\ (Hostname (rcfg s) <> EmptyString ->
      In (EvHTTPGet u) run.1.2
      /\ (forall e, httpGet u = GetFails e -> run.2 = Some e)
      /\ (forall StatusCode body detected,
            httpGet u = GetResponds StatusCode body detected ->
            StatusCode <> 200
            \/ (exists b, body = inr b /\ TrimSpace b <> ka s) ->
            run.2 <> None)
      /\ (run.2 = None ->
          (In EvRequestDetected run.1.2
           /\ notifySupported run.1.1 = notifySupported s)
          \/ (~ In EvRequestDetected run.1.2
              /\ notifySupported run.1.1 = false))).
Proof.
  intros u run.
  destruct (decide (Hostname (rcfg s) = EmptyString)) as [Hh | Hh].
  { assert (Hrun : run = (s, [], None)).
    { subst run. unfold selfTest. by rewrite bool_decide_eq_true_2. }
    rewrite Hrun. simpl. repeat split; done. }
  assert (Hrun : run
    = match httpGet u with
      | GetFails e => (s, [EvHTTPGet u], Some e)
      | GetResponds StatusCode body detected =>
          let s := setChan s (Nat.iter detected notify (requestDetectedChan s)) in
          if negb (StatusCode =? 200)
          then (s, [EvHTTPGet u],
                Some (errorString "non-200 status code when doing self-test"))
          else
            match body with
            | inl e => (s, [EvHTTPGet u], Some e)
            | inr b =>
                if negb (bool_decide (TrimSpace b = ka s))
                then (s, [EvHTTPGet u],
                      Some (errorString
                        "got 200 response when doing self-test, but with the wrong data"))
                else
                  match requestDetectedChan s with
                  | S n =>
                      (setChan s (drain n),
                       [EvHTTPGet u; EvRequestDetected], None)
                  | O =>
                      (setChan (setNotifySupported s false)
                         (drain (requestDetectedChan
                                   (setNotifySupported s false))),
                       [EvHTTPGet u], None)
                  end
            end
      end).
  { subst run. unfold selfTest. fold u. by rewrite bool_decide_eq_false_2. }
  rewrite Hrun. clear Hrun run.
  destruct (httpGet u) as [e | StatusCode body detected].
  { simpl. repeat split; try done; try (by left). by intros ? [= ->]. }
  cbv zeta.
  destruct (Z.eqb_spec StatusCode 200) as [-> | Hst]; cbn [negb].
  2: { simpl. repeat split; try done; by left. }
  destruct body as [e | b].
  { simpl. repeat split; try done; try (by left). }
  destruct (decide (TrimSpace b = ka s)) as [Hb | Hb].
  2: { rewrite bool_decide_eq_false_2 by done. simpl.
       repeat split; try done; by left. }
  rewrite bool_decide_eq_true_2 by done. cbn [negb].
  cbn [requestDetectedChan setChan].
  destruct (Nat.iter detected notify (requestDetectedChan s)) as [| n].
  - simpl. repeat split; try done; try (by left).
    + intros ? ? ? [= <- <- <-] [? | (b' & [= <-] & Hne)]; done.
    + intros _. right. split; [| done]. intros [[=] | []].
  - simpl. repeat split; try done; try (by left).
    + intros ? ? ? [= <- <- <-] [? | (b' & [= <-] & Hne)]; done.
    + intros _. left. split; [| done]. right. by left.
Qed.

(** C9, as amended. [Start] makes the self-test's request exactly when a
    hostname is configured; when the self-test fails, as it does on a status
    other than 200 and on a body that, trimmed, differs from the key
    authorization, [Start] calls [Stop] and returns the error; after a
    [Start] that returned nil on a new responder, [RequestDetectedChan]
    returns the channel exactly when no hostname is configured, so that the
    self-test was skipped, or the self-test received from the channel. *)
Theorem Start_selfTest (s : httpResponder) :
  let u := URLString "http" (Hostname (rcfg s))
             ("/.well-known/acme-challenge/" +:+ Token (rcfg s)) in
  let run := Start TrimSpace URLString filepathJoin ParseUint16 ResolveTCPAddr
               netListen openFile httpGet s in
  ((exists u', In (EvHTTPGet u') run.1.2) <-> Hostname (rcfg s) <> EmptyString)
  /\ (Hostname (rcfg s) <> EmptyString -> In (EvHTTPGet u) run.1.2)
  /\ (Hostname (rcfg s) <> EmptyString ->
      forall e, httpGet u = GetFails e -> run.2 = Some e)
  /\ (Hostname (rcfg s) <> EmptyString ->
      forall StatusCode body detected,
        httpGet u = GetResponds StatusCode body detected ->
        StatusCode <> 200 \/ (exists b, body = inr b /\ TrimSpace b <> ka s) ->
        run.2 <> None)
  /\ (run.2 <> None ->
      exists s1 evs1 s2 evs2 e,
        startActual filepathJoin ParseUint16 ResolveTCPAddr netListen
          openFile s = (s1, evs1, None)
        /\ selfTest TrimSpace URLString httpGet s1 = (s2, evs2, Some e)
        /\ run = ((Stop filepathJoin s2).1.1,
                  evs1 ++ evs2 ++ (Stop filepathJoin s2).1.2, Some e)
        /\ stopFuncs run.1.1 = [])
  /\ (run.2 = None -> notifySupported s = true ->
      (is_Some (RequestDetectedChan run.1.1)
       <-> Hostname (rcfg s) = EmptyString \/ In EvRequestDetected run.1.2)).
Proof.
  intros u run. subst run. unfold Start.
  destruct (startActual_frame s) as (s1 & evs1 & Hsa & Hsame & Hevs1).
  rewrite Hsa.
  destruct Hsame as (Hcfg & Hka & Hns & Hch).
  pose proof (selfTest_cases s1) as Hst. cbv zeta in Hst.
  rewrite Hcfg, Hka in Hst. fold u in Hst.
  destruct (selfTest TrimSpace URLString httpGet s1) as [[s2 evs2] err]
    eqn:Hrun.
  simpl in Hst. destruct Hst as (Hcfg2 & Hka2 & Hsf2 & Hskip & Htest).
  assert (Hno1 : forall e, isSelfTestEvent e = true -> ~ In e evs1).
  { intros e He Hin. rewrite Forall_forall in Hevs1.
    apply list_elem_of_In in Hin. specialize (Hevs1 _ Hin). congruence. }
  pose proof (Stop_frame s2) as (Hsf & Hsame3 & Hnil & Hevs3).
  assert (Hno3 : forall e, isSelfTestEvent e = true ->
                   ~ In e (Stop filepathJoin s2).1.2).
  { intros e He Hin. rewrite Forall_forall in Hevs3.
    apply list_elem_of_In in Hin. specialize (Hevs3 _ Hin). congruence. }
  assert (Hevs : forall e, isSelfTestEvent e = true ->
    In e (match err with
          | Some _ => evs1 ++ evs2 ++ (Stop filepathJoin s2).1.2
          | None => evs1 ++ evs2
          end) <-> In e evs2).
  { intros e He. destruct err; rewrite !in_app_iff;
      pose proof (Hno1 e He); pose proof (Hno3 e He); tauto. }
  assert (Hshape :
    (let '(s0, evs', o) :=
       (s2, evs2, err) : httpResponder * list Event * option error in
     match o with
     | Some err0 =>
         let '(s3, evs'', _) := Stop filepathJoin s0 in
         (s3, evs1 ++ evs' ++ evs'', Some err0)
     | None => (s0, evs1 ++ evs', None)
     end)
    = (match err with
       | Some _ => (Stop filepathJoin s2).1.1
       | None => s2
       end,
       match err with
       | Some _ => evs1 ++ evs2 ++ (Stop filepathJoin s2).1.2
       | None => evs1 ++ evs2
       end, err)).
  { destruct err; [| done].
    by destruct (Stop filepathJoin s2) as [[s3 evs3] o3]. }
  rewrite Hshape. simpl. clear Hshape.
  destruct (decide (Hostname (rcfg s) = EmptyString)) as [Hh | Hh].
  - specialize (Hskip Hh). injection Hskip as -> -> ->.
    split; [| split; [done | split; [done | split; [done |
      split; [by intros [] |]]]]].
    + split; [| done]. intros [u' Hin].
      apply (Hevs (EvHTTPGet u') eq_refl) in Hin. done.
    + intros _ Hn. unfold RequestDetectedChan. rewrite Hns, Hn. simpl.
      split; [by left | by eexists].
  - destruct (Htest Hh) as (Hget & Hgetfail & Hfail & Hnotify).
    split; [| split; [| split; [| split; [| split]]]].
    + split; [done |]. intros _. exists u.
      by apply (Hevs (EvHTTPGet u) eq_refl).
    + intros _. by apply (Hevs (EvHTTPGet u) eq_refl).
    + intros _. exact Hgetfail.
    + intros _. exact Hfail.
    + intros Herr. destruct err as [e |]; [| done].
      exists s1, evs1, s2, evs2, e. repeat split; done.
    + intros -> Hn. unfold RequestDetectedChan.
      rewrite (Hevs EvRequestDetected eq_refl).
      destruct (Hnotify eq_refl) as [[Hin ->] | [Hnin ->]].
      * rewrite Hns, Hn. simpl. split; [by right | by eexists].
      * simpl. split; [by intros [? [=]] | intros [? | ?]; done].
Qed.

End ResponderFacts.

(** C9, the counterexample. A new responder without hostname: [Start]
    returns nil without any event of the self-test, so no send was observed,
    and [RequestDetectedChan] returns the channel. *)
Lemma RequestDetectedChan_without_selfTest :
  exists s,
    newHTTP sampleKeyAuthorization sampleChallengeResponseJSON noHostnameConfig
    = inr s
    /\ let run := Start sampleTrimSpace sampleURLString sampleJoin
                   sampleParseUint16 sampleResolveTCPAddr sampleListen
                   sampleOpenFile sampleGet s in
       run.2 = None
       /\ filter (fun e => isSelfTestEvent e = true) run.1.2 = []
       /\ RequestDetectedChan run.1.1 = Some theRequestDetectedChan.
Proof.
  eexists. split; [reflexivity |]. cbv zeta.
  repeat split; vm_compute; reflexivity.
Qed.

(** A responder for [a.test] whose self-test is answered by its own handler:
    the channel is handed out. Answered by some other server, it is not.
    Answered with status 404, [Start] fails and has removed the challenge
    file last. *)
Example Start_with_hostname :
  exists s,
    newHTTP sampleKeyAuthorization sampleChallengeResponseJSON hostnameConfig
    = inr s
    /\ (let run := Start sampleTrimSpace sampleURLString sampleJoin
                     sampleParseUint16 sampleResolveTCPAddr sampleListen
                     sampleOpenFile (sampleGetResponds 200 1) s in
        run.2 = None
        /\ RequestDetectedChan run.1.1 = Some theRequestDetectedChan)
    /\ (let run := Start sampleTrimSpace sampleURLString sampleJoin
                     sampleParseUint16 sampleResolveTCPAddr sampleListen
                     sampleOpenFile (sampleGetResponds 200 0) s in
        run.2 = None /\ RequestDetectedChan run.1.1 = None)
    /\ (let run := Start sampleTrimSpace sampleURLString sampleJoin
                     sampleParseUint16 sampleResolveTCPAddr sampleListen
                     sampleOpenFile (sampleGetResponds 404 0) s in
        run.2 = Some (errorString "non-200 status code when doing self-test")
        /\ last run.1.2
           = Some (EvRemoveFile "/var/run/acme/acme-challenge/token")).
Proof.
  eexists. split; [reflexivity |]. cbv zeta.
  repeat split; vm_compute; reflexivity.
Qed.

(** * Further properties *)

(** ** The matcher and the renewal policy *)

Section MatcherMore.

Variable ParseCertificate : list Byte.byte -> option x509Certificate.

Lemma findBestLoop_Some t certs : forall bestCert c,
  findBestLoop ParseCertificate t bestCert certs = Some c ->
  bestCert = Some c
  \/ (c ∈ certs /\ doesCertSatisfy ParseCertificate c t = true).
Proof.
  induction certs as [| x certs IH]; intros bestCert c Hrun; simpl in Hrun.
  - by left.
  - destruct (IH _ _ Hrun) as [Hbest | [Hin Hsat]].
    + destruct (doesCertSatisfy ParseCertificate x t) eqn:Hx; simpl in Hbest.
      * destruct (match bestCert with
                  | Some b => certBetterThan ParseCertificate x b
                  | None => true
                  end); [| by left].
        injection Hbest as <-. right. split; [by left | done].
      * by left.
    + right. split; [by right | done].
Qed.

Lemma findBestLoop_None t certs : forall bestCert,
  findBestLoop ParseCertificate t bestCert certs = None ->
  bestCert = None
  /\ forall c, c ∈ certs -> doesCertSatisfy ParseCertificate c t = false.
Proof.
  induction certs as [| x certs IH]; intros bestCert Hrun; simpl in Hrun.
  - split; [done |]. intros c Hc. inversion Hc.
  - destruct (IH _ Hrun) as [Hbest Hall].
    destruct (doesCertSatisfy ParseCertificate x t) eqn:Hx; simpl in Hbest.
    + destruct bestCert as [b |]; [| done].
      destruct (certBetterThan ParseCertificate x b); done.
    + split; [done |]. intros c Hc.
      apply elem_of_cons in Hc as [-> | Hc]; [done | by apply Hall].
Qed.

(** X1. The certificate that [findBestCertificateSatisfying] returns is one
    of the store's certificates and satisfies the target; the search fails
    only when no certificate of the store satisfies the target. *)
Theorem findBestCertificateSatisfying_satisfies
    (certs : list Certificate) (t : Target) :
  match findBestCertificateSatisfying ParseCertificate certs t with
  | Some c => c ∈ certs /\ doesCertSatisfy ParseCertificate c t = true
  | None => forall c, c ∈ certs -> doesCertSatisfy ParseCertificate c t = false
  end.
Proof.
  unfold findBestCertificateSatisfying.
  destruct (findBestLoop ParseCertificate t None certs) as [c |] eqn:Hrun.
  - by destruct (findBestLoop_Some _ _ _ _ Hrun) as [? | ?].
  - by destruct (findBestLoop_None _ _ _ Hrun).
Qed.

(** X2. [certBetterThan] never ranks two certificates both ways; in
    particular no certificate is better than itself. *)
Theorem certBetterThan_never_both_ways (a b : Certificate) :
  certBetterThan ParseCertificate a b && certBetterThan ParseCertificate b a
  = false.
Proof.
  destruct (Nat.le_gt_cases (length (Certificates a)) (length (Certificates b)))
    as [Hle | Hgt].
  - assert (H : certBetterThan ParseCertificate a b = false).
    { unfold certBetterThan.
      destruct (Nat.leb_spec (length (Certificates a))
                  (length (Certificates b))); [done | lia]. }
    by rewrite H.
  - rewrite (certBetterThan_shorter ParseCertificate b a) by done.
    apply andb_false_r.
Qed.

End MatcherMore.

(** The renewal moment of a certificate whose validity period is not
    negative lies within the period, at most thirty days before its end. *)
Lemma renewTime_within_validity (notBefore notAfter : time.Time) :
  notBefore <= notAfter ->
  notBefore <= renewTime notBefore notAfter <= notAfter
  /\ notAfter - thirtyDays <= renewTime notBefore notAfter.
Proof.
  intros Hle. rewrite renewTime_span by done. rewrite thirtyDays_value.
  assert (H0 : 0 <= notAfter - notBefore) by lia.
  assert (Hd : 0 <= (notAfter - notBefore) / 3 <= notAfter - notBefore).
  { split; [apply Z.div_pos; lia |].
    apply Z.div_le_upper_bound; lia. }
  lia.
Qed.

(** X3. A certificate whose end-entity certificate parses with a validity
    period that is not negative is not due for renewal before the period
    begins, is due once the period has ended, and, once due, stays due. *)
Theorem certificateNeedsRenewing_over_time
    (ParseCertificate : list Byte.byte -> option x509Certificate)
    (c : Certificate) der rest cc :
  Certificates c = der :: rest ->
  ParseCertificate der = Some cc ->
  NotBefore cc <= NotAfter cc ->
  (forall now, now < NotBefore cc ->
     certificateNeedsRenewing ParseCertificate now c = false)
  /\ (forall now, NotAfter cc <= now ->
      certificateNeedsRenewing ParseCertificate now c = true)
  /\ (forall now now', now <= now' ->
      certificateNeedsRenewing ParseCertificate now c = true ->
      certificateNeedsRenewing ParseCertificate now' c = true).
Proof.
  intros Hc Hp Hle.
  destruct (renewTime_within_validity _ _ Hle) as [[Hlo Hhi] _].
  assert (Hdef : forall now,
    certificateNeedsRenewing ParseCertificate now c
    = negb (now <? renewTime (NotBefore cc) (NotAfter cc))).
  { intros now. unfold certificateNeedsRenewing. by rewrite Hc, Hp. }
  repeat split.
  - intros now Hnow. rewrite Hdef, negb_false_iff, Z.ltb_lt. lia.
  - intros now Hnow. rewrite Hdef, negb_true_iff, Z.ltb_ge. lia.
  - intros now now' Hnn. rewrite !Hdef, !negb_true_iff, !Z.ltb_ge. lia.
Qed.

(** The statement at the certificate valid from 0 to 100, which is due from
    instant 67 on. *)
Lemma certificateNeedsRenewing_over_time_witness :
  0 <= 100
  /\ certificateNeedsRenewing sampleParse (-1) earlierCert = false
  /\ certificateNeedsRenewing sampleParse 100 earlierCert = true.
Proof.
  assert (Hle : 0 <= 100) by lia.
  destruct (certificateNeedsRenewing_over_time sampleParse earlierCert
              _ _ _ eq_refl eq_refl Hle) as (Hbefore & Hafter & _).
  split; [exact Hle |].
  split; [apply Hbefore; reflexivity | apply Hafter; vm_compute; discriminate].
Defined.

(** ** Disjoining targets, continued *)

Lemma claimNames_appends key names : forall m red m' red',
  claimNames key m red names = (m', red') ->
  exists r, red' = red ++ r /\ r `sublist_of` names /\ NoDup r
    /\ forall h, h ∈ r -> m !! h = None.
Proof.
  induction names as [| n names IH]; intros m red m' red' Hrun; simpl in Hrun.
  - injection Hrun as <- <-. exists []. rewrite app_nil_r.
    split; [done | split; [constructor | split; [constructor |]]].
    intros h Hh. inversion Hh.
  - destruct (m !! n) as [v |] eqn:Hn.
    + destruct (IH _ _ _ _ Hrun) as (r & -> & Hsub & Hnd & Hfree).
      exists r. split; [done | split; [by apply sublist_cons | done]].
    + destruct (IH _ _ _ _ Hrun) as (r & -> & Hsub & Hnd & Hfree).
      exists (n :: r). rewrite <- app_assoc.
      split; [done | split; [| split]].
      * by apply sublist_skip.
      * apply NoDup_cons. split; [| done]. intros Hin.
        specialize (Hfree n Hin). by rewrite lookup_insert_eq in Hfree.
      * intros h Hh. apply elem_of_cons in Hh as [-> | Hh]; [done |].
        specialize (Hfree h Hh).
        destruct (decide (n = h)) as [-> | Hne];
          [by rewrite lookup_insert_eq in Hfree
          | by rewrite lookup_insert_ne in Hfree].
Qed.

Lemma disjoinLoop_reducedNames ts : forall m m' ts',
  disjoinLoop m ts = (m', ts') ->
  Forall (fun kt =>
            NoDup (TargetSatisfy.ReducedNames (Satisfy kt.2))
            /\ TargetSatisfy.ReducedNames (Satisfy kt.2)
               `sublist_of` TargetSatisfy.Names (Satisfy kt.2)) ts'.
Proof.
  induction ts as [| [k t] ts IH]; intros m m' ts' Hrun; simpl in Hrun.
  - injection Hrun as <- <-. constructor.
  - destruct (claimNames k m [] _) as [m1 red] eqn:Hc.
    destruct (disjoinLoop m1 ts) as [m2 rest'] eqn:Hl.
    injection Hrun as <- <-.
    destruct (claimNames_appends _ _ _ _ _ _ Hc) as (r & -> & Hsub & Hnd & _).
    constructor; [by split | by eapply IH].
Qed.

Lemma disjoinLoop_mapping ts : forall m m' ts' h,
  disjoinLoop m ts = (m', ts') ->
  m' !! h = match m !! h with
            | Some v => Some v
            | None => firstOwner h ts
            end.
Proof.
  induction ts as [| [k t] ts IH]; intros m m' ts' h Hrun; simpl in Hrun.
  - injection Hrun as <- <-. by destruct (m !! h).
  - destruct (claimNames k m [] _) as [m1 red] eqn:Hc.
    destruct (disjoinLoop m1 ts) as [m2 rest'] eqn:Hl.
    injection Hrun as <- <-.
    rewrite (IH _ _ _ h Hl), (claimNames_mapping _ _ _ _ _ _ h Hc). simpl.
    destruct (m !! h); [done |]. by case_bool_decide.
Qed.

Lemma firstOwner_None h ts :
  firstOwner h ts = None
  <-> forall fn t, (fn, t) ∈ ts -> h ∉ TargetSatisfy.Names (Satisfy t).
Proof.
  induction ts as [| [k t0] ts IH]; simpl.
  - split; [intros _ fn t Hin; inversion Hin | done].
  - case_bool_decide as Hh.
    + split; [done |]. intros H. exfalso. by apply (H k t0); [left |].
    + rewrite IH. split.
      * intros H fn t Hin. apply elem_of_cons in Hin as [[= -> ->] | Hin];
          [done | by apply (H fn t)].
      * intros H fn t Hin. apply (H fn t). by right.
Qed.

Lemma firstOwner_split h ts k :
  firstOwner h ts = Some k ->
  exists pre t post,
    ts = pre ++ (k, t) :: post
    /\ h ∈ TargetSatisfy.Names (Satisfy t)
    /\ forall fn t', (fn, t') ∈ pre -> h ∉ TargetSatisfy.Names (Satisfy t').
Proof.
  induction ts as [| [k0 t0] ts IH]; simpl; [done |].
  case_bool_decide as Hh.
  - intros [= <-]. exists [], t0, ts. repeat split; [done |].
    intros fn t' Hin. inversion Hin.
  - intros Hrest. destruct (IH Hrest) as (pre & t & post & -> & Ht & Hpre).
    exists ((k0, t0) :: pre), t, post. repeat split; [done |].
    intros fn t' Hin. apply elem_of_cons in Hin as [[= -> ->] | Hin];
      [done | by apply (Hpre fn t')].
Qed.

Section DisjoinMore.

Variable targetGt : Target -> Target -> bool.

(** X4. After [disjoinTargets] the reduced names of every target are some of
    its satisfy.names, in the same order and without repetition. *)
Theorem disjoinTargets_reducedNames (s : Store) :
  Forall (fun kt =>
            NoDup (TargetSatisfy.ReducedNames (Satisfy kt.2))
            /\ TargetSatisfy.ReducedNames (Satisfy kt.2)
               `sublist_of` TargetSatisfy.Names (Satisfy kt.2))
    (targets (disjoinTargets targetGt s).1).
Proof.
  unfold disjoinTargets.
  destruct (disjoinLoop ∅ _) as [m' ts'] eqn:Hl. simpl.
  by eapply disjoinLoop_reducedNames.
Qed.

(** X5. [disjoinTargets] maps a hostname to the first target, in the sorted
    order of the walk, whose satisfy.names hold it; a hostname that no
    target wants is not mapped. *)
Theorem disjoinTargets_first_owner (s : Store) (h : string) :
  hostnameTargetMapping (disjoinTargets targetGt s).1 !! h
  = firstOwner h (sortStable (reverseTargetSorterLess targetGt) (targets s))
  /\ (hostnameTargetMapping (disjoinTargets targetGt s).1 !! h = None
      <-> forall fn t, (fn, t) ∈ targets s ->
            h ∉ TargetSatisfy.Names (Satisfy t)).
Proof.
  unfold disjoinTargets.
  destruct (disjoinLoop ∅ _) as [m' ts'] eqn:Hl. simpl.
  pose proof (disjoinLoop_mapping _ _ _ _ h Hl) as Hm.
  rewrite lookup_empty in Hm. split; [done |].
  rewrite Hm, firstOwner_None. split.
  - intros H fn t Hin. apply (H fn t). by rewrite sortStable_perm.
  - intros H fn t Hin. apply (H fn t). by rewrite sortStable_perm in Hin.
Qed.

Lemma insertSorted_sorted less x l :
  (forall a b, less a b = true -> less b a = false) ->
  (forall a b c, less a b = false -> less b c = false -> less a c = false) ->
  sortedBy less l -> sortedBy less (insertSorted less x l).
Proof.
  intros Hasym Htrans. unfold sortedBy.
  induction l as [| y l IH]; intros Hs; simpl.
  - by repeat constructor.
  - apply StronglySorted_inv in Hs as [Hs Hy].
    destruct (less y.2 x.2) eqn:Hyx.
    + constructor; [by apply IH |].
      rewrite insertSorted_perm. constructor; [by apply Hasym | done].
    + constructor; [by constructor |].
      constructor; [done |].
      eapply Forall_impl; [exact Hy |]. intros z Hz. simpl in Hz.
      by apply (Htrans _ y.2).
Qed.

Lemma sortStable_sorted less l :
  (forall a b, less a b = true -> less b a = false) ->
  (forall a b c, less a b = false -> less b c = false -> less a c = false) ->
  sortedBy less (sortStable less l).
Proof.
  intros Hasym Htrans. induction l as [| x l IH].
  - constructor.
  - by apply insertSorted_sorted.
Qed.

Lemma sortedBy_after less pre x post y :
  sortedBy less (pre ++ x :: post) -> y ∈ post -> less y.2 x.2 = false.
Proof.
  unfold sortedBy. induction pre as [| z pre IH]; simpl; intros Hs Hy.
  - apply StronglySorted_inv in Hs as [_ Hall].
    rewrite Forall_forall in Hall. by apply Hall.
  - apply StronglySorted_inv in Hs as [Hs _]. by apply IH.
Qed.

(** X6. When [targetGt] is a strict weak order (it never ranks two targets
    both ways, and "not greater" is transitive), a hostname that two targets
    want is not mapped to the one that [targetGt] ranks below the other. *)
Theorem disjoinTargets_lower_rank_loses (s : Store) (h : string)
    k1 t1 k2 t2 :
  (forall a b, targetGt a b = true -> targetGt b a = false) ->
  (forall a b c, targetGt a b = false -> targetGt b c = false ->
                 targetGt a c = false) ->
  NoDup (targets s).*1 ->
  (k1, t1) ∈ targets s -> (k2, t2) ∈ targets s ->
  targetGt t1 t2 = true ->
  h ∈ TargetSatisfy.Names (Satisfy t1) ->
  hostnameTargetMapping (disjoinTargets targetGt s).1 !! h <> Some k2.
Proof.
  intros Hasym Htrans Hnd H1 H2 Hgt Hh Hmap.
  unfold disjoinTargets in Hmap.
  destruct (disjoinLoop ∅ _) as [m' ts'] eqn:Hl. simpl in Hmap.
  rewrite (disjoinLoop_mapping _ _ _ _ h Hl), lookup_empty in Hmap.
  set (L := sortStable (reverseTargetSorterLess targetGt) (targets s)) in *.
  assert (Hperm : L ≡ₚ targets s) by apply sortStable_perm.
  assert (HndL : NoDup L.*1) by (by rewrite Hperm).
  assert (Hsorted : sortedBy (reverseTargetSorterLess targetGt) L)
    by (by apply sortStable_sorted).
  destruct (firstOwner_split _ _ _ Hmap) as (pre & t & post & HL & Ht & Hpre).
  assert (H2L : (k2, t2) ∈ L) by (by rewrite Hperm).
  assert (H1L : (k1, t1) ∈ L) by (by rewrite Hperm).
  rewrite HL in HndL, H2L, H1L, Hsorted.
  rewrite fmap_app, fmap_cons in HndL. simpl in HndL.
  apply NoDup_app in HndL as (_ & Hdisj & Hnd2).
  apply NoDup_cons in Hnd2 as [Hk2 _].
  assert (Heq : t = t2).
  { apply elem_of_app in H2L as [Hin | Hin].
    - exfalso. apply (Hdisj k2); [| by left].
      apply list_elem_of_fmap. by exists (k2, t2).
    - apply elem_of_cons in Hin as [[= ->] | Hin]; [done |].
      exfalso. apply Hk2. apply list_elem_of_fmap. by exists (k2, t2). }
  subst t.
  apply elem_of_app in H1L as [Hin | Hin].
  - by apply (Hpre k1 t1).
  - apply elem_of_cons in Hin as [[= -> ->] | Hin].
    + specialize (Hasym _ _ Hgt). congruence.
    + pose proof (sortedBy_after _ _ _ _ _ Hsorted Hin) as Hle.
      unfold reverseTargetSorterLess in Hle. simpl in Hle. congruence.
Qed.

End DisjoinMore.

(** The statement at the two overlapping targets, ranked by priority: [b] is
    not mapped to [t2], of priority 0. *)
Lemma disjoinTargets_lower_rank_loses_witness :
  NoDup (targets overlapStore).*1
  /\ sampleTargetGt overlapT1 overlapT2 = true
  /\ hostnameTargetMapping (disjoinTargets sampleTargetGt overlapStore).1 !! "b"
     <> Some "t2".
Proof.
  assert (Hnd : NoDup (targets overlapStore).*1).
  { simpl. repeat (apply NoDup_cons; split; [set_solver |]). apply NoDup_nil_2. }
  split; [exact Hnd |]. split; [reflexivity |].
  apply (disjoinTargets_lower_rank_loses sampleTargetGt overlapStore "b"
           "t1" overlapT1 "t2" overlapT2).
  - unfold sampleTargetGt. intros a b. rewrite Z.ltb_lt, Z.ltb_ge. lia.
  - unfold sampleTargetGt. intros a b c. rewrite !Z.ltb_ge. lia.
  - exact Hnd.
  - right. left.
  - left.
  - reflexivity.
  - simpl. right. left.
Defined.

(** ** Authorizations needed, continued *)

Lemma filter_nil_iff {A} (P : A -> Prop) `{HP : !forall x, Decision (P x)}
    (l : list A) :
  filter P l = [] <-> forall x, x ∈ l -> ~ P x.
Proof.
  induction l as [| x l IH]; [by split; [intros _ y Hy; inversion Hy |] |].
  rewrite filter_cons. case_decide as Hx.
  - split; [done |]. intros H. exfalso. apply (H x); [by left | done].
  - rewrite IH. split.
    + intros H y Hy. apply elem_of_cons in Hy as [-> | Hy]; auto.
    + intros H y Hy. apply H. by right.
Qed.

Lemma filter_all {A} (P : A -> Prop) `{HP : !forall x, Decision (P x)}
    (l : list A) :
  (forall x, x ∈ l -> P x) -> filter P l = l.
Proof.
  induction l as [| x l IH]; intros H; [done |].
  rewrite filter_cons_True by (apply H; by left).
  f_equal. apply IH. intros y Hy. apply H. by right.
Qed.

(** X7. For a target with an account, the names that
    [determineNecessaryAuthorizations] returns are empty exactly when the
    account holds a valid authorization for every request name, and are all
    of request.names when every authorization of the account has expired
    (expiry <= now), as when it holds none; expired authorizations are
    ignored, not removed. *)
Theorem determineNecessaryAuthorizations_edges (now : time.Time)
    (t : Target) (a : Account) :
  TargetRequest.Account (Request t) = Some a ->
  exists l,
    determineNecessaryAuthorizations now t = Some (l, None)
    /\ l `sublist_of` TargetRequest.Names (Request t)
    /\ (l = [] <-> forall n, n ∈ TargetRequest.Names (Request t) ->
                     holdsValidAuthorization now a n)
    /\ ((forall k auth, (k, auth) ∈ mapEntries (Authorizations a) ->
         Expires auth <= now) ->
        l = TargetRequest.Names (Request t)).
Proof.
  intros Ha. unfold determineNecessaryAuthorizations. rewrite Ha.
  eexists. split; [reflexivity |].
  rewrite keepNeeded_filter.
  rewrite (filter_dropAuthorized now a)
    by (intros n Hn; by apply elem_of_list_to_set).
  split; [apply sublist_filter |]. split.
  - rewrite filter_nil_iff. split.
    + intros H n Hn. specialize (H n Hn).
      destruct (decide (holdsValidAuthorization now a n)); [done | tauto].
    + intros H n Hn Hno. by apply Hno, H.
  - intros Hexp. apply filter_all. intros n _ Hvalid.
    unfold holdsValidAuthorization in Hvalid.
    apply Exists_exists in Hvalid as ([k auth] & Hin & _ & Hlt).
    specialize (Hexp k auth Hin). simpl in Hlt. lia.
Qed.

(** The statement at a target for [a.test] whose account holds one
    authorization, for [a.test], that ran out at instant 5, read at 10. *)
Lemma determineNecessaryAuthorizations_edges_witness :
  let a := {| PrivateKey := "account key";
              BaseURL := "https://acme.test/directory";
              Authorizations :=
                Some
                  [("a.test",
                    mkAuthorization "a.test" "https://acme.test/az/1" 5)] |} in
  let t := {| Satisfy := TargetSatisfy.mk ["a.test"] [];
              Request := TargetRequest.mk ["a.test"] true EmptyString (Some a);
              Priority := 0; LegacyNames := [];
              LegacyProvider := EmptyString |} in
  determineNecessaryAuthorizations 10 t = Some (["a.test"], None).
Proof.
  intros a t.
  destruct (determineNecessaryAuthorizations_edges 10 t a eq_refl)
    as (l & Hrun & _ & _ & Hexp).
  rewrite Hrun, Hexp; [reflexivity |].
  intros k auth Hin. apply list_elem_of_singleton in Hin as [= -> ->].
  simpl. lia.
Defined.

(** ** Adding and removing targets, continued *)

Lemma withTargets_same s : withTargets s (targets s) = s.
Proof. by destruct s. Qed.

Section AddRemoveMore.

Variable ioFault : string -> option error.
Variable yamlMarshal : TargetDoc -> result string.
Variable ToLower : string -> string.
Variable base32Encode : list Byte.byte -> string.
Variable validHostname : string -> bool.

Lemma serializeTarget_frame s filename tgt :
  let run := serializeTarget ioFault yamlMarshal s filename tgt in
  targets run.1 = targets s /\ confFiles run.1 = confFiles s
  /\ certs run.1 = certs s /\ accounts run.1 = accounts s
  /\ hostnameTargetMapping run.1 = hostnameTargetMapping s
  /\ (forall fn, fn <> filename ->
      desiredFiles run.1 !! fn = desiredFiles s !! fn)
  /\ (run.2 <> None -> run.1 = s).
Proof.
  unfold serializeTarget, fdbWriteBytes.
  destruct (yamlMarshal _) as [e | b]; [by repeat split |].
  destruct (ioFault _) as [e |]; simpl.
  - repeat split; try done. intros _. apply withDesiredFiles_same.
  - repeat split; try done. intros fn Hne. by rewrite lookup_insert_ne.
Qed.

(** X8. [AddTarget] changes nothing but, at most, the one file of [desired]
    that it names after the target; the targets in memory are as before (the
    new target is there only after the store is loaded again), and when it
    returns an error the store is as before. *)
Theorem AddTarget_frame (s : Store) (tgt : Target) (uuid : list Byte.byte) :
  let run := AddTarget ioFault yamlMarshal ToLower base32Encode validHostname
               s tgt uuid in
  targets run.1 = targets s /\ confFiles run.1 = confFiles s
  /\ certs run.1 = certs s /\ accounts run.1 = accounts s
  /\ hostnameTargetMapping run.1 = hostnameTargetMapping s
  /\ (forall fn, fn <> makeUniqueTargetName ToLower base32Encode tgt uuid ->
      desiredFiles run.1 !! fn = desiredFiles s !! fn)
  /\ (run.2 <> None -> run.1 = s).
Proof.
  unfold AddTarget.
  destruct (length _ =? 0)%nat; [by repeat split |].
  destruct (firstInvalidHostname _ _); [by repeat split |].
  destruct (findTargetWithAllNames _ _); [by repeat split |].
  apply serializeTarget_frame.
Qed.

(** A hostname that no target has to satisfy: every entry is skipped. *)
Lemma removeTargetHostnameLoop_skip h : forall todo s done,
  (forall fn t, (fn, t) ∈ todo -> h ∉ TargetSatisfy.Names (Satisfy t)) ->
  removeTargetHostnameLoop ioFault yamlMarshal h s done todo
  = (withTargets s (done ++ todo), None).
Proof.
  induction todo as [| [fn tgt] todo IH]; intros s done Hno.
  - simpl. by rewrite app_nil_r.
  - rewrite removeTargetHostnameLoop_cons.
    destruct (containsName (TargetSatisfy.Names (Satisfy tgt)) h) eqn:Hc.
    + exfalso. apply containsName_spec in Hc. by apply (Hno fn tgt); [left |].
    + cbn [negb]. rewrite IH; [by rewrite <- app_assoc |].
      intros fn' t' Hin. apply (Hno fn' t'). by right.
Qed.

(** X9. [RemoveTargetHostname] of a hostname that no loaded target has among
    its satisfy.names returns nil and leaves the store as it is; no file is
    touched, so it does so whatever the state of the disk. *)
Theorem RemoveTargetHostname_absent (s : Store) (h : string) :
  (forall fn t, (fn, t) ∈ targets s -> h ∉ TargetSatisfy.Names (Satisfy t)) ->
  RemoveTargetHostname ioFault yamlMarshal s h = (s, None).
Proof.
  intros Hno. unfold RemoveTargetHostname.
  rewrite removeTargetHostnameLoop_skip by done. simpl.
  by rewrite withTargets_same.
Qed.

(** X10. After a [RemoveTargetHostname] that returned nil, no loaded target
    has the hostname among its satisfy.names, and removing the hostname once
    more returns nil and changes nothing. *)
Theorem RemoveTargetHostname_then_absent (s s' : Store) (h : string) :
  RemoveTargetHostname ioFault yamlMarshal s h = (s', None) ->
  (forall fn t, (fn, t) ∈ targets s' -> h ∉ TargetSatisfy.Names (Satisfy t))
  /\ RemoveTargetHostname ioFault yamlMarshal s' h = (s', None).
Proof.
  intros Hrun. unfold RemoveTargetHostname in Hrun.
  destruct (removeTargetHostnameLoop_ok _ _ _ _ _ _ _ Hrun) as (Ht & _ & _).
  simpl in Ht.
  assert (Hno : forall fn t, (fn, t) ∈ targets s' ->
                  h ∉ TargetSatisfy.Names (Satisfy t)).
  { intros fn t Hin. rewrite Ht in Hin.
    apply list_elem_of_fmap in Hin as ([fn0 t0] & [= -> ->] & _).
    unfold visitTarget. simpl.
    destruct (containsName (TargetSatisfy.Names (Satisfy t0)) h) eqn:Hc.
    - simpl. rewrite removeStringFromList_filter, list_elem_of_filter.
      by intros [? _].
    - rewrite <- containsName_spec. congruence. }
  split; [exact Hno |].
  unfold RemoveTargetHostname.
  rewrite removeTargetHostnameLoop_skip by done. simpl.
  by rewrite withTargets_same.
Qed.

End AddRemoveMore.

(** The statement at the store whose one target does not have to satisfy
    [b.test], on a disk on which every operation fails. *)
Lemma RemoveTargetHostname_absent_witness :
  RemoveTargetHostname (fun _ => Some (errorString "read-only file system"))
    sampleMarshal requestOnlyStore "b.test"
  = (requestOnlyStore, None).
Proof.
  apply RemoveTargetHostname_absent.
  intros fn t Hin. apply list_elem_of_singleton in Hin as [= -> ->].
  simpl. set_solver.
Defined.

(** The statement at the store with three targets and the hostname
    [b.test]. *)
Lemma RemoveTargetHostname_then_absent_witness :
  let s' := (RemoveTargetHostname sampleIoFault sampleMarshal
               threeTargetStore "b.test").1 in
  (forall fn t, (fn, t) ∈ targets s' ->
     "b.test" ∉ TargetSatisfy.Names (Satisfy t))
  /\ RemoveTargetHostname sampleIoFault sampleMarshal s' "b.test" = (s', None).
Proof.
  intros s'.
  apply (RemoveTargetHostname_then_absent sampleIoFault sampleMarshal
           threeTargetStore s' "b.test").
  reflexivity.
Defined.

(** ** Reconciling, continued *)

Section ReconcileMore.

Variable ioFault : string -> option error.
Variable List : gmap string string -> result (list string).
Variable yamlUnmarshal : string -> result TargetDoc.
Variable ToLower : string -> string.
Variable Quote : string -> string.
Variable validHostname : string -> bool.
Variable targetGt : Target -> Target -> bool.
Variable ValidURL : string -> bool.
Variable DefaultDirectoryURL : string.
Variable createNewAccount : Store -> string -> Store * result Account.
Variable loadAccounts loadKeys loadCerts linkTargets
  : Store -> Store * option error.
Variable downloadUncachedCertificates : Store -> Store * option error.
Variable requestCertificateForTarget
  : Store -> Target -> option (Store * option error).
Variable ParseCertificate : list Byte.byte -> option x509Certificate.
Variable now : time.Time.
Variable rangeCerts
  : nat -> list (string * Certificate) -> list (string * Certificate).

Lemma targetPass_upToDate ts : forall k s merr,
  (forall key t, (key, t) ∈ ts ->
     forall i, upToDate ParseCertificate now (rangeCerts i (certs s)) t = true) ->
  targetPass requestCertificateForTarget ParseCertificate now rangeCerts
    k s ts merr
  = Some (s, merr)
  /\ requestsMade requestCertificateForTarget ParseCertificate now rangeCerts
       k s ts = [].
Proof.
  induction ts as [| [key t] ts IH]; intros k s merr Hup; [done |].
  cbn [targetPass requestsMade].
  pose proof (Hup key t ltac:(by left) k) as Ht.
  rewrite Ht. unfold upToDate in Ht. rewrite Ht.
  apply IH. intros key' t' Hin. apply (Hup key' t'). by right.
Qed.

(** X11. When no certificate of the store is uncached and every target has,
    in whatever order its search ranges over the certificates, a best
    certificate that does not need renewing, [reconcile] returns nil, leaves
    the store as it is and calls [requestCertificateForTarget] not once. *)
Theorem reconcile_nothing_to_do (s : Store) :
  (forall k l, rangeCerts k l ≡ₚ l) ->
  haveUncachedCertificates s = false ->
  (forall key t cs, (key, t) ∈ targets s -> cs ≡ₚ certs s ->
     upToDate ParseCertificate now cs t = true) ->
  reconcile ioFault List yamlUnmarshal ToLower Quote validHostname
    targetGt ValidURL DefaultDirectoryURL createNewAccount loadAccounts
    loadKeys loadCerts linkTargets downloadUncachedCertificates
    requestCertificateForTarget ParseCertificate now rangeCerts s
  = Some (s, None)
  /\ requestsMade requestCertificateForTarget ParseCertificate now rangeCerts
       0 s (targets s) = [].
Proof.
  intros Hperm Hc Hup.
  destruct (targetPass_upToDate (targets s) 0 s []) as [Hpass Hreq].
  { intros key t Hin i. by apply (Hup key t). }
  split; [| exact Hreq].
  unfold reconcile, reconcileTargets. by rewrite Hc, Hpass.
Qed.

Lemma requestsMade_targets ts : forall k s,
  (length (requestsMade requestCertificateForTarget ParseCertificate now
             rangeCerts k s ts)
   <= length ts)%nat
  /\ forall t r,
       (t, r) ∈ requestsMade requestCertificateForTarget ParseCertificate now
                  rangeCerts k s ts ->
       t ∈ ts.*2.
Proof.
  induction ts as [| [key t] ts IH]; intros k s.
  - split; [done |]. intros t r Hin. inversion Hin.
  - cbn [requestsMade]. destruct (upToDate _ _ _ t).
    + destruct (IH (S k) s) as [Hlen Hin]. split; [simpl; lia |].
      intros t' r H. right. by apply (Hin t' r).
    + destruct (requestCertificateForTarget s t) as [[s1 r1] |].
      * destruct (IH (S k) s1) as [Hlen Hin].
        split; [simpl; lia |].
        intros t' r H. apply elem_of_cons in H as [[= -> ->] | H];
          [by left |].
        right. by apply (Hin t' r).
      * split; [simpl; lia |]. intros t' r H.
        apply list_elem_of_singleton in H as [= -> ->]. by left.
Qed.

Lemma failures_length run : (length (failures run) <= length run)%nat.
Proof.
  induction run as [| [t [[e |] |]] run IH]; simpl; [done | | |];
    unfold failures in *; simpl; lia.
Qed.

(** X12. The error that the target pass of [reconcile] returns is never
    anything but a [MultiError] that holds at least one error and at most as
    many as the store has targets, each of them a [TargetSpecificError] that
    carries one of the targets of the store. *)
Theorem reconcileTargets_error_shape (s : Store) :
  match
    reconcileTargets requestCertificateForTarget ParseCertificate now
      rangeCerts s
  with
  | Some (_, Some e) =>
      exists merr, e = MultiError merr
        /\ (0 < length merr <= length (targets s))%nat
        /\ Forall (fun e0 => exists t err,
                     e0 = TargetSpecificError t err /\ t ∈ (targets s).*2)
             merr
  | _ => True
  end.
Proof.
  unfold reconcileTargets.
  pose proof (targetPass_failures requestCertificateForTarget
                ParseCertificate now rangeCerts (targets s) 0 s []) as Hf.
  destruct (targetPass _ _ _ _ 0 s (targets s) []) as [[s1 m] |]; [| done].
  destruct Hf as [_ Hf]. cbn [app] in Hf.
  destruct (requestsMade_targets (targets s) 0 s) as [Hlen Hin].
  pose proof (failures_length
                (requestsMade requestCertificateForTarget ParseCertificate
                   now rangeCerts 0 s (targets s))) as Hfl.
  destruct (length m =? 0)%nat eqn:Hz; cbn [negb]; [done |].
  apply Nat.eqb_neq in Hz.
  exists m. split; [done |]. split; [subst m; lia |].
  apply Forall_forall. intros e0 He0. subst m. unfold failures in He0.
  apply list_elem_of_omap in He0 as ([t r] & Hr & Heq). simpl in Heq.
  destruct r as [[err |] |]; [| done | done]. injection Heq as <-.
  exists t, err. split; [done |]. by apply (Hin t (Some (Some err))).
Qed.

End ReconcileMore.

(** The statement at a store whose one target, for [a.test], has two cached
    certificates of equal length, valid from 0 to 200 and from 0 to 100,
    read at instant 10; either is found, by the order of the range, and
    neither needs renewing. Every request would panic. *)
Lemma reconcile_nothing_to_do_witness :
  let s := aTestStore [("later", laterCert); ("earlier", earlierCert)] in
  let panics := fun (_ : Store) (_ : Target) => @None (Store * option error) in
  let same := fun s : Store => (s, @None error) in
  reconcile sampleIoFault sampleList sampleUnmarshal sampleToLower sampleQuote
    sampleValidHostname sampleTargetGt sampleValidURL
    "https://acme.test/directory" sampleCreateNewAccount same same same same
    same panics sampleParse 10 sampleRange s
  = Some (s, None)
  /\ requestsMade panics sampleParse 10 sampleRange 0 s (targets s) = [].
Proof.
  intros s panics same. apply reconcile_nothing_to_do.
  - intros k l. unfold sampleRange. destruct (Nat.even k); [done |].
    apply reverse_Permutation.
  - reflexivity.
  - intros key t cs Hin Hperm.
    apply list_elem_of_singleton in Hin as [= -> ->].
    symmetry in Hperm.
    apply Permutation_length_2_inv in Hperm as [-> | ->];
      vm_compute; reflexivity.
Defined.

(** ** The http-01 responder, continued *)

Lemma lastByte_TrimRight1 (s : string) (c : ascii) :
  lastByte (TrimRight1 s c) <> Some c.
Proof.
  induction s as [| a rest IH]; [done |].
  cbn [TrimRight1].
  destruct (TrimRight1 rest c) as [| b r'] eqn:Hr.
  - case_bool_decide; [done |]. simpl. congruence.
  - exact IH.
Qed.

Lemma addWebroots_spec paths : forall (acc : gset string) (p : string),
  p ∈ addWebroots acc paths
  <-> p ∈ acc \/ exists q, q ∈ paths /\ q <> EmptyString
                    /\ p = TrimRight1 q "/".
Proof.
  induction paths as [| q paths IH]; intros acc p; simpl.
  - split; [by left |]. intros [H | (q & Hq & _)]; [done | inversion Hq].
  - rewrite IH. case_bool_decide as Hq; split.
    + intros [H | (q' & Hin & Hne & ->)].
      * apply elem_of_union in H as [H | H]; [| by left].
        apply elem_of_singleton in H as ->. right. exists q.
        split; [by left | done].
      * right. exists q'. split; [by right | done].
    + intros [H | (q' & Hin & Hne & ->)].
      * left. set_solver.
      * apply elem_of_cons in Hin as [-> | Hin]; [left; set_solver |].
        right. by exists q'.
    + intros [H | (q' & Hin & Hne & ->)]; [by left |].
      right. exists q'. split; [by right | done].
    + intros [H | (q' & Hin & Hne & ->)]; [by left |].
      apply elem_of_cons in Hin as [-> | Hin]; [done |].
      right. by exists q'.
Qed.

(** X13. Whatever value the program gave the variable [StandardWebrootPath],
    after [init] it holds that value, or the default when the value was
    empty, and is not empty. The webroots of [getWebroots] are this standard
    path, as it is, and every configured web path that is not empty, without
    its trailing slashes; so every webroot but the standard path ends in no
    slash, and a web path of slashes only gives the empty webroot. *)
Theorem getWebroots_members (s : httpResponder) :
  (forall set, init set <> EmptyString
     /\ (set <> EmptyString -> init set = set)
     /\ (set = EmptyString -> init set = "/var/run/acme/acme-challenge"))
  /\ getWebroots s = getWebrootsWith (init EmptyString) s
  /\ (forall set p, p ∈ getWebrootsWith (init set) s
      <-> p = init set
          \/ exists q, q ∈ WebPaths (challengeConfig (rcfg s))
               /\ q <> EmptyString /\ p = TrimRight1 q "/")
  /\ (forall set p, p ∈ getWebrootsWith (init set) s ->
      p = init set \/ lastByte p <> Some "/"%char)
  /\ ("/" ∈ WebPaths (challengeConfig (rcfg s)) ->
      forall set, EmptyString ∈ getWebrootsWith (init set) s).
Proof.
  assert (Hm : forall set p, p ∈ getWebrootsWith (init set) s
     <-> p = init set
         \/ exists q, q ∈ WebPaths (challengeConfig (rcfg s))
              /\ q <> EmptyString /\ p = TrimRight1 q "/").
  { intros set p. unfold getWebrootsWith.
    rewrite elem_of_union, elem_of_singleton.
    rewrite addWebroots_spec. set_solver. }
  split; [| split; [done |]; split; [exact Hm |]; split].
  - intros set. unfold init. case_bool_decide as Hset.
    + subst set. by repeat split.
    + by repeat split.
  - intros set p Hp. apply Hm in Hp as [-> | (q & _ & _ & ->)]; [by left |].
    right. apply lastByte_TrimRight1.
  - intros Hin set. apply Hm. right. exists "/". by repeat split.
Qed.

(** [notify] on a channel that is full leaves it as it is. *)
Lemma notify_full (n c : nat) : (1 <= c)%nat -> Nat.iter n notify c = c.
Proof.
  intros Hc. induction n as [| n IH]; [done |].
  simpl. rewrite IH. unfold notify.
  destruct (Nat.ltb_spec c 1); [lia | done].
Qed.

(** X14. However many times [notify] runs on the empty channel, once or
    more, one value is waiting afterwards: the send never blocks and the
    notifications after the first are dropped. *)
Theorem notify_coalesces (n : nat) : Nat.iter (S n) notify 0%nat = 1%nat.
Proof.
  induction n as [| n IH]; [done |].
  change (Nat.iter (S (S n)) notify 0%nat)
    with (notify (Nat.iter (S n) notify 0%nat)).
  by rewrite IH.
Qed.

Lemma addListenAddrs_spec (ParseUint16 : string -> option N)
    (ResolveTCPAddr : string -> option string) addrs :
  forall (m : gset string) (a : string),
  a ∈ addListenAddrs ParseUint16 ResolveTCPAddr m addrs
  <-> a ∈ m
      \/ exists p, p ∈ addrs
           /\ match ParseUint16 p with
              | Some n => a = "[::1]:" +:+ pretty n
                          \/ a = "127.0.0.1:" +:+ pretty n
              | None => ResolveTCPAddr p = Some a
              end.
Proof.
  induction addrs as [| p addrs IH]; intros m a; simpl.
  - split; [by left |]. intros [H | (q & Hq & _)]; [done | inversion Hq].
  - destruct (ParseUint16 p) as [n |] eqn:Hp;
      [| destruct (ResolveTCPAddr p) as [ta |] eqn:Hr]; rewrite IH; split.
    + intros [H | (q & Hin & Hq)].
      * rewrite !elem_of_union, !elem_of_singleton in H.
        destruct H as [-> | [-> | H]]; [| | by left];
          right; exists p; (split; [by left |]); rewrite Hp; auto.
      * right. exists q. split; [by right | done].
    + intros [H | (q & Hin & Hq)]; [left; set_solver |].
      apply elem_of_cons in Hin as [-> | Hin].
      * rewrite Hp in Hq. left. set_solver.
      * right. by exists q.
    + intros [H | (q & Hin & Hq)].
      * apply elem_of_union in H as [H | H]; [| by left].
        apply elem_of_singleton in H as ->. right. exists p.
        split; [by left |]. by rewrite Hp.
      * right. exists q. split; [by right | done].
    + intros [H | (q & Hin & Hq)]; [left; set_solver |].
      apply elem_of_cons in Hin as [-> | Hin].
      * rewrite Hp, Hr in Hq. injection Hq as ->. left. set_solver.
      * right. by exists q.
    + intros [H | (q & Hin & Hq)]; [by left |].
      right. exists q. split; [by right | done].
    + intros [H | (q & Hin & Hq)]; [by left |].
      apply elem_of_cons in Hin as [-> | Hin].
      * rewrite Hp, Hr in Hq. done.
      * right. by exists q.
Qed.

Section ResponderMore.

Variable TrimSpace : string -> string.
Variable URLString : string -> string -> string -> string.
Variable filepathJoin : string -> string -> string.
Variable ParseUint16 : string -> option N.
Variable ResolveTCPAddr : string -> option string.
Variable netListen : string -> bool.
Variable openFile : string -> bool.
Variable httpGet : string -> getOutcome.

(** The walk over the addresses tries every one of them, and keeps a stop
    function for those that could be bound. *)
Lemma startListeners_events addrs : forall s,
  let run := startListeners netListen s addrs in
  run.2 = (fun a => EvListen a (netListen a)) <$> addrs
  /\ stopFuncs run.1 = stopFuncs s ++ filter (fun a => netListen a = true) addrs
  /\ rcfg run.1 = rcfg s /\ ka run.1 = ka s.
Proof.
  induction addrs as [| k addrs IH]; intros s; simpl.
  - by rewrite app_nil_r.
  - unfold startListener.
    destruct (netListen k) eqn:Hk; cbn [negb].
    + rewrite filter_cons_True by done.
      specialize (IH (setStopFuncs s (stopFuncs s ++ [k]))).
      destruct (startListeners netListen _ addrs) as [s2 evs2].
      cbn [fst snd] in *. destruct IH as (-> & -> & -> & ->).
      simpl. by rewrite <- app_assoc.
    + rewrite filter_cons_False by (by rewrite Hk).
      specialize (IH s).
      destruct (startListeners netListen s addrs) as [s2 evs2].
      cbn [fst snd] in *. by destruct IH as (-> & -> & -> & ->).
Qed.

(** X15. With [HTTPPorts] configured, [startActual] tries to listen on
    exactly the addresses that its entries give: both loopback addresses for
    an entry that is a port number, the resolved address for another entry
    that resolves, nothing for an entry that does neither; no default is
    added, so with no usable entry no listener is tried at all. *)
Theorem startActual_listens_on_configured (s : httpResponder)
    (ports : list string) :
  HTTPPorts (challengeConfig (rcfg s)) = Some ports ->
  forall a ok,
    EvListen a ok
      ∈ (startActual filepathJoin ParseUint16 ResolveTCPAddr netListen
           openFile s).1.2
    <-> ok = netListen a
        /\ exists p, p ∈ ports
             /\ match ParseUint16 p with
                | Some n => a = "[::1]:" +:+ pretty n
                            \/ a = "127.0.0.1:" +:+ pretty n
                | None => ResolveTCPAddr p = Some a
                end.
Proof using Type.
  intros Hports a ok. unfold startActual. rewrite Hports. simpl.
  pose proof (startListeners_events
                (elements (addListenAddrs ParseUint16 ResolveTCPAddr ∅ ports))
                s) as Hl.
  destruct (startListeners netListen s _) as [s1 evs]. simpl in Hl.
  destruct Hl as (-> & _).
  assert (Hmain : EvListen a ok
            ∈ ((fun a => EvListen a (netListen a))
                 <$> elements (addListenAddrs ParseUint16 ResolveTCPAddr
                                 ∅ ports))
          <-> ok = netListen a
              /\ exists p, p ∈ ports
                   /\ match ParseUint16 p with
                      | Some n => a = "[::1]:" +:+ pretty n
                                  \/ a = "127.0.0.1:" +:+ pretty n
                      | None => ResolveTCPAddr p = Some a
                      end).
  { rewrite list_elem_of_fmap. split.
    - intros (a' & [= -> ->] & Hin). split; [done |].
      apply elem_of_elements, addListenAddrs_spec in Hin as [Hin | Hin];
        [by apply elem_of_empty in Hin | done].
    - intros (-> & Hp). exists a. split; [done |].
      apply elem_of_elements, addListenAddrs_spec. by right. }
  assert (Hw : EvListen a ok
            ∉ webrootWriteChallenge filepathJoin openFile (getWebroots s1)
                (Token (rcfg s1)) (ka s1)).
  { unfold webrootWriteChallenge. rewrite list_elem_of_fmap.
    by intros (? & ? & _). }
  destruct (StartHookFunc _); simpl;
    rewrite ?elem_of_app, ?list_elem_of_singleton; rewrite <- Hmain;
    clear - Hw; split; try tauto.
  intros [[H | H] | H]; [done | done | discriminate].
Qed.

Lemma listen_events addrs :
  let evs := (fun a => EvListen a (netListen a)) <$> addrs in
  listenersStarted evs = filter (fun a => netListen a = true) addrs
  /\ listenersStopped evs = [] /\ filesWritten evs = []
  /\ filesRemoved evs = [].
Proof.
  induction addrs as [| a addrs IH]; [done |].
  destruct IH as (IH1 & IH2 & IH3 & IH4).
  split; [| by repeat split].
  destruct (netListen a) eqn:Ha.
  - rewrite filter_cons_True by done. simpl. rewrite Ha. simpl.
    f_equal. exact IH1.
  - rewrite filter_cons_False by (by rewrite Ha). simpl. rewrite Ha.
    exact IH1.
Qed.

Lemma write_events (ws : list string) tok :
  let evs := (fun wr =>
                let fn := filepathJoin wr tok in
                EvWriteFile fn (String.prefix "/var/run/" wr) (openFile fn))
             <$> ws in
  listenersStarted evs = [] /\ listenersStopped evs = []
  /\ filesWritten evs = (fun wr => filepathJoin wr tok) <$> ws
  /\ filesRemoved evs = [].
Proof.
  induction ws as [| w ws IH]; [done |].
  destruct IH as (IH1 & IH2 & IH3 & IH4).
  repeat split; try done. simpl. f_equal. exact IH3.
Qed.

Lemma remove_events (ws : list string) tok :
  let evs := (fun wr => EvRemoveFile (filepathJoin wr tok)) <$> ws in
  listenersStarted evs = [] /\ listenersStopped evs = []
  /\ filesWritten evs = []
  /\ filesRemoved evs = (fun wr => filepathJoin wr tok) <$> ws.
Proof.
  induction ws as [| w ws IH]; [done |].
  destruct IH as (IH1 & IH2 & IH3 & IH4).
  repeat split; try done. simpl. f_equal. exact IH4.
Qed.

Lemma stop_events (fs : list string) :
  let evs := EvStopListener <$> fs in
  listenersStarted evs = [] /\ listenersStopped evs = fs
  /\ filesWritten evs = [] /\ filesRemoved evs = [].
Proof.
  induction fs as [| f fs IH]; [done |].
  destruct IH as (IH1 & IH2 & IH3 & IH4).
  repeat split; try done. simpl. f_equal. exact IH2.
Qed.

(** What [startActual] does, spelt out: the listeners and the files. *)
Lemma startActual_account s :
  let run := startActual filepathJoin ParseUint16 ResolveTCPAddr netListen
               openFile s in
  stopFuncs run.1.1 = stopFuncs s ++ listenersStarted run.1.2
  /\ filesWritten run.1.2
     = (fun wr => filepathJoin wr (Token (rcfg s))) <$> elements (getWebroots s)
  /\ listenersStopped run.1.2 = [] /\ filesRemoved run.1.2 = []
  /\ rcfg run.1.1 = rcfg s /\ ka run.1.1 = ka s /\ run.2 = None.
Proof.
  unfold startActual.
  match goal with
  | |- context [startListeners netListen s ?l] =>
      pose proof (startListeners_events l s) as Hl;
      pose proof (listen_events l) as (Hl1 & Hl2 & Hl3 & Hl4);
      destruct (startListeners netListen s l) as [s1 evs]
  end.
  cbn [fst snd] in Hl. destruct Hl as (-> & Hsf & Hcfg & Hka).
  assert (Hweb : getWebroots s1 = getWebroots s)
    by (unfold getWebroots, getWebrootsWith; by rewrite Hcfg).
  pose proof (write_events (elements (getWebroots s1)) (Token (rcfg s1)))
    as (Hw1 & Hw2 & Hw3 & Hw4).
  cbv zeta in Hl1, Hl2, Hl3, Hl4, Hw1, Hw2, Hw3, Hw4.
  unfold webrootWriteChallenge.
  unfold listenersStarted, filesWritten, listenersStopped, filesRemoved in *.
  destruct (StartHookFunc _); cbn [fst snd];
    rewrite ?omap_app, Hl1, Hl2, Hl3, Hl4, Hw1, Hw2, Hw3, Hw4, Hsf, Hweb,
      Hcfg; simpl; rewrite ?app_nil_r; by repeat split.
Qed.

(** What [Stop] does, spelt out. *)
Lemma Stop_account s :
  let run := Stop filepathJoin s in
  stopFuncs run.1.1 = [] /\ listenersStopped run.1.2 = stopFuncs s
  /\ filesRemoved run.1.2
     = (fun wr => filepathJoin wr (Token (rcfg s))) <$> elements (getWebroots s)
  /\ listenersStarted run.1.2 = [] /\ filesWritten run.1.2 = []
  /\ rcfg run.1.1 = rcfg s /\ ka run.1.1 = ka s.
Proof.
  unfold Stop.
  pose proof (stop_events (stopFuncs s)) as (Hs1 & Hs2 & Hs3 & Hs4).
  pose proof (remove_events (elements (getWebroots s)) (Token (rcfg s)))
    as (Hr1 & Hr2 & Hr3 & Hr4).
  cbv zeta in Hs1, Hs2, Hs3, Hs4, Hr1, Hr2, Hr3, Hr4.
  assert (Hweb : getWebroots (setStopFuncs s []) = getWebroots s) by done.
  unfold webrootRemoveChallenge.
  unfold listenersStarted, filesWritten, listenersStopped, filesRemoved in *.
  cbn [rcfg setStopFuncs ka].
  destruct (StopHookFunc _); cbn [fst snd];
    rewrite ?omap_app, Hweb, Hs1, Hs2, Hs3, Hs4, Hr1, Hr2, Hr3, Hr4;
    simpl; rewrite ?app_nil_r; by repeat split.
Qed.

(** The self-test keeps the configuration and the stop functions, and
    makes no event but its request and its receiving from the channel. *)
Lemma selfTest_only_tests s :
  let run := selfTest TrimSpace URLString httpGet s in
  rcfg run.1.1 = rcfg s /\ stopFuncs run.1.1 = stopFuncs s
  /\ Forall (fun e => isSelfTestEvent e = true) run.1.2.
Proof.
  unfold selfTest. case_bool_decide; [by repeat split |].
  destruct (httpGet _) as [e | status body detected];
    [by repeat split; repeat constructor |].
  destruct (negb (status =? 200)); [by repeat split; repeat constructor |].
  destruct body as [e | b]; [by repeat split; repeat constructor |].
  destruct (negb (bool_decide _)); [by repeat split; repeat constructor |].
  cbn [requestDetectedChan setChan].
  destruct (Nat.iter detected notify (requestDetectedChan s));
    by repeat split; repeat constructor.
Qed.

Lemma selfTest_events_extract evs :
  Forall (fun e => isSelfTestEvent e = true) evs ->
  listenersStarted evs = [] /\ listenersStopped evs = []
  /\ filesWritten evs = [] /\ filesRemoved evs = [].
Proof.
  induction 1 as [| e evs He _ IH]; [done |].
  destruct IH as (IH1 & IH2 & IH3 & IH4).
  destruct e; try discriminate; by repeat split.
Qed.

(** X16. On a responder without listeners, as [newHTTP] makes it, a [Start]
    that returns an error has stopped every listener it started and removed
    every file it tried to write; a [Start] that returns nil has stopped and
    removed nothing and holds one stop function for each listener it
    started. *)
Theorem Start_accounts_for_listeners (s : httpResponder) :
  stopFuncs s = [] ->
  let run := Start TrimSpace URLString filepathJoin ParseUint16 ResolveTCPAddr
               netListen openFile httpGet s in
  match run.2 with
  | Some _ =>
      stopFuncs run.1.1 = []
      /\ listenersStopped run.1.2 ≡ₚ listenersStarted run.1.2
      /\ filesRemoved run.1.2 ≡ₚ filesWritten run.1.2
  | None =>
      stopFuncs run.1.1 ≡ₚ listenersStarted run.1.2
      /\ listenersStopped run.1.2 = [] /\ filesRemoved run.1.2 = []
  end.
Proof.
  intros Hnil run. subst run. unfold Start.
  pose proof (startActual_account s) as Hsa. cbv zeta in Hsa.
  destruct (startActual _ _ _ _ _ s) as [[s1 evs1] err1].
  cbn [fst snd] in Hsa.
  destruct Hsa as (Hsf1 & Hfw1 & Hls1 & Hfr1 & Hcfg1 & Hka1 & ->).
  rewrite Hnil in Hsf1. simpl in Hsf1.
  pose proof (selfTest_only_tests s1) as Hst. cbv zeta in Hst.
  destruct (selfTest TrimSpace URLString httpGet s1) as [[s2 evs2] err2].
  cbn [fst snd] in Hst. destruct Hst as (Hcfg2 & Hsf2 & Hev2).
  destruct (selfTest_events_extract _ Hev2) as (He1 & He2 & He3 & He4).
  destruct err2 as [e |].
  - pose proof (Stop_account s2) as Hstop. cbv zeta in Hstop.
    destruct (Stop filepathJoin s2) as [[s3 evs3] err3].
    cbn [fst snd] in *.
    destruct Hstop as (Hsf3 & Hls3 & Hfr3 & Hl3 & Hfw3 & _ & _).
    unfold listenersStarted, filesWritten, listenersStopped, filesRemoved
      in *.
    rewrite !omap_app, Hls1, Hfr1, He1, He2, He3, He4, Hls3, Hfr3, Hl3, Hfw3.
    simpl. rewrite !app_nil_r. split; [done |].
    split; [by rewrite Hsf2, Hsf1 |].
    rewrite Hfw1. unfold getWebroots, getWebrootsWith. by rewrite Hcfg2, Hcfg1.
  - cbn [fst snd].
    unfold listenersStarted, filesWritten, listenersStopped, filesRemoved
      in *.
    rewrite !omap_app, Hls1, Hfr1, He1, He2, He4. simpl.
    rewrite !app_nil_r. split; [by rewrite Hsf2, Hsf1 | done].
Qed.

(** X17. [Stop] stops the listeners that the responder holds a stop function
    for, each once, and removes the challenge file from every webroot; the
    responder holds no stop function afterwards, so that a second [Stop]
    stops no listener, while it removes the same files again. *)
Theorem Stop_twice (s : httpResponder) :
  let run := Stop filepathJoin s in
  let again := Stop filepathJoin run.1.1 in
  listenersStopped run.1.2 ≡ₚ stopFuncs s
  /\ filesRemoved run.1.2
     ≡ₚ (fun wr => filepathJoin wr (Token (rcfg s))) <$> elements (getWebroots s)
  /\ stopFuncs run.1.1 = []
  /\ listenersStopped again.1.2 = []
  /\ filesRemoved again.1.2 ≡ₚ filesRemoved run.1.2
  /\ run.2 = None /\ again.2 = None.
Proof.
  intros run again.
  pose proof (Stop_account s) as (Hsf & Hls & Hfr & _ & _ & Hcfg & _).
  pose proof (Stop_account run.1.1) as (_ & Hls' & Hfr' & _).
  fold run in Hsf, Hls, Hfr, Hcfg. fold again in Hls', Hfr'.
  split; [by rewrite Hls |]. split; [by rewrite Hfr |].
  split; [exact Hsf |].
  split; [by rewrite Hls', Hsf |].
  split; [| done].
  rewrite Hfr', Hfr. unfold getWebroots, getWebrootsWith. by rewrite Hcfg.
Qed.

End ResponderMore.

(** The statement at a responder whose ports are the number 8080, the
    address [10.0.0.1:80] and one entry that is neither. *)
Lemma startActual_listens_on_configured_witness :
  let parse := fun p : string => if bool_decide (p = "8080") then Some 8080%N
                                 else None in
  let resolve := fun p : string =>
    if bool_decide (p = "10.0.0.1:80") then Some p else None in
  let s := {| rcfg :=
                {| Type_ := "http-01"; AccountKey := "thumbprint";
                   Token := "token"; Hostname := EmptyString;
                   challengeConfig :=
                     {| WebPaths := [];
                        HTTPPorts := Some ["8080"; "10.0.0.1:80"; "http"];
                        StartHookFunc := None; StopHookFunc := None |} |};
              requestDetectedChan := 0; stopFuncs := [];
              ka := "token.thumbprint"; validation := "{}";
              notifySupported := true |} in
  EvListen "[::1]:8080" false
    ∈ (startActual sampleJoin parse resolve sampleListen sampleOpenFile s).1.2.
Proof.
  intros parse resolve s.
  apply (startActual_listens_on_configured sampleJoin parse resolve
           sampleListen sampleOpenFile s ["8080"; "10.0.0.1:80"; "http"]
           eq_refl).
  split; [reflexivity |]. exists "8080". split; [by left |].
  left. reflexivity.
Defined.

(** The statement at a new responder for [a.test], where no listener can
    bind and nothing answers the self-test. *)
Lemma Start_accounts_for_listeners_witness :
  let s := {| rcfg := hostnameConfig; requestDetectedChan := 0;
              stopFuncs := []; ka := "token.thumbprint"; validation := "{}";
              notifySupported := true |} in
  let run := Start sampleTrimSpace sampleURLString sampleJoin
               sampleParseUint16 sampleResolveTCPAddr sampleListen
               sampleOpenFile sampleGet s in
  match run.2 with
  | Some _ =>
      stopFuncs run.1.1 = []
      /\ listenersStopped run.1.2 ≡ₚ listenersStarted run.1.2
      /\ filesRemoved run.1.2 ≡ₚ filesWritten run.1.2
  | None =>
      stopFuncs run.1.1 ≡ₚ listenersStarted run.1.2
      /\ listenersStopped run.1.2 = [] /\ filesRemoved run.1.2 = []
  end.
Proof.
  intros s.
  exact (Start_accounts_for_listeners sampleTrimSpace sampleURLString
           sampleJoin sampleParseUint16 sampleResolveTCPAddr sampleListen
           sampleOpenFile sampleGet s eq_refl).
Defined.

(** ** Accounts and the loading of targets *)

Lemma findAccount_Some p : forall accs a,
  findAccount p accs = Some a -> BaseURL a = p /\ a ∈ accs.*2.
Proof.
  induction accs as [| [k a0] accs IH]; intros a H; [done |].
  simpl in H. unfold MatchesURL in H. case_bool_decide as Hm.
  - injection H as <-. split; [done | by left].
  - destruct (IH _ H) as [? ?]. split; [done | by right].
Qed.

Lemma findAccount_None p : forall accs,
  findAccount p accs = None <-> forall a, a ∈ accs.*2 -> BaseURL a <> p.
Proof.
  induction accs as [| [k a0] accs IH]; simpl.
  - split; [intros _ a Ha; inversion Ha | done].
  - unfold MatchesURL. case_bool_decide as Hm.
    + split; [done |]. intros H. exfalso. apply (H a0); [by left | done].
    + rewrite IH. split.
      * intros H a Ha. apply elem_of_cons in Ha as [-> | Ha]; auto.
      * intros H a Ha. apply H. by right.
Qed.

Lemma mapStore_elem {V} (k : string) (v : V) : forall m,
  (k, v) ∈ mapStore k v m
  /\ forall x, x ∈ mapStore k v m -> x = (k, v) \/ x ∈ m.
Proof.
  induction m as [| [k' v'] m [IH1 IH2]]; simpl.
  - split; [by left |]. intros x Hx. left. by apply list_elem_of_singleton.
  - case_bool_decide.
    + split; [by left |]. intros x Hx.
      apply elem_of_cons in Hx as [-> | Hx]; [by left |]. right. by right.
    + split; [by right |]. intros x Hx.
      apply elem_of_cons in Hx as [-> | Hx]; [right; by left |].
      destruct (IH2 _ Hx) as [-> | ?]; [by left |]. right. by right.
Qed.

Lemma mapStore_keys {V} (k : string) (v : V) : forall m,
  NoDup m.*1 -> NoDup (mapStore k v m).*1
  /\ forall k0, k0 ∈ (mapStore k v m).*1 <-> k0 = k \/ k0 ∈ m.*1.
Proof.
  induction m as [| [k' v'] m IH]; intros Hnd; simpl.
  - split; [apply NoDup_singleton |]. intros k0.
    rewrite list_elem_of_singleton. split; [by left |].
    intros [-> | H]; [done | inversion H].
  - apply NoDup_cons in Hnd as [Hk' Hnd]. destruct (IH Hnd) as [IH1 IH2].
    case_bool_decide as Hk; simpl.
    + subst k'. split; [by apply NoDup_cons |]. intros k0.
      rewrite elem_of_cons. tauto.
    + split.
      * apply NoDup_cons. split; [| done]. rewrite IH2.
        intros [-> | ?]; done.
      * intros k0. rewrite !elem_of_cons, IH2. tauto.
Qed.

(** The first match of the lookup when only one account can match. *)
Lemma findAccount_only p a : forall order,
  BaseURL a = p ->
  (forall x, x ∈ order.*2 -> x = a \/ BaseURL x <> p) ->
  a ∈ order.*2 ->
  findAccount p order = Some a.
Proof.
  induction order as [| [k a0] order IH]; intros Ha Hall Hin;
    [inversion Hin |].
  simpl. unfold MatchesURL. case_bool_decide as Hm.
  - assert (Hin0 : a0 ∈ ((k, a0) :: order).*2) by (by left).
    destruct (Hall a0 Hin0) as [Heq | Hne]; [by rewrite Heq | congruence].
  - apply IH; [done | |].
    + intros x Hx. apply Hall. by right.
    + apply elem_of_cons in Hin as [Heq | ?]; [| done].
      simpl in Heq. congruence.
Qed.

Section AccountsMore.

Variable ValidURL : string -> bool.
Variable DefaultDirectoryURL : string.
Variable accountURLPart : string -> result string.
Variable createKey : Store -> string -> result (string * string).

Lemma getAccountByProviderString_unfold s p :
  getAccountByProviderString ValidURL DefaultDirectoryURL
    (createNewAccount accountURLPart createKey) s p
  = let p' := effectiveProvider DefaultDirectoryURL s p in
    if negb (ValidURL p')
    then (s, inl (errorString "provider URI is not a valid HTTPS URL"))
    else
      match findAccount p' (accounts s) with
      | Some a => (s, inr a)
      | None => createNewAccount accountURLPart createKey s p'
      end.
Proof. reflexivity. Qed.

(** X18. When [getAccountByProviderString] returns an account, the account
    is for the provider looked up (the string given, else the provider of
    the default target, else the default directory), which is a valid URL,
    and the store holds it; a further lookup of the same string, in whatever
    order it ranges over the accounts, returns an account for that provider
    and leaves the store as it is, so that no second account is made, and
    it returns the same account when no account was for the provider before
    the first lookup. When the lookup returns an error, no account has been
    made. No case touches the targets or the files. *)
Theorem getAccountByProviderString_account (s : Store) (p : string) :
  let lookup :=
    getAccountByProviderString ValidURL DefaultDirectoryURL
      (createNewAccount accountURLPart createKey) in
  let p' := effectiveProvider DefaultDirectoryURL s p in
  targets (lookup s p).1 = targets s
  /\ defaultTarget (lookup s p).1 = defaultTarget s
  /\ desiredFiles (lookup s p).1 = desiredFiles s
  /\ confFiles (lookup s p).1 = confFiles s
  /\ match lookup s p with
     | (s', inr a) =>
         ValidURL p' = true /\ BaseURL a = p' /\ a ∈ (accounts s').*2
         /\ forall order, order ≡ₚ accounts s' ->
              exists a',
                lookup (withAccounts s' order) p
                = (withAccounts s' order, inr a')
                /\ BaseURL a' = p'
                /\ ((forall x, x ∈ (accounts s).*2 -> BaseURL x <> p') ->
                    a' = a)
     | (s', inl _) => s' = s
     end.
Proof.
  intros lookup p'. subst lookup.
  rewrite getAccountByProviderString_unfold. fold p'. cbv zeta.
  destruct (ValidURL p') eqn:Hv; cbn [negb]; [| by repeat split].
  assert (Hagain : forall s' order a',
            defaultTarget s' = defaultTarget s ->
            findAccount p' order = Some a' ->
            getAccountByProviderString ValidURL DefaultDirectoryURL
              (createNewAccount accountURLPart createKey)
              (withAccounts s' order) p
            = (withAccounts s' order, inr a')).
  { intros s' order a' Hd Hfind.
    rewrite getAccountByProviderString_unfold.
    assert (Hp : effectiveProvider DefaultDirectoryURL
                   (withAccounts s' order) p = p').
    { unfold p', effectiveProvider. cbn [defaultTarget withAccounts].
      by rewrite Hd. }
    rewrite Hp. cbv zeta. rewrite Hv.
    cbn [negb accounts withAccounts]. by rewrite Hfind. }
  destruct (findAccount p' (accounts s)) as [a |] eqn:Hf.
  - cbn [fst snd]. do 4 (split; [done |]).
    destruct (findAccount_Some _ _ _ Hf) as [Hb Hin].
    do 3 (split; [done |]).
    intros order Hperm.
    destruct (findAccount p' order) as [a' |] eqn:Hf'.
    + exists a'. split; [by apply Hagain |].
      split; [by apply findAccount_Some in Hf' as [? _] |].
      intros Hnone. exfalso. by apply (Hnone a).
    + exfalso. rewrite findAccount_None in Hf'. apply (Hf' a); [| done].
      by rewrite Hperm.
  - unfold createNewAccount.
    destruct (accountURLPart p') as [e | u]; [by repeat split |].
    destruct (createKey s _) as [e | [pk keyID]]; [by repeat split |].
    set (a := {| PrivateKey := pk; BaseURL := p'; Authorizations := None |}).
    set (k := u +:+ "/" +:+ keyID).
    destruct (mapStore_elem k a (accounts s)) as [Hin Hother].
    assert (Ha : a ∈ (mapStore k a (accounts s)).*2).
    { apply list_elem_of_fmap. by exists (k, a). }
    assert (Honly : forall order, order ≡ₚ mapStore k a (accounts s) ->
              findAccount p' order = Some a).
    { intros order Hperm. apply findAccount_only; [done | |].
      - intros x Hx. rewrite Hperm in Hx.
        apply list_elem_of_fmap in Hx as ([k0 x0] & -> & Hx0).
        destruct (Hother _ Hx0) as [[= _ ->] | Hold]; [by left |].
        right. rewrite findAccount_None in Hf. apply Hf.
        apply list_elem_of_fmap. by exists (k0, x0).
      - by rewrite Hperm. }
    cbn [fst snd withAccounts targets defaultTarget desiredFiles confFiles
         accounts].
    do 7 (split; [done |]).
    intros order Hperm. exists a.
    split; [apply Hagain; [done | by apply Honly] |]. by split.
Qed.

End AccountsMore.

Lemma effectiveProvider_ext D (s1 s2 : Store) p :
  defaultTarget s1 = defaultTarget s2 ->
  effectiveProvider D s1 p = effectiveProvider D s2 p.
Proof. unfold effectiveProvider. by intros ->. Qed.

Lemma wellFormedTarget_ext vh vu D (s1 s2 : Store) t :
  defaultTarget s1 = defaultTarget s2 ->
  wellFormedTarget vh vu D s1 t -> wellFormedTarget vh vu D s2 t.
Proof.
  intros Hd (H1 & H2 & H3 & a & H4 & H5 & H6).
  repeat split; try done. exists a.
  by rewrite <- (effectiveProvider_ext D s1 s2).
Qed.

Section LoadMore.

Variable ioFault : string -> option error.
Variable List : gmap string string -> result (list string).
Variable yamlUnmarshal : string -> result TargetDoc.
Variable ToLower : string -> string.
Variable Quote : string -> string.
Variable validHostname : string -> bool.
Variable ValidURL : string -> bool.
Variable DefaultDirectoryURL : string.
Variable accountURLPart : string -> result string.
Variable createKey : Store -> string -> result (string * string).

Lemma normalizeNames_ok : forall names out,
  normalizeNames ToLower Quote validHostname names = inr out ->
  out = normalized ToLower <$> names
  /\ Forall (fun n => validHostname n = true) out.
Proof.
  induction names as [| x names IH]; intros out H; simpl in H.
  - by injection H as <-.
  - fold (normalized ToLower x) in H.
    destruct (validHostname (normalized ToLower x)) eqn:Hv; [| done].
    cbn [negb] in H.
    destruct (normalizeNames _ _ _ names) as [e | rest]; [done |].
    injection H as <-. destruct (IH rest eq_refl) as [-> Hall].
    split; [done | by constructor].
Qed.

Lemma normalizeNames_valid : forall names,
  Forall (fun n => validHostname (normalized ToLower n) = true) names ->
  normalizeNames ToLower Quote validHostname names
  = inr (normalized ToLower <$> names).
Proof.
  induction 1 as [| x names Hx _ IH]; [done |].
  simpl. fold (normalized ToLower x). by rewrite Hx, IH.
Qed.

(** The lookup of an account leaves all of the store but its accounts, and
    the account it returns is for the provider looked up. *)
Lemma getAccountByProviderString_frame s p :
  let run := getAccountByProviderString ValidURL DefaultDirectoryURL
               (createNewAccount accountURLPart createKey) s p in
  targets run.1 = targets s /\ defaultTarget run.1 = defaultTarget s
  /\ desiredFiles run.1 = desiredFiles s
  /\ forall a, run.2 = inr a ->
       BaseURL a = effectiveProvider DefaultDirectoryURL s p
       /\ ValidURL (BaseURL a) = true.
Proof.
  cbv zeta. rewrite getAccountByProviderString_unfold. cbv zeta.
  destruct (ValidURL (effectiveProvider _ s p)) eqn:Hv; cbn [negb];
    [| by repeat split].
  destruct (findAccount _ (accounts s)) as [a |] eqn:Hf.
  - split; [done |]. split; [done |]. split; [done |].
    intros a' [= <-]. apply findAccount_Some in Hf as [Hb _].
    rewrite Hb. by split.
  - unfold createNewAccount.
    destruct (accountURLPart _) as [e | u]; [by repeat split |].
    destruct (createKey s _) as [e | [pk keyID]]; [by repeat split |].
    split; [done |]. split; [done |]. split; [done |].
    intros a' [= <-]. by split.
Qed.

Lemma validateTargetInner_well_formed s desiredKey dir c :
  let run := validateTargetInner ioFault yamlUnmarshal ToLower Quote
               validHostname ValidURL DefaultDirectoryURL
               (createNewAccount accountURLPart createKey)
               s desiredKey dir c in
  targets run.1 = targets s /\ defaultTarget run.1 = defaultTarget s
  /\ desiredFiles run.1 = desiredFiles s
  /\ forall t, run.2 = inr t ->
       wellFormedTarget validHostname ValidURL DefaultDirectoryURL s t.
Proof.
  cbv zeta. unfold validateTargetInner.
  destruct (fdbBytes _ _ _ _) as [e | b]; [by repeat split |].
  destruct (yamlUnmarshal b) as [e | doc]; [by repeat split |].
  cbv zeta.
  match goal with
  | |- context [normalizeNames ToLower Quote validHostname ?l] =>
      set (names := l);
      pose proof (normalizeNames_ok names) as Hn;
      assert (Hne : names <> []);
      [ subst names;
        destruct (TargetSatisfy.Names (Satisfy (fromYAML doc))) as [| x l0];
        [ cbn [length Nat.eqb];
          destruct (LegacyNames (fromYAML doc)) as [| y l1]; [done | done]
        | done ]
      | destruct (normalizeNames ToLower Quote validHostname names)
          as [e | out]; [by repeat split |] ]
  end.
  destruct (Hn out eq_refl) as [Hout Hvalid].
  assert (Houtne : out <> []).
  { rewrite Hout. by destruct names. }
  match goal with
  | |- context [getAccountByProviderString _ _ _ s ?p] =>
      pose proof (getAccountByProviderString_frame s p) as Hg;
      cbv zeta in Hg;
      destruct (getAccountByProviderString ValidURL DefaultDirectoryURL
                  (createNewAccount accountURLPart createKey) s p)
        as [s1 [e | a]]
  end; cbn [fst snd] in *; destruct Hg as (Ht & Hd & Hf & Ha);
    [by repeat split |].
  split; [done |]. split; [done |]. split; [done |].
  intros t [= <-]. destruct (Ha a eq_refl) as [Hb Hv].
  unfold wellFormedTarget. cbn.
  split; [done |]. split; [done |]. split.
  - by destruct (doc_request_names doc).
  - exists a. split; [done |]. split; [| done]. exact Hb.
Qed.

Lemma validateTargets_well_formed desiredKeys c : forall s,
  let run := validateTargets ioFault yamlUnmarshal ToLower Quote
               validHostname ValidURL DefaultDirectoryURL
               (createNewAccount accountURLPart createKey)
               s desiredKeys c in
  Forall (fun kt => wellFormedTarget validHostname ValidURL
                      DefaultDirectoryURL s kt.2) (targets s) ->
  NoDup (targets s).*1 ->
  defaultTarget run.1 = defaultTarget s
  /\ desiredFiles run.1 = desiredFiles s
  /\ Forall (fun kt => wellFormedTarget validHostname ValidURL
                         DefaultDirectoryURL s kt.2) (targets run.1)
  /\ NoDup (targets run.1).*1
  /\ (run.2 = None ->
      forall k, k ∈ (targets run.1).*1
                <-> k ∈ (targets s).*1 \/ k ∈ desiredKeys).
Proof.
  induction desiredKeys as [| key rest IH]; intros s; cbv zeta;
    intros Hwf Hnd.
  - simpl. do 4 (split; [done |]). intros _ k. split; [by left |].
    intros [? | H]; [done | inversion H].
  - simpl. unfold validateTarget.
    pose proof (validateTargetInner_well_formed s key "desired" c) as Hv.
    cbv zeta in Hv.
    destruct (validateTargetInner _ _ _ _ _ _ _ _ s key "desired" c)
      as [s1 [e | t]]; cbn [fst snd] in Hv;
      destruct Hv as (Ht & Hd & Hf & Hwft).
    + cbn [fst snd]. rewrite Ht. by do 4 (split; [done |]).
    + set (s2 := withTargets s1 (mapStore key t (targets s1))).
      assert (Hwf2 : Forall (fun kt => wellFormedTarget validHostname
                        ValidURL DefaultDirectoryURL s2 kt.2) (targets s2)).
      { apply Forall_forall. intros [k0 t0] Hin. cbn [snd].
        apply (wellFormedTarget_ext _ _ _ s); [by rewrite <- Hd |].
        destruct (mapStore_elem key t (targets s1)) as [_ Hother].
        destruct (Hother _ Hin) as [[= -> ->] | Hold]; [by apply Hwft |].
        rewrite Ht in Hold. rewrite Forall_forall in Hwf.
        apply (Hwf _ Hold). }
      assert (Hnd2 : NoDup (targets s2).*1).
      { apply mapStore_keys. by rewrite Ht. }
      specialize (IH s2 Hwf2 Hnd2). cbv zeta in IH.
      destruct (validateTargets _ _ _ _ _ _ _ _ s2 rest c) as [s3 err]
        eqn:Hrun.
      cbn [fst snd] in IH. destruct IH as (Hd3 & Hf3 & Hwf3 & Hnd3 & Hk3).
      destruct err as [e |]; cbn [fst snd].
      * split; [by rewrite Hd3, <- Hd |]. split; [by rewrite Hf3 |].
        split; [| done].
        eapply Forall_impl; [exact Hwf3 |]. intros kt.
        apply wellFormedTarget_ext. by rewrite <- Hd.
      * split; [by rewrite Hd3, <- Hd |]. split; [by rewrite Hf3 |].
        split; [| split; [done |]].
        -- eapply Forall_impl; [exact Hwf3 |]. intros kt.
           apply wellFormedTarget_ext. by rewrite <- Hd.
        -- intros _ k. rewrite (Hk3 eq_refl k).
           destruct (mapStore_keys key t (targets s1)) as [_ Hkeys];
             [by rewrite Ht |].
           subst s2. cbn [targets withTargets]. rewrite Hkeys, Ht.
           rewrite elem_of_cons. tauto.
Qed.

(** X19. Whatever [loadTargets] returns, every target that the store holds
    afterwards has at least one name to satisfy, all of them valid
    hostnames, at least one name to request and an account whose URL is the
    target's provider (its own, else the default target's, else the default
    directory) and a valid URL; no two targets share a key; and when
    [loadTargets] returns nil the targets are exactly the files that the
    listing of [desired] gave. *)
Theorem loadTargets_well_formed (s : Store) :
  let run := loadTargets ioFault List yamlUnmarshal ToLower Quote
               validHostname ValidURL DefaultDirectoryURL
               (createNewAccount accountURLPart createKey) s in
  Forall (fun kt => wellFormedTarget validHostname ValidURL
                      DefaultDirectoryURL run.1 kt.2) (targets run.1)
  /\ NoDup (targets run.1).*1
  /\ (run.2 = None ->
      exists desiredKeys, List (desiredFiles s) = inr desiredKeys
        /\ forall k, k ∈ (targets run.1).*1 <-> k ∈ desiredKeys).
Proof.
  cbv zeta. unfold loadTargets.
  set (s0 := loadDefaultTarget _ _ _ _ _ _ _ _ (withTargets s [])).
  assert (H0 : targets s0 = [] /\ desiredFiles s0 = desiredFiles s).
  { subst s0. unfold loadDefaultTarget.
    pose proof (validateTargetInner_well_formed (withTargets s []) "target"
                  "conf" (confFiles (withTargets s []))) as Hv.
    cbv zeta in Hv.
    destruct (validateTargetInner _ _ _ _ _ _ _ _ (withTargets s []) _ _ _)
      as [s1 [e | t]]; cbn [fst snd] in Hv;
      destruct Hv as (Ht & _ & Hf & _); by split. }
  destruct H0 as [Ht0 Hf0]. rewrite Hf0.
  destruct (List (desiredFiles s)) as [e | desiredKeys].
  - cbn [fst snd]. rewrite Ht0. repeat split; try done; constructor.
  - pose proof (validateTargets_well_formed desiredKeys (desiredFiles s) s0)
      as Hv.
    cbv zeta in Hv. rewrite Ht0 in Hv.
    destruct (Hv ltac:(constructor) ltac:(constructor))
      as (Hd & Hf & Hwf & Hnd & Hk).
    split; [| split; [done |]].
    + eapply Forall_impl; [exact Hwf |]. intros kt.
      apply wellFormedTarget_ext. by rewrite Hd.
    + intros Hnil. exists desiredKeys. split; [done |]. intros k.
      rewrite (Hk Hnil k). split; [| by right].
      intros [H | H]; [inversion H | done].
Qed.

End LoadMore.

(** ** The default provider *)

Section DefaultProviderMore.

Variable ioFault : string -> option error.
Variable yamlMarshal : TargetDoc -> result string.
Variable yamlMarshalNil : result string.
Variable ValidURL : string -> bool.
Variable DefaultDirectoryURL : string.
Variable createNewAccount : Store -> string -> Store * result Account.



End DefaultProviderMore.

(** ** Linking the live hostnames *)

Section LinksMore.

Variable ioFault : string -> option error.
Variable determineCertificateID : string -> string.
Variable ParseCertificate : list Byte.byte -> option x509Certificate.

Lemma linkTargetsLoop_cons rangeCerts k s live upd name tgt rest :
  linkTargetsLoop ioFault determineCertificateID ParseCertificate rangeCerts
    k s live upd ((name, tgt) :: rest)
  = match
      bestLink determineCertificateID ParseCertificate
        (rangeCerts k (certs s)) tgt
    with
    | None =>
        linkTargetsLoop ioFault determineCertificateID ParseCertificate
          rangeCerts (S k) s live upd rest
    | Some lt =>
        match ioFault ("live" +:+ "/" +:+ name) with
        | Some err =>
            (live, inl err)
        | None =>
            if bool_decide (live !! name = Some lt)
            then linkTargetsLoop ioFault determineCertificateID
                   ParseCertificate rangeCerts (S k) s live upd rest
            else linkTargetsLoop ioFault determineCertificateID
                   ParseCertificate rangeCerts (S k) s (<[name := lt]> live)
                   (upd ++ [name]) rest
        end
    end.
Proof.
  cbn [linkTargetsLoop]. unfold bestLink.
  destruct (findBestCertificateSatisfying _ _ tgt) as [c |]; [| done].
  unfold fdbReadLink, fdbWriteLink.
  destruct (ioFault _) as [e |]; [done |].
  destruct (live !! name) as [lnk |] eqn:Hl.
  - case_bool_decide as H1; case_bool_decide as H2; try done; congruence.
  - by rewrite bool_decide_eq_false_2.
Qed.

(** A run of the loop over distinct hostnames that ends without error. *)
Lemma linkTargetsLoop_ok rangeCerts s :
  forall entries k live upd live' updated,
  NoDup entries.*1 ->
  linkTargetsLoop ioFault determineCertificateID ParseCertificate rangeCerts
    k s live upd entries = (live', inr updated) ->
  (forall i n t, entries !! i = Some (n, t) ->
     match
       bestLink determineCertificateID ParseCertificate
         (rangeCerts (k + i)%nat (certs s)) t
     with
     | Some lt =>
         live' !! n = Some lt /\ ioFault ("live" +:+ "/" +:+ n) = None
     | None => live' !! n = live !! n
     end)
  /\ (forall n, n ∉ entries.*1 -> live' !! n = live !! n)
  /\ (forall n, n ∈ updated
        <-> n ∈ upd
            \/ exists i t lt, entries !! i = Some (n, t)
                 /\ bestLink determineCertificateID ParseCertificate
                      (rangeCerts (k + i)%nat (certs s)) t = Some lt
                 /\ live !! n <> Some lt).
Proof.
  induction entries as [| [name tgt] rest IH];
    intros k live upd live' updated Hnd Hrun.
  - simpl in Hrun. injection Hrun as <- <-.
    split; [intros i n t Hi; by rewrite lookup_nil in Hi |].
    split; [done |].
    intros n. split; [by left |].
    intros [? | (i & t & lt & Hi & _)]; [done |].
    by rewrite lookup_nil in Hi.
  - rewrite linkTargetsLoop_cons in Hrun.
    rewrite fmap_cons in Hnd. cbn [fst] in Hnd.
    apply NoDup_cons in Hnd as [Hname Hnd].
    assert (Hrest : forall j n t, rest !! j = Some (n, t) -> n <> name).
    { intros j n t Hj ->. apply Hname. apply list_elem_of_fmap.
      exists (name, t). split; [done |]. by eapply list_elem_of_lookup_2. }
    assert (Hshift : forall j, (k + S j = S k + j)%nat) by (intros; lia).
    destruct (bestLink determineCertificateID ParseCertificate
                (rangeCerts k (certs s)) tgt) as [lt |] eqn:Hbest.
    + destruct (ioFault ("live" +:+ "/" +:+ name)) as [e |] eqn:Hio;
        [done |].
      case_bool_decide as Hl.
      * destruct (IH _ _ _ _ _ Hnd Hrun) as (IH1 & IH2 & IH3).
        split; [| split].
        -- intros [| j] n t Hi.
           ++ injection Hi as Hn Ht; subst n t. rewrite Nat.add_0_r, Hbest.
              by rewrite (IH2 name Hname).
           ++ rewrite Hshift. by apply IH1.
        -- intros n Hn. apply IH2. intros Hin. apply Hn. by right.
        -- intros n. rewrite IH3. split.
           ++ intros [? | (j & t & lt' & Hj & Hb & Hne)]; [by left |].
              right. exists (S j), t, lt'. by rewrite Hshift.
           ++ intros [? | ([| j] & t & lt' & Hi & Hb & Hne)]; [by left | |].
              ** injection Hi as Hn Ht; subst n t. rewrite Nat.add_0_r, Hbest in Hb.
                 congruence.
              ** right. exists j, t, lt'. by rewrite <- Hshift.
      * destruct (IH _ _ _ _ _ Hnd Hrun) as (IH1 & IH2 & IH3).
        split; [| split].
        -- intros [| j] n t Hi.
           ++ injection Hi as Hn Ht; subst n t. rewrite Nat.add_0_r, Hbest.
              by rewrite (IH2 name Hname), lookup_insert_eq.
           ++ rewrite Hshift. specialize (IH1 j n t Hi).
              destruct (bestLink _ _ (rangeCerts (S k + j)%nat _) t);
                [done |].
              rewrite IH1, lookup_insert_ne; [done |].
              intros Heq. by apply (Hrest j n t).
        -- intros n Hn. rewrite IH2 by (intros Hin; apply Hn; by right).
           rewrite lookup_insert_ne; [done |].
           intros Heq. apply Hn. rewrite Heq. by left.
        -- intros n. rewrite IH3, elem_of_app, list_elem_of_singleton. split.
           ++ intros [[? | ->] | (j & t & lt' & Hj & Hb & Hne)].
              ** by left.
              ** right. exists 0%nat, tgt, lt. by rewrite Nat.add_0_r.
              ** right. exists (S j), t, lt'. rewrite Hshift.
                 split; [done |]. split; [done |].
                 rewrite lookup_insert_ne in Hne; [done |].
                 intros Heq. by apply (Hrest j n t).
           ++ intros [? | ([| j] & t & lt' & Hi & Hb & Hne)].
              ** left. by left.
              ** injection Hi as Hn Ht; subst n t. left. by right.
              ** right. exists j, t, lt'. rewrite <- Hshift.
                 split; [done |]. split; [done |].
                 rewrite lookup_insert_ne; [done |].
                 intros Heq. by apply (Hrest j n t).
    + destruct (IH _ _ _ _ _ Hnd Hrun) as (IH1 & IH2 & IH3).
      split; [| split].
      * intros [| j] n t Hi.
        -- injection Hi as Hn Ht; subst n t. rewrite Nat.add_0_r, Hbest.
           by apply IH2.
        -- rewrite Hshift. by apply IH1.
      * intros n Hn. apply IH2. intros Hin. apply Hn. by right.
      * intros n. rewrite IH3. split.
        -- intros [? | (j & t & lt' & Hj & Hb & Hne)]; [by left |].
           right. exists (S j), t, lt'. by rewrite Hshift.
        -- intros [? | ([| j] & t & lt' & Hi & Hb & Hne)]; [by left | |].
           ++ injection Hi as Hn Ht; subst n t. rewrite Nat.add_0_r, Hbest in Hb.
              congruence.
           ++ right. exists j, t, lt'. by rewrite <- Hshift.
Qed.

(** Links that are as wanted and can be read are left alone. *)
Lemma linkTargetsLoop_stable rangeCerts s : forall entries k live upd,
  (forall i n t lt, entries !! i = Some (n, t) ->
     bestLink determineCertificateID ParseCertificate
       (rangeCerts (k + i)%nat (certs s)) t = Some lt ->
     live !! n = Some lt /\ ioFault ("live" +:+ "/" +:+ n) = None) ->
  linkTargetsLoop ioFault determineCertificateID ParseCertificate rangeCerts
    k s live upd entries = (live, inr upd).
Proof.
  induction entries as [| [name tgt] rest IH]; intros k live upd Hok;
    [done |].
  rewrite linkTargetsLoop_cons.
  assert (Hrest : linkTargetsLoop ioFault determineCertificateID
                    ParseCertificate rangeCerts (S k) s live upd rest
                  = (live, inr upd)).
  { apply IH. intros i n t lt Hi Hb. apply (Hok (S i) n t lt); [done |].
    by replace (k + S i)%nat with (S k + i)%nat by lia. }
  destruct (bestLink _ _ (rangeCerts k (certs s)) tgt) as [lt |] eqn:Hw;
    [| done].
  destruct (Hok 0%nat name tgt lt eq_refl) as [Hl Hio];
    [by rewrite Nat.add_0_r |].
  rewrite Hio. by rewrite bool_decide_eq_true_2.
Qed.

Lemma mappingEntry_entries s (order : list string) n t :
  (n, t) ∈ omap (mappingEntry s) order ->
  n ∈ order /\ mappingEntry s n = Some (n, t).
Proof.
  rewrite list_elem_of_omap. intros (n0 & Hin & Hm).
  unfold mappingEntry in Hm |- *.
  destruct (hostnameTargetMapping s !! n0) as [key |] eqn:Hk; [| done].
  destruct (mapLoad key (targets s)) as [t0 |] eqn:Ht; [| done].
  injection Hm as -> ->. by rewrite Hk, Ht.
Qed.

Lemma mappingEntry_fst s n e : mappingEntry s n = Some e -> e.1 = n.
Proof.
  unfold mappingEntry. destruct (hostnameTargetMapping s !! n); [| done].
  destruct (mapLoad _ _); [| done]. by intros [= <-].
Qed.


Lemma mappingEntry_sublist s (order : list string) :
  (omap (mappingEntry s) order).*1 `sublist_of` order.
Proof.
  induction order as [| n order IH]; [done |]. cbn.
  destruct (mappingEntry s n) as [e |] eqn:Hm.
  - cbn. rewrite (mappingEntry_fst _ _ _ Hm). by apply sublist_skip.
  - by apply sublist_cons.
Qed.



(** X22. On a store where the certificate found for a target does not
    depend on the order in which the search ranges over the certificates, a
    [linkTargets] that follows one that returned nil writes no link and
    hands no hostname to the notification hook, whatever the orders of its
    ranges. *)
Theorem linkTargets_again
    (rangeCerts rangeCerts'
       : nat -> list (string * Certificate) -> list (string * Certificate))
    (s : Store) (order order' : list string) (live : gmap string string)
    (updated : list string) :
  (forall k l, rangeCerts k l ≡ₚ l) ->
  (forall k l, rangeCerts' k l ≡ₚ l) ->
  NoDup order -> order' ≡ₚ order ->
  (forall name t cs1 cs2, mappingEntry s name = Some (name, t) ->
     cs1 ≡ₚ certs s -> cs2 ≡ₚ certs s ->
     bestLink determineCertificateID ParseCertificate cs1 t
     = bestLink determineCertificateID ParseCertificate cs2 t) ->
  let run := linkTargets ioFault determineCertificateID ParseCertificate
               rangeCerts s order live in
  run.2 = inr updated ->
  linkTargets ioFault determineCertificateID ParseCertificate rangeCerts'
    s order' run.1
  = (run.1, inr []).
Proof.
  intros Hperm Hperm' Hnd Horder Hstable run Hrun. subst run.
  unfold linkTargets in *.
  destruct (linkTargetsLoop _ _ _ rangeCerts 0 s live [] _) as [live' r]
    eqn:Hloop.
  cbn [fst snd] in *. subst r.
  assert (Hnd' : NoDup (omap (mappingEntry s) order).*1)
    by (apply (sublist_NoDup _ order);
        [done | apply mappingEntry_sublist]).
  destruct (linkTargetsLoop_ok _ _ _ _ _ _ _ _ Hnd' Hloop) as (H1 & _ & _).
  cbn [Nat.add] in H1.
  apply linkTargetsLoop_stable. intros i n t lt Hi Hb. cbn [Nat.add] in Hb.
  apply list_elem_of_lookup_2 in Hi.
  apply mappingEntry_entries in Hi as [Hin Hm].
  assert (Hentry : (n, t) ∈ omap (mappingEntry s) order).
  { apply list_elem_of_omap. exists n. split; [by rewrite <- Horder | done]. }
  apply list_elem_of_lookup_1 in Hentry as [j Hj].
  specialize (H1 j n t Hj).
  rewrite (Hstable n t (rangeCerts j (certs s)) (rangeCerts' i (certs s)))
    in H1 by done.
  by rewrite Hb in H1.
Qed.

End LinksMore.


(** The statement at a store whose one target, for [a.test], has a
    certificate and a longer one that expires later, which is found in
    either order. *)
Lemma linkTargets_again_witness :
  let s := aTestStore [("earlier", earlierCert); ("renewed", renewedCert)] in
  let run := linkTargets sampleIoFault (fun url => url) sampleParse
               sampleRange s ["a.test"] ∅ in
  linkTargets sampleIoFault (fun url => url) sampleParse
    (fun k l => sampleRange (S k) l) s ["a.test"] run.1
  = (run.1, inr []).
Proof.
  intros s run.
  assert (Hrun : run.2 = inr ["a.test"]) by (vm_compute; reflexivity).
  assert (Hperm : forall k (l : list (string * Certificate)),
            sampleRange k l ≡ₚ l).
  { intros k l. unfold sampleRange. destruct (Nat.even k); [done |].
    apply reverse_Permutation. }
  assert (Hnd : NoDup ["a.test"]) by (apply NoDup_singleton).
  apply (linkTargets_again sampleIoFault (fun url => url) sampleParse
           sampleRange (fun k l => sampleRange (S k) l) s
           ["a.test"] ["a.test"] ∅ ["a.test"] Hperm
           (fun k l => Hperm (S k) l) Hnd (reflexivity _)); [| exact Hrun].
  intros name t cs1 cs2 Hm H1 H2.
  unfold mappingEntry in Hm. cbn [hostnameTargetMapping s aTestStore] in Hm.
  destruct (({[ "a.test" := "a" ]} : gmap string string) !! name)
    as [key |] eqn:Hk; [| done].
  apply lookup_singleton_Some in Hk as [<- <-].
  vm_compute in Hm. injection Hm as <-.
  symmetry in H1, H2.
  apply Permutation_length_2_inv in H1 as [-> | ->];
    apply Permutation_length_2_inv in H2 as [-> | ->];
    vm_compute; reflexivity.
Defined.

(** Where two certificates of equal length satisfy the target, the one found
    is the first of the range: a second [linkTargets] that ranges in the
    other order writes the link again and hands the hostname to the
    notification hook. *)
Example linkTargets_again_other_order :
  let s := aTestStore [("later", laterCert); ("earlier", earlierCert)] in
  let run := linkTargets sampleIoFault (fun url => url) sampleParse
               sampleRange s ["a.test"] ∅ in
  let again := linkTargets sampleIoFault (fun url => url) sampleParse
                 (fun k l => sampleRange (S k) l) s ["a.test"] run.1 in
  run.2 = inr ["a.test"]
  /\ run.1 !! "a.test" = Some "certs/https://acme.test/cert/later"
  /\ again.2 = inr ["a.test"]
  /\ again.1 !! "a.test" = Some "certs/https://acme.test/cert/earlier".
Proof. repeat split; vm_compute; reflexivity. Qed.

(** ** The registry of responders *)

(** X23. After any registrations, [New] calls the function registered last
    for the type of the configuration, and fails with "challenge type not
    supported" exactly when none was registered for it, whatever was
    registered for other types. *)
Theorem New_after_registrations {Responder : Type}
    (regs : list (string * (Config -> result Responder))) (rcfg : Config) :
  New Responder (registerAll ∅ regs) rcfg
  = match last (filter (fun r => r.1 = Type_ rcfg) regs) with
    | Some r => r.2 rcfg
    | None => inl (errorString "challenge type not supported")
    end.
Proof.
  assert (H : forall types,
    registerAll types regs !! Type_ rcfg
    = match last (filter (fun r => r.1 = Type_ rcfg) regs) with
      | Some r => Some r.2
      | None => types !! Type_ rcfg
      end).
  { induction regs as [| [name f] regs IH] using rev_ind; intros types;
      [done |].
    unfold registerAll in *. rewrite foldl_app, filter_app.
    cbn [foldl fst snd]. unfold RegisterResponder at 1.
    rewrite filter_cons, filter_nil.
    case_decide as Hn; cbn [fst] in Hn.
    - subst name. rewrite last_snoc.
      etrans; [apply (lookup_insert_eq (M := gmap string)) | done].
    - rewrite app_nil_r.
      etrans; [by apply (lookup_insert_ne (M := gmap string)) |]. apply IH. }
  unfold New. rewrite H.
  destruct (last _) as [r |]; [done |].
  unfold responderTypes.
  by rewrite (lookup_empty (M := gmap string)).
Qed.

(** ** A target added and loaded again *)

Section AddThenLoad.

Variable ioFault : string -> option error.
Variable yamlMarshal : TargetDoc -> result string.
Variable yamlUnmarshal : string -> result TargetDoc.
Variable ToLower : string -> string.
Variable Quote : string -> string.
Variable base32Encode : list Byte.byte -> string.
Variable validHostname : string -> bool.
Variable ValidURL : string -> bool.
Variable DefaultDirectoryURL : string.
Variable createNewAccount : Store -> string -> Store * result Account.

(** X24. The file that [AddTarget] writes for a target is one that
    [validateTargetInner] loads, provided the YAML written reads back as it
    was written and the names are valid hostnames once normalised: the
    target loaded has the names of the target added, lower-cased and
    without a trailing dot, as names to satisfy; as names to request it has
    the same when the target added left them implied or had none, else the
    names to request of the target added as they are; only the lookup of the
    account can make the loading fail. *)
Theorem AddTarget_then_validateTargetInner (s s1 s0 : Store) (tgt : Target)
    (uuid : list Byte.byte) :
  let names := TargetSatisfy.Names (Satisfy tgt) in
  let fn := makeUniqueTargetName ToLower base32Encode tgt uuid in
  let doc := toYAML (if TargetRequest.implicitNames (Request tgt)
                     then setRequestNames tgt [] else tgt) in
  let provider :=
    if bool_decide (TargetRequest.Provider (Request tgt) = EmptyString)
    then LegacyProvider tgt else TargetRequest.Provider (Request tgt) in
  names <> [] ->
  findTargetWithAllNames (targets s) names = None ->
  AddTarget ioFault yamlMarshal ToLower base32Encode validHostname s tgt uuid
  = (s1, None) ->
  (forall b, yamlMarshal doc = inr b -> yamlUnmarshal b = inr doc) ->
  Forall (fun n => validHostname (normalized ToLower n) = true) names ->
  match
    (validateTargetInner ioFault yamlUnmarshal ToLower Quote validHostname
       ValidURL DefaultDirectoryURL createNewAccount s0 fn "desired"
       (desiredFiles s1)).2
  with
  | inr t =>
      TargetSatisfy.Names (Satisfy t) = normalized ToLower <$> names
      /\ TargetRequest.Names (Request t)
         = (if TargetRequest.implicitNames (Request tgt)
               || (length (TargetRequest.Names (Request tgt)) =? 0)%nat
            then normalized ToLower <$> names
            else TargetRequest.Names (Request tgt))
      /\ Priority t = Priority tgt
      /\ TargetRequest.Provider (Request t) = provider
  | inl e =>
      (getAccountByProviderString ValidURL DefaultDirectoryURL
         createNewAccount s0 provider).2 = inl e
  end.
Proof.
  intros names fn doc provider Hne Hfind Hadd Hyaml Hvalid.
  unfold AddTarget in Hadd. fold names in Hadd.
  destruct names as [| n0 names0] eqn:Hnames; [done |].
  cbn [length Nat.eqb] in Hadd.
  destruct (firstInvalidHostname validHostname (n0 :: names0)); [done |].
  rewrite Hfind in Hadd. fold fn in Hadd.
  unfold serializeTarget in Hadd. fold doc in Hadd.
  destruct (yamlMarshal doc) as [e | b] eqn:Hm; [done |].
  unfold fdbWriteBytes in Hadd.
  destruct (ioFault ("desired" +:+ "/" +:+ fn)) as [e |] eqn:Hio; [done |].
  injection Hadd as <-.
  unfold validateTargetInner, fdbBytes. rewrite Hio.
  cbn [desiredFiles withDesiredFiles]. rewrite lookup_insert_eq.
  rewrite (Hyaml b eq_refl). cbv zeta.
  assert (Hsat : TargetSatisfy.Names (Satisfy (fromYAML doc)) = n0 :: names0).
  { subst doc. rewrite <- Hnames. subst names.
    by destruct (TargetRequest.implicitNames (Request tgt)). }
  rewrite Hsat. cbn [length Nat.eqb].
  rewrite (normalizeNames_valid ToLower Quote validHostname _ Hvalid).
  assert (Hprov : TargetRequest.Provider (Request (fromYAML doc))
                  = TargetRequest.Provider (Request tgt)
                  /\ LegacyProvider (fromYAML doc) = LegacyProvider tgt
                  /\ Priority (fromYAML doc) = Priority tgt).
  { subst doc. by destruct (TargetRequest.implicitNames (Request tgt)). }
  destruct Hprov as (Hp1 & Hp2 & Hp3). rewrite Hp1, Hp2, Hp3.
  fold provider.
  destruct (getAccountByProviderString ValidURL DefaultDirectoryURL
              createNewAccount s0 provider) as [s2 [e | a]]; [done |].
  cbn. split; [done |]. split; [| done].
  subst doc. destruct (TargetRequest.implicitNames (Request tgt)); [done |].
  cbn. by destruct (TargetRequest.Names (Request tgt)).
Qed.

End AddThenLoad.

(** The statement at the empty store and the target for [A.Test.], whose
    names to request are implied; every file reads as the document
    written. *)
Lemma AddTarget_then_validateTargetInner_witness :
  let tgt := sampleTarget ["A.Test."] ["A.Test."] true in
  let doc := toYAML (setRequestNames tgt []) in
  let valid := fun _ : string => true in
  let s1 := (AddTarget sampleIoFault sampleMarshal sampleToLower sampleBase32
               valid emptyStore tgt []).1 in
  match
    (validateTargetInner sampleIoFault (fun _ => inr doc) sampleToLower
       sampleQuote valid sampleValidURL "https://acme.test/directory"
       sampleCreateNewAccount emptyStore
       (makeUniqueTargetName sampleToLower sampleBase32 tgt []) "desired"
       (desiredFiles s1)).2
  with
  | inr t =>
      TargetSatisfy.Names (Satisfy t) = ["a.test"]
      /\ TargetRequest.Names (Request t) = ["a.test"]
      /\ Priority t = 0
      /\ TargetRequest.Provider (Request t) = EmptyString
  | inl e =>
      (getAccountByProviderString sampleValidURL "https://acme.test/directory"
         sampleCreateNewAccount emptyStore EmptyString).2 = inl e
  end.
Proof.
  intros tgt doc valid s1.
  apply (AddTarget_then_validateTargetInner sampleIoFault sampleMarshal
           (fun _ => inr doc) sampleToLower sampleQuote sampleBase32 valid
           sampleValidURL "https://acme.test/directory"
           sampleCreateNewAccount emptyStore s1 emptyStore tgt []).
  - done.
  - reflexivity.
  - vm_compute. reflexivity.
  - intros b _. reflexivity.
  - repeat constructor.
Defined.

(** ** Satisfying fewer names *)

(** X25. A certificate that satisfies a target satisfies every target whose
    names to satisfy are among those of the first, so that a search among
    certificates that hold it finds a certificate for such a target:
    taking names away from a target never leaves it without a certificate
    it had. *)
Theorem doesCertSatisfy_fewer_names
    (ParseCertificate : list Byte.byte -> option x509Certificate)
    (c : Certificate) (t t' : Target) :
  (forall n, n ∈ TargetSatisfy.Names (Satisfy t') ->
             n ∈ TargetSatisfy.Names (Satisfy t)) ->
  doesCertSatisfy ParseCertificate c t = true ->
  doesCertSatisfy ParseCertificate c t' = true
  /\ forall certs, c ∈ certs ->
       is_Some (findBestCertificateSatisfying ParseCertificate certs t').
Proof.
  intros Hsub Hsat.
  assert (Hsat' : doesCertSatisfy ParseCertificate c t' = true).
  { unfold doesCertSatisfy in *.
    destruct (Certificates c) as [| der rest]; [done |].
    destruct (CertificateKey c); [| done].
    destruct (ParseCertificate der) as [cc |]; [| done].
    cbv zeta in *. rewrite coversNames_spec in Hsat |- *.
    intros n Hn. by apply Hsat, Hsub. }
  split; [exact Hsat' |]. intros certs Hin.
  unfold findBestCertificateSatisfying.
  destruct (findBestLoop ParseCertificate t' None certs) as [b |] eqn:Hrun;
    [done |].
  destruct (findBestLoop_None _ _ _ _ Hrun) as [_ Hall].
  rewrite (Hall c Hin) in Hsat'. discriminate.
Qed.

(** The statement at the certificate for [a.test], the target for [a.test]
    and the target for [a.test] of which that name has been taken away. *)
Lemma doesCertSatisfy_fewer_names_witness :
  doesCertSatisfy sampleParse laterCert
    (setSatisfyNames aTestTarget
       (removeStringFromList ["a.test"] "a.test")) = true
  /\ forall certs, laterCert ∈ certs ->
       is_Some (findBestCertificateSatisfying sampleParse certs
                  (setSatisfyNames aTestTarget
                     (removeStringFromList ["a.test"] "a.test"))).
Proof.
  apply (doesCertSatisfy_fewer_names sampleParse laterCert aTestTarget).
  - vm_compute. intros n Hn. inversion Hn.
  - vm_compute. reflexivity.
Defined.
